(** * CourierQuest: the simulation engine of [api v2.py], embedded in Rocq

    The development follows the Python source function by function.
    Python [int] is [Z]; Python [float] is an exact rational [Q] (rounding
    of binary floating point is not modelled); [str] is [string]; a [list]
    or [deque] is a [list]; the legend [dict] and the save directory are
    [gmap]s.  Objects that the source mutates in place are threaded through
    the functions as explicit state: a method of [CourierQuest] is a
    function from the game to the game.

    What the engine reads from outside comes in as arguments: the map and
    the orders of the API manager, the keys and events of a frame, its
    duration, the clock, and the weather system, which is random and
    follows the wall clock.  [CourierQuest.frame] is one pass of the main
    loop and [CourierQuest.run] a sequence of them. *)

From Stdlib Require Import ZArith QArith Qabs Qround Qminmax List String Lia Lqa.
From Stdlib Require Import Sorted Permutation Bool DecimalString.
From stdpp Require Import gmap strings.
Import ListNotations.
Open Scope Z_scope.

(** ** Data classes *)

(** [class Position] *)
Record Position := mkPosition { pos_x : Z; pos_y : Z }.

(** The [status] strings an [Order] goes through. *)
Inductive OrderStatus :=
| waiting_release | available | accepted | picked_up | delivered.

(** [class Order] *)
Record Order := mkOrder {
  id : string;
  pickup : Position;
  dropoff : Position;
  payout : Z;
  duration_minutes : Q;
  weight : Z;
  priority : Z;
  release_time : Z;
  status : OrderStatus;
  created_at : Q;
  accepted_at : Q
}.

Definition Position_eqb (a b : Position) : bool :=
  (pos_x a =? pos_x b) && (pos_y a =? pos_y b).

Definition OrderStatus_eqb (a b : OrderStatus) : bool :=
  match a, b with
  | waiting_release, waiting_release | available, available
  | accepted, accepted | picked_up, picked_up | delivered, delivered => true
  | _, _ => false
  end.

(** The [__eq__] a dataclass generates: field by field, floats by value. *)
Definition Order_eqb (a b : Order) : bool :=
  String.eqb (id a) (id b)
  && Position_eqb (pickup a) (pickup b)
  && Position_eqb (dropoff a) (dropoff b)
  && (payout a =? payout b)
  && Qeq_bool (duration_minutes a) (duration_minutes b)
  && (weight a =? weight b)
  && (priority a =? priority b)
  && (release_time a =? release_time b)
  && OrderStatus_eqb (status a) (status b)
  && Qeq_bool (created_at a) (created_at b)
  && Qeq_bool (accepted_at a) (accepted_at b).

Definition set_status (s : OrderStatus) (o : Order) : Order :=
  mkOrder (id o) (pickup o) (dropoff o) (payout o) (duration_minutes o)
          (weight o) (priority o) (release_time o) s (created_at o) (accepted_at o).

Definition set_created_at (t : Q) (o : Order) : Order :=
  mkOrder (id o) (pickup o) (dropoff o) (payout o) (duration_minutes o)
          (weight o) (priority o) (release_time o) (status o) t (accepted_at o).

Definition set_pickup (p : Position) (o : Order) : Order :=
  mkOrder (id o) p (dropoff o) (payout o) (duration_minutes o)
          (weight o) (priority o) (release_time o) (status o) (created_at o) (accepted_at o).

Definition set_dropoff (p : Position) (o : Order) : Order :=
  mkOrder (id o) (pickup o) p (payout o) (duration_minutes o)
          (weight o) (priority o) (release_time o) (status o) (created_at o) (accepted_at o).

(** ** Python list primitives used by the engine *)

(** [l.remove(x)]: drops the first element equal to [x]; [None] stands for
    the [ValueError] raised when there is none. *)
Fixpoint list_remove (x : Order) (l : list Order) : option (list Order) :=
  match l with
  | [] => None
  | y :: l' =>
      if Order_eqb y x then Some l'
      else option_map (cons y) (list_remove x l')
  end.

(** [l.insert(i, x)] for [0 <= i]. *)
Definition list_insert (i : nat) (x : Order) (l : list Order) : list Order :=
  firstn i l ++ x :: skipn i l.

(** ** [class SortingAlgorithms] *)

Module SortingAlgorithms.

(** [quicksort_by_priority].  The lists [left] and [right] leave out the
    pivot, so each call is on a shorter list: [fuel] bounds the depth of the
    recursion, and the length of the list is enough of it.  The pivot index
    [len(orders) // 2] is inside the list, so the default of [nth] is never
    read. *)
Fixpoint quicksort_fuel (fuel : nat) (orders : list Order) : list Order :=
  match fuel with
  | O => orders
  | S fuel' =>
      match orders with
      | [] | [_] => orders
      | first :: _ =>
          let pivot := nth (length orders / 2) orders first in
          let left := List.filter (fun x => priority pivot <? priority x) orders in
          let middle := List.filter (fun x => priority x =? priority pivot) orders in
          let right := List.filter (fun x => priority x <? priority pivot) orders in
          quicksort_fuel fuel' left ++ middle ++ quicksort_fuel fuel' right
      end
  end.

Definition quicksort_by_priority (orders : list Order) : list Order :=
  quicksort_fuel (length orders) orders.

(** The local function [get_time_remaining] of [_merge_by_deadline]. *)
Definition get_time_remaining (game_time : Q) (order : Order) : Q :=
  match status order with
  | waiting_release => (duration_minutes order * 60)%Q
  | _ =>
      let elapsed := (game_time - created_at order)%Q in
      Qmax 0 (duration_minutes order * 60 - elapsed)%Q
  end.

(** [_merge_by_deadline].  The cursors [i] and [j] of the source are kept as
    the parts [left[i:]] and [right[j:]] still to be merged; when one of them
    is used up the loop ends and the other part is appended. *)
Fixpoint _merge_by_deadline (left right : list Order) (game_time : Q) : list Order :=
  match left with
  | [] => right
  | l :: left' =>
      (fix merge_right (right : list Order) : list Order :=
         match right with
         | [] => left
         | r :: right' =>
             if Qle_bool (get_time_remaining game_time l) (get_time_remaining game_time r)
             then l :: _merge_by_deadline left' right game_time
             else r :: merge_right right'
         end) right
  end.

(** [mergesort_by_deadline]: both halves of a list of two orders or more are
    shorter than the list, so its length is enough fuel. *)
Fixpoint mergesort_fuel (fuel : nat) (orders : list Order) (game_time : Q) : list Order :=
  match fuel with
  | O => orders
  | S fuel' =>
      if (length orders <=? 1)%nat then orders
      else
        let mid := (length orders / 2)%nat in
        let left := mergesort_fuel fuel' (firstn mid orders) game_time in
        let right := mergesort_fuel fuel' (skipn mid orders) game_time in
        _merge_by_deadline left right game_time
  end.

Definition mergesort_by_deadline (orders : list Order) (game_time : Q) : list Order :=
  mergesort_fuel (length orders) orders game_time.

(** The local function [manhattan_distance] of [insertion_sort_by_distance]. *)
Definition manhattan_distance (player_pos : Position) (order : Order) : Z :=
  Z.abs (pos_x (pickup order) - pos_x player_pos)
  + Z.abs (pos_y (pickup order) - pos_y player_pos).

(** The loop [while j >= 0 and manhattan_distance(result[j]) > key_distance]
    with its body [result[j + 1] = result[j]; j -= 1].  The argument [k] is
    [j + 1], the slot that is free; the result is the list and the slot where
    the loop stops. *)
Fixpoint shift (player_pos : Position) (key_distance : Z)
         (result : list Order) (k : nat) : list Order * nat :=
  match k with
  | O => (result, k)
  | S j =>
      match result !! j with
      | Some o =>
          if key_distance <? manhattan_distance player_pos o
          then shift player_pos key_distance (<[k := o]> result) j
          else (result, k)
      | None => (result, k)
      end
  end.

(** One round of [for i in range(1, len(result))]. *)
Definition insertion_step (player_pos : Position) (result : list Order) (i : nat)
    : list Order :=
  match result !! i with
  | Some key =>
      let '(result, k) :=
        shift player_pos (manhattan_distance player_pos key) result i in
      <[k := key]> result
  | None => result
  end.

Definition insertion_sort_by_distance (orders : list Order) (player_pos : Position)
    : list Order :=
  fold_left (insertion_step player_pos) (seq 1 (length orders - 1)) orders.

End SortingAlgorithms.

(** ** [class OptimizedPriorityQueue] *)

Module OptimizedPriorityQueue.

(** The queue object is its [items] list. *)

(** The [while left < right] loop of [enqueue].  The interval shrinks by
    one at least in each round, so [right - left] rounds are all the loop
    can make: with that much fuel, running out of it and leaving the loop
    are the same event.  [mid] is below [right], hence an index of [items],
    and the default of [nth] is never read. *)
Fixpoint bisect (fuel : nat) (items : list Order) (item : Order)
         (left right : nat) : nat :=
  match fuel with
  | O => left
  | S fuel' =>
      if (left <? right)%nat then
        let mid := ((left + right) / 2)%nat in
        if priority (nth mid items item) <? priority item
        then bisect fuel' items item left mid
        else bisect fuel' items item (S mid) right
      else left
  end.

Definition enqueue (item : Order) (items : list Order) : list Order :=
  match items with
  | [] => [item]
  | _ =>
      let left := bisect (length items) items item 0%nat (length items) in
      list_insert left item items
  end.

(** [dequeue] returns what was popped and the remaining items. *)
Definition dequeue (items : list Order) : option Order * list Order :=
  match items with
  | [] => (None, [])
  | x :: rest => (Some x, rest)
  end.

Definition size (items : list Order) : Z := Z.of_nat (length items).

(** [remove]: the boolean result and the items afterwards. *)
Definition remove (order : Order) (items : list Order) : bool * list Order :=
  match list_remove order items with
  | Some items' => (true, items')
  | None => (false, items)
  end.

(** Operations a client can issue, and their effect on the items. *)
Inductive op := Enqueue (o : Order) | Dequeue | Remove (o : Order).

Definition apply_op (items : list Order) (c : op) : list Order :=
  match c with
  | Enqueue o => enqueue o items
  | Dequeue => snd (dequeue items)
  | Remove o => snd (remove o items)
  end.

Definition run (cs : list op) : list Order := fold_left apply_op cs [].

(** Items in descending priority order. *)
Definition by_priority (a b : Order) : Prop := priority b <= priority a.
Definition sorted_desc (items : list Order) : Prop :=
  StronglySorted by_priority items.

End OptimizedPriorityQueue.

(** ** The map: tiles and legend *)

(** One legend entry, a [dict] with the optional keys [surface_weight],
    [blocked] and [rest_bonus] (the [name] plays no role in the engine). *)
Record TileInfo := mkTileInfo {
  surface_weight : option Q;
  blocked : option bool;
  rest_bonus : option Q
}.

(** [legend.get(tile_type, {})] *)
Definition legend_get (legend : gmap string TileInfo) (tile_type : string) : TileInfo :=
  default (mkTileInfo None None None) (legend !! tile_type).

(** The subscript [l[i]] of a list: a negative [i] counts from the end.
    [None] is where Python raises [IndexError]. *)
Definition py_subscript {A : Type} (l : list A) (i : Z) : option A :=
  if 0 <=? i then nth_error l (Z.to_nat i)
  else if 0 <=? Z.of_nat (length l) + i
       then nth_error l (Z.to_nat (Z.of_nat (length l) + i))
       else None.

(** The guarded lookup [if y < len(tiles) and x < len(tiles[y]): tiles[y][x]].
    The guard has no lower bound: a negative coordinate passes it and the
    subscript counts from the end.  Below [-len] the subscript raises
    [IndexError]; no position that the engine builds is negative, and
    [None], the answer of a guard that fails, is the answer there too. *)
Definition tile_at (tiles : list (list string)) (x y : Z) : option string :=
  if y <? Z.of_nat (length tiles) then
    match py_subscript tiles y with
    | Some row =>
        if x <? Z.of_nat (length row) then py_subscript row x else None
    | None => None
    end
  else None.

(** ** Weather, as far as the engine reads it *)

Inductive Condition :=
| Clear | Clouds | RainLight | Rain | Storm | Fog | Wind | Heat | Cold.

(** The attributes of [EnhancedWeatherSystem] that the engine reads and
    saves.  The process itself is random and driven by the wall clock; its
    state after each [update(dt)] and the value of [get_speed_multiplier()]
    are inputs of the engine functions below. *)
Record Weather := mkWeather {
  current_condition : Condition;
  current_intensity : Q;
  time_in_current : Q
}.


(** ** [class EnhancedWeatherSystem]

    The process itself.  What it reads from outside is passed in: the
    readings of [time.time()], the results of [random.choices],
    [random.uniform] and [random.randint], and the easing curve
    [(1 - cos(progress * pi)) / 2], whose values are not rationals.  The
    notifications are messages for the screen and are left out. *)

Module EnhancedWeatherSystem.
Local Open Scope Q_scope.

(** The rows of the class attribute [TRANSITION_MATRIX], in the order of
    their keys. *)
Definition TRANSITION_MATRIX (c : Condition) : list (Condition * Q) :=
  match c with
  | Clear => [(Clear, 4 # 10); (Clouds, 3 # 10); (Wind, 2 # 10); (Heat, 1 # 10)]
  | Clouds => [(Clear, 2 # 10); (Clouds, 3 # 10); (RainLight, 3 # 10); (Fog, 2 # 10)]
  | RainLight => [(Clouds, 3 # 10); (RainLight, 2 # 10); (Rain, 3 # 10); (Clear, 2 # 10)]
  | Rain => [(RainLight, 3 # 10); (Rain, 2 # 10); (Storm, 2 # 10); (Clouds, 3 # 10)]
  | Storm => [(Rain, 4 # 10); (Storm, 2 # 10); (Clouds, 4 # 10)]
  | Fog => [(Fog, 3 # 10); (Clouds, 4 # 10); (Clear, 3 # 10)]
  | Wind => [(Wind, 2 # 10); (Clear, 3 # 10); (Clouds, 3 # 10); (Cold, 2 # 10)]
  | Heat => [(Heat, 3 # 10); (Clear, 4 # 10); (Clouds, 3 # 10)]
  | Cold => [(Cold, 3 # 10); (Clear, 2 # 10); (Clouds, 3 # 10); (Wind, 2 # 10)]
  end.

Definition SPEED_MULTIPLIERS (c : Condition) : Q :=
  match c with
  | Clear => 100 # 100
  | Clouds => 98 # 100
  | RainLight => 90 # 100
  | Rain => 85 # 100
  | Storm => 75 # 100
  | Fog => 88 # 100
  | Wind => 92 # 100
  | Heat => 90 # 100
  | Cold => 92 # 100
  end.

Definition STAMINA_PENALTIES (c : Condition) : Q :=
  match c with
  | Clear => 0
  | Clouds => 0
  | RainLight => 5 # 100
  | Rain => 1 # 10
  | Storm => 3 # 10
  | Fog => 0
  | Wind => 1 # 10
  | Heat => 2 # 10
  | Cold => 5 # 100
  end.

Record t := mk {
  current_condition : Condition;
  current_intensity : Q;
  time_in_current : Q;
  burst_duration : Z;
  weather_memory : list Condition;  (* [deque(maxlen=5)] *)
  transitioning : bool;
  transition_start_time : Q;
  transition_duration : Q;
  previous_condition : Condition;
  previous_intensity : Q;
  target_condition : Condition;
  target_intensity : Q
}.

(** [__init__] *)
Definition init : t :=
  mk Clear (5 # 10) 0 30 [] false 0 3 Clear (5 # 10) Clear (5 # 10).

(** What one call of [_initiate_weather_change] draws and reads. *)
Record Draw := mkDraw {
  new_condition : Condition;  (* [random.choices(conditions, weights=weights)[0]] *)
  new_intensity : Q;          (* [random.uniform(0.4, 0.9)] *)
  new_burst : Z;              (* [random.randint(25, 40)] *)
  start_time : Q              (* [time.time()] *)
}.

(** [append] on a [deque(maxlen=5)]. *)
Definition memory_append (c : Condition) (memory : list Condition) : list Condition :=
  if (5 <=? length memory)%nat then tl memory ++ [c] else memory ++ [c].

Definition _initiate_weather_change (d : Draw) (w : t) : t :=
  mk (current_condition w) (current_intensity w)
     0
     (new_burst d)
     (memory_append (new_condition d) (weather_memory w))
     true
     (start_time d)
     (transition_duration w)
     (current_condition w)
     (current_intensity w)
     (new_condition d)
     (new_intensity d).

Section Easing.

(** [ease progress] is [(1 - math.cos(progress * math.pi)) / 2]. *)
Variable ease : Q -> Q.

(** [min(1.0, elapsed_transition / self.transition_duration)] at the clock
    reading [now]. *)
Definition progress_at (now : Q) (w : t) : Q :=
  Qmin 1 ((now - transition_start_time w) / transition_duration w).

(** [update(dt)]; [now] is the clock reading of the transition branch and
    [d] what a weather change started at the end of the call draws. *)
Definition update (dt now : Q) (d : Draw) (w : t) : t :=
  let w :=
    mk (current_condition w) (current_intensity w)
       (Qred (time_in_current w + dt))
       (burst_duration w) (weather_memory w) (transitioning w)
       (transition_start_time w) (transition_duration w)
       (previous_condition w) (previous_intensity w)
       (target_condition w) (target_intensity w) in
  let w :=
    if transitioning w then
      let progress := progress_at now w in
      let smooth_progress := ease progress in
      let intensity :=
        (previous_intensity w
         + (target_intensity w - previous_intensity w) * smooth_progress)%Q in
      if Qle_bool 1 progress then
        mk (target_condition w) (target_intensity w)
           (time_in_current w) (burst_duration w) (weather_memory w)
           false
           (transition_start_time w) (transition_duration w)
           (previous_condition w) (previous_intensity w)
           (target_condition w) (target_intensity w)
      else
        mk (current_condition w) intensity
           (time_in_current w) (burst_duration w) (weather_memory w)
           (transitioning w)
           (transition_start_time w) (transition_duration w)
           (previous_condition w) (previous_intensity w)
           (target_condition w) (target_intensity w)
    else w in
  if Qle_bool (inject_Z (burst_duration w)) (time_in_current w)
     && negb (transitioning w)
  then _initiate_weather_change d w
  else w.

Definition get_speed_multiplier (now : Q) (w : t) : Q :=
  let base_mult :=
    if transitioning w then
      let smooth_progress := ease (progress_at now w) in
      let prev_mult := SPEED_MULTIPLIERS (previous_condition w) in
      let target_mult := SPEED_MULTIPLIERS (target_condition w) in
      (prev_mult + (target_mult - prev_mult) * smooth_progress)%Q
    else SPEED_MULTIPLIERS (current_condition w) in
  (base_mult * (1 - current_intensity w * (2 # 10)))%Q.

Definition get_stamina_penalty (now : Q) (w : t) : Q :=
  let base_penalty :=
    if transitioning w then
      let smooth_progress := ease (progress_at now w) in
      let prev_penalty := STAMINA_PENALTIES (previous_condition w) in
      let target_penalty := STAMINA_PENALTIES (target_condition w) in
      (prev_penalty + (target_penalty - prev_penalty) * smooth_progress)%Q
    else STAMINA_PENALTIES (current_condition w) in
  (base_penalty * current_intensity w)%Q.

End Easing.

(** The attributes that the engine reads and saves. *)
Definition view (w : t) : Weather :=
  mkWeather (current_condition w) (current_intensity w) (time_in_current w).

End EnhancedWeatherSystem.

(** ** [class GameState] *)

Module GameState.

Record t := mk {
  player_pos : Position;
  stamina : Q;
  reputation : Z;
  money : Z;
  game_time : Q;
  weather_time : Q;
  current_weather : Condition;
  weather_intensity : Q;
  inventory : list Order;
  available_orders : list Order;
  completed_orders : list Order;
  goal : Z;
  delivery_streak : Z;
  pending_orders : list Order;
  city_width : Z;
  city_height : Z;
  tiles : list (list string);
  legend : gmap string TileInfo;
  city_name : string;
  max_game_time : Q
}.

End GameState.

(** Comparisons of floats as booleans. *)
Definition Qlt_bool (a b : Q) : bool := negb (Qle_bool b a).

(** ** [class MemoryEfficientHistory] *)

Module MemoryEfficientHistory.

(** A diff is a [dict] with up to four keys. *)
Record Diff := mkDiff {
  d_player_pos : option (Z * Z);
  d_stamina : option Q;
  d_money : option Z;
  d_reputation : option Z
}.

Record t := mk {
  diffs : list Diff;
  max_size : Z;
  base_state : option GameState.t
}.

(** [__init__(max_size=20)] *)
Definition init : t := mk [] 20 None.

(** The dict [diff] that [push] builds against the base snapshot. *)
Definition make_diff (base state : GameState.t) : Diff :=
  mkDiff
    (if negb (pos_x (GameState.player_pos base) =? pos_x (GameState.player_pos state))
        || negb (pos_y (GameState.player_pos base) =? pos_y (GameState.player_pos state))
     then Some (pos_x (GameState.player_pos state), pos_y (GameState.player_pos state))
     else None)
    (if Qlt_bool 1 (Qabs (GameState.stamina base - GameState.stamina state))
     then Some (GameState.stamina state) else None)
    (if negb (GameState.money base =? GameState.money state)
     then Some (GameState.money state) else None)
    (if negb (GameState.reputation base =? GameState.reputation state)
     then Some (GameState.reputation state) else None).

(** The truth value of the dict: it has a key. *)
Definition nonempty (d : Diff) : bool :=
  match d with
  | mkDiff None None None None => false
  | _ => true
  end.

Definition push (state : GameState.t) (h : t) : t :=
  match base_state h with
  | None => mk (diffs h) (max_size h) (Some state)
  | Some base =>
      let diff := make_diff base state in
      if nonempty diff then
        let appended := diffs h ++ [diff] in
        if max_size h <=? Z.of_nat (length appended)
        then mk (tl appended) (max_size h) (base_state h)
        else mk appended (max_size h) (base_state h)
      else h
  end.

(** The state [pop] rebuilds from a diff and the base snapshot. *)
Definition rebuild (diff : Diff) (base : GameState.t) : GameState.t :=
  let base_xy := (pos_x (GameState.player_pos base), pos_y (GameState.player_pos base)) in
  GameState.mk
    (mkPosition (fst (default base_xy (d_player_pos diff)))
                (snd (default base_xy (d_player_pos diff))))
    (default (GameState.stamina base) (d_stamina diff))
    (default (GameState.reputation base) (d_reputation diff))
    (default (GameState.money base) (d_money diff))
    (GameState.game_time base)
    (GameState.weather_time base)
    (GameState.current_weather base)
    (GameState.weather_intensity base)
    (GameState.inventory base)
    (GameState.available_orders base)
    (GameState.completed_orders base)
    (GameState.goal base)
    0
    (GameState.pending_orders base)
    (GameState.city_width base)
    (GameState.city_height base)
    (GameState.tiles base)
    (GameState.legend base)
    (GameState.city_name base)
    (GameState.max_game_time base).

(** [pop]: the state returned ([None] when there is no diff) and the
    history afterwards.  A diff is only ever appended once the base snapshot
    is set, so the second arm's inner [None] is never met from [init]. *)
Definition pop (h : t) : option GameState.t * t :=
  match rev (diffs h) with
  | [] => (None, h)
  | diff :: before =>
      let h' := mk (rev before) (max_size h) (base_state h) in
      match base_state h with
      | Some base => (Some (rebuild diff base), h')
      | None => (None, h')
      end
  end.

Definition size (h : t) : Z := Z.of_nat (length (diffs h)).

End MemoryEfficientHistory.

(** ** [class RobustFileManager] *)

Module RobustFileManager.

Record Metadata := mkMetadata {
  saved_at : string;
  game_time : Q;
  player_position : Z * Z;
  completion_percentage : Q;
  city_info : string
}.

(** The object stored under ['game_state']: a [GameState], or the state
    object of an older save that has no [city_width] / [city_height]. *)
Inductive StateObject := Full (s : GameState.t) | Legacy.

(** What reading [saves/slot<n>.sav] can give: the dict that [save] writes,
    another object, or a failure of [pickle.load] or of the ['game_state']
    lookup.  [pickle.dump] followed by [pickle.load] rebuilds an equal
    object, so the disk stores the value itself. *)
Inductive Pickle :=
| SaveData (version : string) (timestamp : Q) (game_state : StateObject)
           (metadata : Metadata)
| OtherObject
| Unreadable.

(** The directory [saves/], one file per slot. *)
Abbreviation Disk := (gmap Z Pickle).

Definition string_of_Z (z : Z) : string := NilZero.string_of_int (Z.to_int z).

(** The f-string of ['city_info']. *)
Definition city_info_of (st : GameState.t) : string :=
  (GameState.city_name st ++ " (" ++ string_of_Z (GameState.city_width st)
   ++ "x" ++ string_of_Z (GameState.city_height st) ++ ")")%string.

(** [save_game_with_validation]; [now] and [now_iso] are the readings of
    [time.time()] and [datetime.now().isoformat()].  The only statement of
    the [try] block that can raise on a [GameState] is the division by
    [goal]; the handler then returns [False] before the file is opened. *)
Definition save_game_with_validation (now : Q) (now_iso : string)
    (game_state : GameState.t) (slot : Z) (disk : Disk) : bool * Disk :=
  if GameState.goal game_state =? 0 then (false, disk)
  else
    let metadata :=
      mkMetadata now_iso
        (GameState.game_time game_state)
        (pos_x (GameState.player_pos game_state), pos_y (GameState.player_pos game_state))
        ((inject_Z (GameState.money game_state) / inject_Z (GameState.goal game_state)) * 100)%Q
        (city_info_of game_state) in
    (true, <[slot := SaveData "3.1_map_fixed" now (Full game_state) metadata]> disk).

Definition load_game_with_validation (slot : Z) (disk : Disk) : option GameState.t :=
  match disk !! slot with
  | None => None
  | Some (SaveData _ _ (Full game_state) _) => Some game_state
  | Some (SaveData _ _ Legacy _) => None
  | Some OtherObject => None
  | Some Unreadable => None
  end.

Definition get_save_info (slot : Z) (disk : Disk) : option Metadata :=
  match disk !! slot with
  | Some (SaveData _ _ _ metadata) => Some metadata
  | _ => None
  end.


(** *** The score table [data/puntajes.json] *)

(** One entry of the table, with the keys that [save_score] writes; the key
    ['score'] may be missing from an entry that comes from the file. *)
Record ScoreEntry := mkScoreEntry {
  se_score : option Z;
  se_money : Z;
  se_reputation : Z;
  se_completed_orders : Z;
  se_game_time : Q;
  se_date : string;
  se_victory : bool;
  se_delivery_streak_record : Z;
  se_city_name : string;
  se_city_size : string;
  se_api_source : string
}.

(** What [data/puntajes.json] can be: absent; a file whose reading raises
    before the text is parsed (bytes that do not decode, [UnicodeDecodeError];
    a read that the system refuses, [OSError]); text that is not JSON
    ([json.JSONDecodeError]); JSON that is not a list; a list that [sort]
    cannot order (an entry that is no dict, scores that do not compare); or
    a list of entries. *)
Inductive ScoresFile :=
| Missing
| Undecodable
| NotJson
| NotAList
| Unsortable
| ScoreList (scores : list ScoreEntry).

(** The sort key [x.get('score', 0)]. *)
Definition score_key (x : ScoreEntry) : Z := default 0 (se_score x).

(** [scores.sort(key=..., reverse=True)]: descending, and entries with the
    same key stay in the order they had.  The list is built from its last
    entry backwards, so an entry goes in front of the entries with the same
    key. *)
Fixpoint insert_by_score (x : ScoreEntry) (sorted : list ScoreEntry) : list ScoreEntry :=
  match sorted with
  | [] => [x]
  | first :: rest =>
      if score_key first <=? score_key x then x :: sorted
      else first :: insert_by_score x rest
  end.

Definition sort_by_score (scores : list ScoreEntry) : list ScoreEntry :=
  fold_right insert_by_score [] scores.

(** [load_scores]: the list returned and the file afterwards.  A missing
    file is created with an empty table.  Of the two handlers only the one
    for [json.JSONDecodeError] writes an empty table; every other error
    goes to [except Exception], which returns and leaves the file. *)
Definition load_scores (file : ScoresFile) : list ScoreEntry * ScoresFile :=
  match file with
  | Missing => ([], ScoreList [])
  | Undecodable => ([], file)
  | NotJson => ([], ScoreList [])
  | NotAList => ([], file)
  | Unsortable => ([], file)
  | ScoreList scores => (sort_by_score scores, file)
  end.

End RobustFileManager.

(** ** [class CourierQuest] *)

Module CourierQuest.

Inductive Screen := menu | playing | tutorial.

(** The attributes of the game object that the simulation reads or writes;
    fonts, images, messages and frame counters are left out. *)
Record t := mk {
  game_state : Screen;
  paused : bool;
  game_over : bool;
  victory : bool;
  city_width : Z;
  city_height : Z;
  tiles : list (list string);
  legend : gmap string TileInfo;
  goal : Z;
  city_name : string;
  max_game_time : Q;
  player_pos : Position;
  stamina : Q;
  reputation : Z;
  money : Z;
  game_time : Q;
  pending_orders : list Order;
  available_orders : list Order;  (* the [items] of the [OptimizedPriorityQueue] *)
  inventory : list Order;
  completed_orders : list Order;
  delivery_streak : Z;
  last_delivery_was_clean : bool;
  last_move_time : Q;
  weather_system : Weather;
  history : MemoryEfficientHistory.t;
  first_late_penalty_applied : bool;  (* [hasattr(self, '_first_late_penalty_applied')] *)
  last_history_save : Q  (* [getattr(self, '_last_history_save', 0)] *)
}.

(** Assignments to one attribute. *)
Definition set_game_state (v : Screen) (g : t) : t :=
  let '(mk a0 a1 a2 a3 a4 a5 a6 a7 a8 a9 a10 a11 a12 a13 a14 a15 a16 a17 a18 a19 a20 a21 a22 a23 a24 a25 a26) := g in
  mk v a1 a2 a3 a4 a5 a6 a7 a8 a9 a10 a11 a12 a13 a14 a15 a16 a17 a18 a19 a20 a21 a22 a23 a24 a25 a26.
Definition set_paused (v : bool) (g : t) : t :=
  let '(mk a0 a1 a2 a3 a4 a5 a6 a7 a8 a9 a10 a11 a12 a13 a14 a15 a16 a17 a18 a19 a20 a21 a22 a23 a24 a25 a26) := g in
  mk a0 v a2 a3 a4 a5 a6 a7 a8 a9 a10 a11 a12 a13 a14 a15 a16 a17 a18 a19 a20 a21 a22 a23 a24 a25 a26.
Definition set_game_over (v : bool) (g : t) : t :=
  let '(mk a0 a1 a2 a3 a4 a5 a6 a7 a8 a9 a10 a11 a12 a13 a14 a15 a16 a17 a18 a19 a20 a21 a22 a23 a24 a25 a26) := g in
  mk a0 a1 v a3 a4 a5 a6 a7 a8 a9 a10 a11 a12 a13 a14 a15 a16 a17 a18 a19 a20 a21 a22 a23 a24 a25 a26.
Definition set_victory (v : bool) (g : t) : t :=
  let '(mk a0 a1 a2 a3 a4 a5 a6 a7 a8 a9 a10 a11 a12 a13 a14 a15 a16 a17 a18 a19 a20 a21 a22 a23 a24 a25 a26) := g in
  mk a0 a1 a2 v a4 a5 a6 a7 a8 a9 a10 a11 a12 a13 a14 a15 a16 a17 a18 a19 a20 a21 a22 a23 a24 a25 a26.
Definition set_city_width (v : Z) (g : t) : t :=
  let '(mk a0 a1 a2 a3 a4 a5 a6 a7 a8 a9 a10 a11 a12 a13 a14 a15 a16 a17 a18 a19 a20 a21 a22 a23 a24 a25 a26) := g in
  mk a0 a1 a2 a3 v a5 a6 a7 a8 a9 a10 a11 a12 a13 a14 a15 a16 a17 a18 a19 a20 a21 a22 a23 a24 a25 a26.
Definition set_city_height (v : Z) (g : t) : t :=
  let '(mk a0 a1 a2 a3 a4 a5 a6 a7 a8 a9 a10 a11 a12 a13 a14 a15 a16 a17 a18 a19 a20 a21 a22 a23 a24 a25 a26) := g in
  mk a0 a1 a2 a3 a4 v a6 a7 a8 a9 a10 a11 a12 a13 a14 a15 a16 a17 a18 a19 a20 a21 a22 a23 a24 a25 a26.
Definition set_tiles (v : list (list string)) (g : t) : t :=
  let '(mk a0 a1 a2 a3 a4 a5 a6 a7 a8 a9 a10 a11 a12 a13 a14 a15 a16 a17 a18 a19 a20 a21 a22 a23 a24 a25 a26) := g in
  mk a0 a1 a2 a3 a4 a5 v a7 a8 a9 a10 a11 a12 a13 a14 a15 a16 a17 a18 a19 a20 a21 a22 a23 a24 a25 a26.
Definition set_legend (v : gmap string TileInfo) (g : t) : t :=
  let '(mk a0 a1 a2 a3 a4 a5 a6 a7 a8 a9 a10 a11 a12 a13 a14 a15 a16 a17 a18 a19 a20 a21 a22 a23 a24 a25 a26) := g in
  mk a0 a1 a2 a3 a4 a5 a6 v a8 a9 a10 a11 a12 a13 a14 a15 a16 a17 a18 a19 a20 a21 a22 a23 a24 a25 a26.
Definition set_goal (v : Z) (g : t) : t :=
  let '(mk a0 a1 a2 a3 a4 a5 a6 a7 a8 a9 a10 a11 a12 a13 a14 a15 a16 a17 a18 a19 a20 a21 a22 a23 a24 a25 a26) := g in
  mk a0 a1 a2 a3 a4 a5 a6 a7 v a9 a10 a11 a12 a13 a14 a15 a16 a17 a18 a19 a20 a21 a22 a23 a24 a25 a26.
Definition set_city_name (v : string) (g : t) : t :=
  let '(mk a0 a1 a2 a3 a4 a5 a6 a7 a8 a9 a10 a11 a12 a13 a14 a15 a16 a17 a18 a19 a20 a21 a22 a23 a24 a25 a26) := g in
  mk a0 a1 a2 a3 a4 a5 a6 a7 a8 v a10 a11 a12 a13 a14 a15 a16 a17 a18 a19 a20 a21 a22 a23 a24 a25 a26.
Definition set_max_game_time (v : Q) (g : t) : t :=
  let '(mk a0 a1 a2 a3 a4 a5 a6 a7 a8 a9 a10 a11 a12 a13 a14 a15 a16 a17 a18 a19 a20 a21 a22 a23 a24 a25 a26) := g in
  mk a0 a1 a2 a3 a4 a5 a6 a7 a8 a9 v a11 a12 a13 a14 a15 a16 a17 a18 a19 a20 a21 a22 a23 a24 a25 a26.
Definition set_player_pos (v : Position) (g : t) : t :=
  let '(mk a0 a1 a2 a3 a4 a5 a6 a7 a8 a9 a10 a11 a12 a13 a14 a15 a16 a17 a18 a19 a20 a21 a22 a23 a24 a25 a26) := g in
  mk a0 a1 a2 a3 a4 a5 a6 a7 a8 a9 a10 v a12 a13 a14 a15 a16 a17 a18 a19 a20 a21 a22 a23 a24 a25 a26.
Definition set_stamina (v : Q) (g : t) : t :=
  let '(mk a0 a1 a2 a3 a4 a5 a6 a7 a8 a9 a10 a11 a12 a13 a14 a15 a16 a17 a18 a19 a20 a21 a22 a23 a24 a25 a26) := g in
  mk a0 a1 a2 a3 a4 a5 a6 a7 a8 a9 a10 a11 v a13 a14 a15 a16 a17 a18 a19 a20 a21 a22 a23 a24 a25 a26.
Definition set_reputation (v : Z) (g : t) : t :=
  let '(mk a0 a1 a2 a3 a4 a5 a6 a7 a8 a9 a10 a11 a12 a13 a14 a15 a16 a17 a18 a19 a20 a21 a22 a23 a24 a25 a26) := g in
  mk a0 a1 a2 a3 a4 a5 a6 a7 a8 a9 a10 a11 a12 v a14 a15 a16 a17 a18 a19 a20 a21 a22 a23 a24 a25 a26.
Definition set_money (v : Z) (g : t) : t :=
  let '(mk a0 a1 a2 a3 a4 a5 a6 a7 a8 a9 a10 a11 a12 a13 a14 a15 a16 a17 a18 a19 a20 a21 a22 a23 a24 a25 a26) := g in
  mk a0 a1 a2 a3 a4 a5 a6 a7 a8 a9 a10 a11 a12 a13 v a15 a16 a17 a18 a19 a20 a21 a22 a23 a24 a25 a26.
Definition set_game_time (v : Q) (g : t) : t :=
  let '(mk a0 a1 a2 a3 a4 a5 a6 a7 a8 a9 a10 a11 a12 a13 a14 a15 a16 a17 a18 a19 a20 a21 a22 a23 a24 a25 a26) := g in
  mk a0 a1 a2 a3 a4 a5 a6 a7 a8 a9 a10 a11 a12 a13 a14 v a16 a17 a18 a19 a20 a21 a22 a23 a24 a25 a26.
Definition set_pending_orders (v : list Order) (g : t) : t :=
  let '(mk a0 a1 a2 a3 a4 a5 a6 a7 a8 a9 a10 a11 a12 a13 a14 a15 a16 a17 a18 a19 a20 a21 a22 a23 a24 a25 a26) := g in
  mk a0 a1 a2 a3 a4 a5 a6 a7 a8 a9 a10 a11 a12 a13 a14 a15 v a17 a18 a19 a20 a21 a22 a23 a24 a25 a26.
Definition set_available_orders (v : list Order) (g : t) : t :=
  let '(mk a0 a1 a2 a3 a4 a5 a6 a7 a8 a9 a10 a11 a12 a13 a14 a15 a16 a17 a18 a19 a20 a21 a22 a23 a24 a25 a26) := g in
  mk a0 a1 a2 a3 a4 a5 a6 a7 a8 a9 a10 a11 a12 a13 a14 a15 a16 v a18 a19 a20 a21 a22 a23 a24 a25 a26.
Definition set_inventory (v : list Order) (g : t) : t :=
  let '(mk a0 a1 a2 a3 a4 a5 a6 a7 a8 a9 a10 a11 a12 a13 a14 a15 a16 a17 a18 a19 a20 a21 a22 a23 a24 a25 a26) := g in
  mk a0 a1 a2 a3 a4 a5 a6 a7 a8 a9 a10 a11 a12 a13 a14 a15 a16 a17 v a19 a20 a21 a22 a23 a24 a25 a26.
Definition set_completed_orders (v : list Order) (g : t) : t :=
  let '(mk a0 a1 a2 a3 a4 a5 a6 a7 a8 a9 a10 a11 a12 a13 a14 a15 a16 a17 a18 a19 a20 a21 a22 a23 a24 a25 a26) := g in
  mk a0 a1 a2 a3 a4 a5 a6 a7 a8 a9 a10 a11 a12 a13 a14 a15 a16 a17 a18 v a20 a21 a22 a23 a24 a25 a26.
Definition set_delivery_streak (v : Z) (g : t) : t :=
  let '(mk a0 a1 a2 a3 a4 a5 a6 a7 a8 a9 a10 a11 a12 a13 a14 a15 a16 a17 a18 a19 a20 a21 a22 a23 a24 a25 a26) := g in
  mk a0 a1 a2 a3 a4 a5 a6 a7 a8 a9 a10 a11 a12 a13 a14 a15 a16 a17 a18 a19 v a21 a22 a23 a24 a25 a26.
Definition set_last_delivery_was_clean (v : bool) (g : t) : t :=
  let '(mk a0 a1 a2 a3 a4 a5 a6 a7 a8 a9 a10 a11 a12 a13 a14 a15 a16 a17 a18 a19 a20 a21 a22 a23 a24 a25 a26) := g in
  mk a0 a1 a2 a3 a4 a5 a6 a7 a8 a9 a10 a11 a12 a13 a14 a15 a16 a17 a18 a19 a20 v a22 a23 a24 a25 a26.
Definition set_last_move_time (v : Q) (g : t) : t :=
  let '(mk a0 a1 a2 a3 a4 a5 a6 a7 a8 a9 a10 a11 a12 a13 a14 a15 a16 a17 a18 a19 a20 a21 a22 a23 a24 a25 a26) := g in
  mk a0 a1 a2 a3 a4 a5 a6 a7 a8 a9 a10 a11 a12 a13 a14 a15 a16 a17 a18 a19 a20 a21 v a23 a24 a25 a26.
Definition set_weather_system (v : Weather) (g : t) : t :=
  let '(mk a0 a1 a2 a3 a4 a5 a6 a7 a8 a9 a10 a11 a12 a13 a14 a15 a16 a17 a18 a19 a20 a21 a22 a23 a24 a25 a26) := g in
  mk a0 a1 a2 a3 a4 a5 a6 a7 a8 a9 a10 a11 a12 a13 a14 a15 a16 a17 a18 a19 a20 a21 a22 v a24 a25 a26.
Definition set_history (v : MemoryEfficientHistory.t) (g : t) : t :=
  let '(mk a0 a1 a2 a3 a4 a5 a6 a7 a8 a9 a10 a11 a12 a13 a14 a15 a16 a17 a18 a19 a20 a21 a22 a23 a24 a25 a26) := g in
  mk a0 a1 a2 a3 a4 a5 a6 a7 a8 a9 a10 a11 a12 a13 a14 a15 a16 a17 a18 a19 a20 a21 a22 a23 v a25 a26.
Definition set_first_late_penalty_applied (v : bool) (g : t) : t :=
  let '(mk a0 a1 a2 a3 a4 a5 a6 a7 a8 a9 a10 a11 a12 a13 a14 a15 a16 a17 a18 a19 a20 a21 a22 a23 a24 a25 a26) := g in
  mk a0 a1 a2 a3 a4 a5 a6 a7 a8 a9 a10 a11 a12 a13 a14 a15 a16 a17 a18 a19 a20 a21 a22 a23 a24 v a26.
Definition set_last_history_save (v : Q) (g : t) : t :=
  let '(mk a0 a1 a2 a3 a4 a5 a6 a7 a8 a9 a10 a11 a12 a13 a14 a15 a16 a17 a18 a19 a20 a21 a22 a23 a24 a25 a26) := g in
  mk a0 a1 a2 a3 a4 a5 a6 a7 a8 a9 a10 a11 a12 a13 a14 a15 a16 a17 a18 a19 a20 a21 a22 a23 a24 a25 v.

(** Attributes that [__init__] sets once and nothing reassigns. *)
Definition max_stamina : Q := 100%Q.
Definition max_weight : Z := 10.
Definition base_speed : Q := 3%Q.
Definition move_cooldown : Q := (8 # 100)%Q.

(** [range(lo, hi)] *)
Definition range (lo hi : Z) : list Z :=
  map (fun i => lo + Z.of_nat i) (seq 0 (Z.to_nat (hi - lo))).

(** [tile_info.get("blocked", False)] used as a condition. *)
Definition is_blocked (tile_info : TileInfo) : bool := default false (blocked tile_info).

(** [sum(order.weight for order in self.inventory)] *)
Definition total_weight (inventory : list Order) : Z :=
  fold_right (fun order acc => weight order + acc) 0 inventory.

(** The legend entry of the tile under the player, when the guard
    [player_pos.y < len(tiles) and player_pos.x < len(tiles[player_pos.y])]
    holds. *)
Definition current_tile_info (g : t) : option TileInfo :=
  option_map (legend_get (legend g))
             (tile_at (tiles g) (pos_x (player_pos g)) (pos_y (player_pos g))).

Definition _is_position_walkable (g : t) (x y : Z) : bool :=
  if negb ((0 <=? x) && (x <? city_width g) && (0 <=? y) && (y <? city_height g))
  then false
  else
    match tile_at (tiles g) x y with
    | Some tile_type => negb (is_blocked (legend_get (legend g) tile_type))
    | None => true
    end.

Definition _validate_order_positions (g : t) (order : Order) : bool :=
  _is_position_walkable g (pos_x (pickup order)) (pos_y (pickup order))
  && _is_position_walkable g (pos_x (dropoff order)) (pos_y (dropoff order)).

(** The cells the expanding-ring search visits, in visiting order. *)
Definition ring_cells (g : t) (x y : Z) : list (Z * Z) :=
  flat_map (fun radius =>
    flat_map (fun dx =>
      flat_map (fun dy =>
        if (Z.abs dx =? radius) || (Z.abs dy =? radius)
        then [(x + dx, y + dy)] else [])
        (range (- radius) (radius + 1)))
      (range (- radius) (radius + 1)))
    (range 1 (Z.min (city_width g) (city_height g) / 2)).

(** The cells of the row-by-row fallback scan. *)
Definition board_cells (g : t) : list (Z * Z) :=
  flat_map (fun ty => map (fun tx => (tx, ty)) (range 0 (city_width g)))
           (range 0 (city_height g)).

Definition _find_nearest_walkable_position (g : t) (x y : Z) : Position :=
  let walkable := fun c : Z * Z => _is_position_walkable g (fst c) (snd c) in
  match find walkable (ring_cells g x y) with
  | Some (nx, ny) => mkPosition nx ny
  | None =>
      match find walkable (board_cells g) with
      | Some (tx, ty) => mkPosition tx ty
      | None => mkPosition 1 1
      end
  end.

Definition _fix_order_positions (g : t) (order : Order) : Order :=
  let order :=
    if negb (_is_position_walkable g (pos_x (pickup order)) (pos_y (pickup order)))
    then set_pickup (_find_nearest_walkable_position g (pos_x (pickup order)) (pos_y (pickup order))) order
    else order in
  if negb (_is_position_walkable g (pos_x (dropoff order)) (pos_y (dropoff order)))
  then set_dropoff (_find_nearest_walkable_position g (pos_x (dropoff order)) (pos_y (dropoff order))) order
  else order.

Definition get_order_time_remaining (g : t) (order : Order) : Q :=
  match status order with
  | waiting_release => (duration_minutes order * 60)%Q
  | _ =>
      let elapsed_since_created := (game_time g - created_at order)%Q in
      let total_duration_seconds := (duration_minutes order * 60)%Q in
      Qmax 0 (total_duration_seconds - elapsed_since_created)%Q
  end.

(** *** Movement and stamina *)

Definition calculate_stamina_cost (g : t) : Q :=
  let base_cost := (5 # 10)%Q in
  let total_weight := total_weight (inventory g) in
  let base_cost :=
    if 3 <? total_weight
    then (base_cost + (2 # 10) * inject_Z (total_weight - 3))%Q
    else base_cost in
  let base_cost :=
    match current_condition (weather_system g) with
    | Rain | Wind => (base_cost + (1 # 10))%Q
    | Storm => (base_cost + (3 # 10))%Q
    | Heat => (base_cost + (2 # 10))%Q
    | _ => base_cost
    end in
  match current_tile_info g with
  | Some tile_info =>
      let surface_weight := default 1%Q (surface_weight tile_info) in
      if Qlt_bool surface_weight 1
      then (base_cost + (1 - surface_weight) * (2 # 10))%Q
      else base_cost
  | None => base_cost
  end.

Definition is_valid_move (g : t) (pos : Position) : bool :=
  if negb ((0 <=? pos_x pos) && (pos_x pos <? city_width g)
           && (0 <=? pos_y pos) && (pos_y pos <? city_height g))
  then false
  else if match tile_at (tiles g) (pos_x pos) (pos_y pos) with
          | Some tile_type => is_blocked (legend_get (legend g) tile_type)
          | None => false
          end
  then false
  else if Qle_bool (stamina g) 0 then false
  else
    let stamina_cost := calculate_stamina_cost g in
    Qle_bool stamina_cost (stamina g).

(** [M_clima] is the value of [self.weather_system.get_speed_multiplier()]. *)
Definition calculate_actual_speed (M_clima : Q) (g : t) : Q :=
  if Qle_bool (stamina g) 0 then 0%Q
  else
    let v0 := base_speed in
    let total_weight := total_weight (inventory g) in
    let M_peso := Qmax (8 # 10) (1 - (3 # 100) * inject_Z total_weight)%Q in
    let M_rep := if 90 <=? reputation g then (103 # 100)%Q else 1%Q in
    let M_resistencia := if Qle_bool (stamina g) 30 then (8 # 10)%Q else 1%Q in
    let surface_weight :=
      match current_tile_info g with
      | Some tile_info => default 1%Q (surface_weight tile_info)
      | None => 1%Q
      end in
    let final_speed := (v0 * M_clima * M_peso * M_rep * M_resistencia * surface_weight)%Q in
    Qmax 0 final_speed.

(** Floats that the engine accumulates are kept in lowest terms with
    [Qred], which leaves their value as it is. *)
Definition move_player (new_pos : Position) (g : t) : t :=
  if Qle_bool (stamina g) 0 then g
  else
    let stamina_cost := calculate_stamina_cost g in
    if Qlt_bool (stamina g) stamina_cost then g
    else
      set_stamina (Qred (Qmax 0 (stamina g - stamina_cost)%Q))
        (set_player_pos new_pos g).

(** The state of the four direction keys (arrow or letter). *)
Record Keys := mkKeys { k_left : bool; k_right : bool; k_up : bool; k_down : bool }.

Definition direction (keys : Keys) : Z * Z :=
  if k_left keys then (-1, 0)
  else if k_right keys then (1, 0)
  else if k_up keys then (0, -1)
  else if k_down keys then (0, 1)
  else (0, 0).

(** [handle_input]: the class body defines it twice, and the later
    definition is the one bound to the name; it is the one embedded here. *)
Definition handle_input (keys : Keys) (dt : Q) (M_clima : Q) (g : t) : t :=
  if paused g || game_over g then g
  else if Qle_bool (stamina g) 0 then g
  else
    let actual_speed := calculate_actual_speed M_clima g in
    let adjusted_cooldown := (move_cooldown / Qmax (1 # 10) (actual_speed / base_speed))%Q in
    let g := set_last_move_time (Qred (last_move_time g + dt)%Q) g in
    if Qlt_bool (last_move_time g) adjusted_cooldown then g
    else
      let direction := direction keys in
      if (fst direction =? 0) && (snd direction =? 0) then g
      else
        let new_pos := mkPosition (pos_x (player_pos g) + fst direction)
                                  (pos_y (player_pos g) + snd direction) in
        if is_valid_move g new_pos
        then set_last_move_time 0%Q (move_player new_pos g)
        else g.

(** *** Reputation and delivery *)

(** The reputation rules at the head of [deliver_order]: the values of
    [rep_change] and [delivery_was_clean] after the cascade of tests. *)
Definition delivery_rating (time_remaining total_duration time_used : Q) : Z * bool :=
  if Qlt_bool (total_duration * (8 # 10))%Q time_remaining then (5, true)
  else if Qlt_bool (total_duration * (3 # 10))%Q time_remaining then (3, true)
  else if Qlt_bool 0 time_remaining then
    if Qle_bool time_used 30 then (-2, false)
    else if Qle_bool time_used 120 then (-5, false)
    else (-10, false)
  else (-10, false).

(** [int(x)] of a float: truncation towards zero. *)
Definition py_int (x : Q) : Z := Z.quot (Qnum x) (Z.pos (Qden x)).

(** [deliver_order].  The order is one of the objects in [inventory]; the
    callers pass the first one that meets their test, which is also the
    first element equal to it, so the removal is by value.  For an order
    that is not in the inventory [remove] raises after reputation, streak
    and money have been assigned; the inventory is left as it is there. *)
Definition deliver_order (order : Order) (g : t) : t :=
  let time_remaining := get_order_time_remaining g order in
  let total_duration := (duration_minutes order * 60)%Q in
  let time_used := (total_duration - time_remaining)%Q in
  let '(rep_change, delivery_was_clean) :=
    delivery_rating time_remaining total_duration time_used in
  let reduced :=
    (rep_change <? 0) && (85 <=? reputation g) && negb (first_late_penalty_applied g) in
  let rep_change := if reduced then rep_change / 2 else rep_change in
  let g := if reduced then set_first_late_penalty_applied true g else g in
  let g := set_reputation (Z.max 0 (Z.min 100 (reputation g + rep_change))) g in
  let g :=
    if delivery_was_clean && last_delivery_was_clean g then
      let g := set_delivery_streak (delivery_streak g + 1) g in
      if delivery_streak g =? 3
      then set_delivery_streak 0 (set_reputation (Z.min 100 (reputation g + 2)) g)
      else g
    else if negb delivery_was_clean then set_delivery_streak 0 g
    else g in
  let g := set_last_delivery_was_clean delivery_was_clean g in
  let payout :=
    if 90 <=? reputation g
    then py_int (inject_Z (payout order) * (105 # 100))%Q
    else payout order in
  let g := set_money (money g + payout) g in
  let order' := set_status delivered order in
  let g := set_inventory (default (inventory g) (list_remove order (inventory g))) g in
  set_completed_orders (completed_orders g ++ [order']) g.

(** One of the two scanning loops of [_check_expired_orders], run over a
    copy of [orders]: the expired orders collected so far, and what is left
    in the container. *)
Definition sweep (g : t) (orders : list Order) (expired : list Order)
    : list Order * list Order :=
  fold_left
    (fun acc order =>
       if Qle_bool (get_order_time_remaining g order) 0
       then (fst acc ++ [order], default (snd acc) (list_remove order (snd acc)))
       else acc)
    orders (expired, orders).

Definition _check_expired_orders (g : t) : t :=
  let '(expired_orders, items) := sweep g (available_orders g) [] in
  let '(expired_orders, inventory) := sweep g (inventory g) expired_orders in
  let g := set_inventory inventory (set_available_orders items g) in
  fold_left
    (fun g order =>
       set_last_delivery_was_clean false
         (set_delivery_streak 0
            (set_reputation (reputation g - 6) g)))
    expired_orders g.

(** *** Releasing orders *)

Definition MAX_ACTIVE_ORDERS : Z := 10.

(** The [while] loop of [_process_order_releases]; every round pops the head
    of [pending_orders], so the recursion follows that list. *)
Fixpoint release_loop (g : t) (orders_to_release : Z)
    (pending items : list Order) (released_count current_active_orders : Z)
    : list Order * list Order * Z :=
  match pending with
  | [] => (pending, items, released_count)
  | first :: rest =>
      if (released_count <? orders_to_release)
         && Qle_bool (inject_Z (release_time first)) (game_time g)
         && (current_active_orders <? MAX_ACTIVE_ORDERS)
      then
        let order :=
          if negb (_validate_order_positions g first)
          then _fix_order_positions g first else first in
        let order := set_created_at (game_time g) (set_status available order) in
        release_loop g orders_to_release rest
          (OptimizedPriorityQueue.enqueue order items)
          (released_count + 1) (current_active_orders + 1)
      else (pending, items, released_count)
  end.

(** The batch size chosen from the number of active orders. *)
Definition orders_to_release (current_active_orders : Z) : Z :=
  if current_active_orders <? MAX_ACTIVE_ORDERS / 3 then 3
  else if current_active_orders <? MAX_ACTIVE_ORDERS / 2 then 2
  else if current_active_orders <? MAX_ACTIVE_ORDERS then 1
  else 0.

Definition _process_order_releases (g : t) : t :=
  let current_active_orders := Z.of_nat (length (available_orders g)) in
  let '(pending, items, _) :=
    release_loop g (orders_to_release current_active_orders)
      (pending_orders g) (available_orders g) 0 current_active_orders in
  set_available_orders items (set_pending_orders pending g).

(** *** History, saving and loading *)

(** The [GameState] that [update] and [save_game] build from the game,
    around the position object they put in it.  The object shares its
    [available_orders], [completed_orders], [tiles] and [legend] with the
    game; of a state that comes back from the history the engine reads the
    position, the stamina, the reputation, the money and the streak, which
    are copies. *)
Definition state_with (pos : Position) (g : t) : GameState.t :=
  GameState.mk
    pos
    (stamina g) (reputation g) (money g) (game_time g)
    (time_in_current (weather_system g))
    (current_condition (weather_system g))
    (current_intensity (weather_system g))
    (inventory g) (available_orders g) (completed_orders g)
    (goal g) (delivery_streak g) (pending_orders g)
    (city_width g) (city_height g) (tiles g) (legend g)
    (city_name g) (max_game_time g).

(** [update] copies the position, [save_game] passes the object itself. *)
Definition current_state (g : t) : GameState.t :=
  state_with (mkPosition (pos_x (player_pos g)) (pos_y (player_pos g))) g.

Definition undo_move (g : t) : t :=
  if 0 <? MemoryEfficientHistory.size (history g) then
    let '(state, history') := MemoryEfficientHistory.pop (history g) in
    let g := set_history history' g in
    match state with
    | Some state =>
        set_delivery_streak (GameState.delivery_streak state)
          (set_money (GameState.money state)
             (set_reputation (GameState.reputation state)
                (set_stamina (GameState.stamina state)
                   (set_player_pos (GameState.player_pos state) g))))
    | None => g
    end
  else g.

(** [save_game]: the game is left as it is, the disk may change. *)
Definition save_game (now : Q) (now_iso : string) (slot : Z)
    (g : t) (disk : RobustFileManager.Disk) : bool * RobustFileManager.Disk :=
  RobustFileManager.save_game_with_validation now now_iso
    (state_with (player_pos g) g) slot disk.

Definition _load_game (slot : Z) (disk : RobustFileManager.Disk) (g : t) : bool * t :=
  match RobustFileManager.load_game_with_validation slot disk with
  | None => (false, g)
  | Some state =>
      let g := set_player_pos (GameState.player_pos state) g in
      let g := set_stamina (GameState.stamina state) g in
      let g := set_reputation (GameState.reputation state) g in
      let g := set_money (GameState.money state) g in
      let g := set_game_time (GameState.game_time state) g in
      let g := set_weather_system
                 (mkWeather (GameState.current_weather state)
                            (GameState.weather_intensity state)
                            (GameState.weather_time state)) g in
      let g := set_inventory (GameState.inventory state) g in
      let g := set_available_orders (GameState.available_orders state) g in
      let g := set_completed_orders (GameState.completed_orders state) g in
      let g := set_goal (GameState.goal state) g in
      let g := set_delivery_streak (GameState.delivery_streak state) g in
      let g := set_pending_orders (GameState.pending_orders state) g in
      let g := set_city_width (GameState.city_width state) g in
      let g := set_city_height (GameState.city_height state) g in
      let g := set_tiles (GameState.tiles state) g in
      let g := set_legend (GameState.legend state) g in
      let g := set_city_name (GameState.city_name state) g in
      let g := set_max_game_time (GameState.max_game_time state) g in
      (true, g)
  end.

Definition load_game (slot : Z) (disk : RobustFileManager.Disk) (g : t) : t :=
  snd (_load_game slot disk g).

(** *** The tick *)

Definition _get_stamina_recovery_rate (g : t) : Q :=
  let base_recovery := 5%Q in
  match current_tile_info g with
  | Some tile_info =>
      if Qlt_bool 0 (default 0%Q (rest_bonus tile_info))
      then (base_recovery + 10)%Q
      else base_recovery
  | None => base_recovery
  end.

(** [update(dt)]; [weather'] is the weather system after its own
    [update(dt)]. *)
Definition update (dt : Q) (weather' : Weather) (g : t) : t :=
  match game_state g with
  | playing =>
      if paused g || game_over g then g
      else
        let g :=
          if (MemoryEfficientHistory.size (history g) =? 0)
             || Qlt_bool 8 (game_time g - last_history_save g)%Q
          then
            set_last_history_save (game_time g)
              (set_history (MemoryEfficientHistory.push (current_state g) (history g)) g)
          else g in
        let g := set_game_time (Qred (game_time g + dt)%Q) g in
        let g := set_weather_system weather' g in
        let g := _process_order_releases g in
        let g := _check_expired_orders g in
        let g :=
          if Qlt_bool (stamina g) max_stamina && Qlt_bool 1 (last_move_time g)
          then
            let recovery_rate := _get_stamina_recovery_rate g in
            let new_stamina := Qmin max_stamina (stamina g + recovery_rate * dt)%Q in
            set_stamina (Qred new_stamina) g
          else g in
        if reputation g <? 20 then set_game_over true g
        else if goal g <=? money g then set_game_over true (set_victory true g)
        else if Qle_bool (max_game_time g) (game_time g) then
          let g := set_game_over true g in
          if goal g <=? money g then set_victory true g else g
        else g
  | _ => g
  end.

(** *** Commands *)

(** [interact_at_position]: the first order of the container that can be
    picked up here, if any, else the first carried order that can be dropped
    here. *)
Definition can_pick_up_here (g : t) (order : Order) : bool :=
  (pos_x (pickup order) =? pos_x (player_pos g))
  && (pos_y (pickup order) =? pos_y (player_pos g))
  && match status order with available | accepted => true | _ => false end.

Definition can_drop_here (g : t) (order : Order) : bool :=
  (pos_x (dropoff order) =? pos_x (player_pos g))
  && (pos_y (dropoff order) =? pos_y (player_pos g))
  && match status order with picked_up => true | _ => false end.

Definition set_accepted_at (v : Q) (o : Order) : Order :=
  mkOrder (id o) (pickup o) (dropoff o) (payout o) (duration_minutes o)
          (weight o) (priority o) (release_time o) (status o) (created_at o) v.

Definition interact_at_position (g : t) : t :=
  match find (can_pick_up_here g) (available_orders g) with
  | Some order =>
      if Qle_bool (get_order_time_remaining g order) 0 then g
      else if total_weight (inventory g) + weight order <=? max_weight then
        let order' := set_accepted_at (game_time g) (set_status picked_up order) in
        set_available_orders
          (snd (OptimizedPriorityQueue.remove order (available_orders g)))
          (set_inventory (inventory g ++ [order']) g)
      else g
  | None =>
      match find (can_drop_here g) (inventory g) with
      | Some order =>
          if Qle_bool (get_order_time_remaining g order) 0 then g
          else deliver_order order g
      | None => g
      end
  end.

(** The key presses [_handle_game_events] is modelled for; [K_F5] carries
    the readings of [time.time()] and [datetime.now().isoformat()] that the
    save takes. *)
Inductive Event :=
| K_SPACE | K_e | K_F5 (now : Q) (now_iso : string) | K_F9 | Ctrl_z.

(** What one pass of the main loop reads from outside the game object. *)
Record Frame := mkFrame {
  events : list Event;
  keys : Keys;
  frame_dt : Q;
  M_clima : Q;            (* [weather_system.get_speed_multiplier()] *)
  weather_after : Weather (* the weather system after its [update(dt)] *)
}.

Definition _handle_game_events (event : Event)
    (w : t * RobustFileManager.Disk) : t * RobustFileManager.Disk :=
  let '(g, disk) := w in
  match event with
  | K_SPACE => (set_paused (negb (paused g)) g, disk)
  | K_e => (interact_at_position g, disk)
  | K_F5 now now_iso => (g, snd (save_game now now_iso 1 g disk))
  | K_F9 => (load_game 1 disk g, disk)
  | Ctrl_z => (undo_move g, disk)
  end.

Definition handle_events (events : list Event) (w : t * RobustFileManager.Disk)
    : t * RobustFileManager.Disk :=
  fold_left
    (fun w event =>
       match game_state (fst w) with
       | playing => _handle_game_events event w
       | _ => w
       end)
    events w.

(** One pass of the [while self.running] loop of [run]. *)
Definition frame (w : t * RobustFileManager.Disk) (f : Frame)
    : t * RobustFileManager.Disk :=
  let dt := Qmin (frame_dt f) (1 / 30)%Q in
  let '(g, disk) := handle_events (events f) w in
  let g :=
    match game_state g with
    | playing => handle_input (keys f) dt (M_clima f) g
    | _ => g
    end in
  (update dt (weather_after f) g, disk).

Definition run (w : t * RobustFileManager.Disk) (fs : list Frame)
    : t * RobustFileManager.Disk :=
  fold_left frame fs w.

(** *** Starting a game *)

(** [__init__] *)
Definition init : t :=
  mk menu false false false
     30 25 [] ∅ 3000 "TigerCity" 600%Q
     (mkPosition 2 2) 100%Q 70 0 0%Q
     [] [] [] []
     0 true 0%Q
     (mkWeather Clear (5 # 10)%Q 0%Q)
     MemoryEfficientHistory.init
     false 0%Q.

(** The dict that [get_city_map] hands over. *)
Record MapData := mkMapData {
  md_width : Z;
  md_height : Z;
  md_tiles : list (list string);
  md_legend : gmap string TileInfo;
  md_goal : Z;
  md_city_name : string;
  md_max_time : Q
}.

Definition _find_valid_starting_position (g : t) : Position :=
  let walkable := fun c : Z * Z => _is_position_walkable g (fst c) (snd c) in
  let common_positions :=
    [(2, 2); (3, 3); (1, 1); (4, 4); (5, 5); (2, 3); (3, 2); (1, 2); (2, 1)] in
  match find walkable common_positions with
  | Some (x, y) => mkPosition x y
  | None =>
      match find walkable
              (flat_map (fun y => map (fun x => (x, y)) (range 0 (Z.min 10 (city_width g))))
                        (range 0 (Z.min 10 (city_height g)))) with
      | Some (x, y) => mkPosition x y
      | None => mkPosition 1 1
      end
  end.

(** [sorted(..., key=lambda x: x.release_time)]: a stable sort; the list is
    built from its last element backwards, so an order goes in front of the
    orders with the same key. *)
Fixpoint insert_by_release_time (order : Order) (sorted : list Order) : list Order :=
  match sorted with
  | [] => [order]
  | first :: rest =>
      if release_time order <=? release_time first then order :: sorted
      else first :: insert_by_release_time order rest
  end.

Definition sorted_by_release_time (orders : list Order) : list Order :=
  fold_right insert_by_release_time [] orders.

(** [initialize_game_data], with the map and the orders that the API
    manager returns. *)
Definition initialize_game_data (map_data : MapData) (orders_data : list Order)
    (g : t) : t :=
  let g := set_city_width (md_width map_data) g in
  let g := set_city_height (md_height map_data) g in
  let g := set_tiles (md_tiles map_data) g in
  let g := set_legend (md_legend map_data) g in
  let g := set_goal (md_goal map_data) g in
  let g := set_city_name (md_city_name map_data) g in
  let g := set_max_game_time (md_max_time map_data) g in
  let g := set_player_pos (_find_valid_starting_position g) g in
  let validated :=
    map (fun order_data =>
           if negb (_validate_order_positions g order_data)
           then _fix_order_positions g order_data else order_data)
        orders_data in
  set_pending_orders (sorted_by_release_time (pending_orders g ++ validated)) g.

(** The menu action [load_slot_<n>] in [_handle_menu_events]. *)
Definition menu_load_slot (slot : Z) (disk : RobustFileManager.Disk) (g : t) : t :=
  let '(loaded, g) := _load_game slot disk g in
  if loaded then set_game_state playing g else g.

(** The menu action [start_new_game] on a fresh game object. *)
Definition new_game (map_data : MapData) (orders_data : list Order) : t :=
  set_game_state playing (initialize_game_data map_data orders_data init).


(** *** The sorting commands *)

Definition _sort_inventory_by_priority (g : t) : t :=
  match inventory g with
  | [] => g
  | _ => set_inventory (SortingAlgorithms.quicksort_by_priority (inventory g)) g
  end.

Definition _sort_inventory_by_deadline (g : t) : t :=
  match inventory g with
  | [] => g
  | _ =>
      set_inventory
        (SortingAlgorithms.mergesort_by_deadline (inventory g) (game_time g)) g
  end.

(** The sorted list takes the place of the [items] of the container. *)
Definition _sort_orders_by_distance (g : t) : t :=
  match available_orders g with
  | [] => g
  | _ =>
      set_available_orders
        (SortingAlgorithms.insertion_sort_by_distance (available_orders g) (player_pos g)) g
  end.

(** *** The order panels *)

(** The position that the subscript [l[i]] reads: from the end for a
    negative [i]; [None] stands for the [IndexError]. *)
Definition py_index {A} (l : list A) (i : Z) : option nat :=
  if (0 <=? i) && (i <? Z.of_nat (length l)) then Some (Z.to_nat i)
  else if (i <? 0) && (- Z.of_nat (length l) <=? i)
       then Some (Z.to_nat (Z.of_nat (length l) + i))
       else None.

(** [accept_selected_order]; [selected_order_index] is the attribute of that
    name, which the method leaves as it is: its last assignment is guarded by
    a test that the first line has excluded.  The order is changed in place,
    inside the container.  [None] stands for the [IndexError] of an index
    below [-len(items)]. *)
Definition accept_selected_order (selected_order_index : Z) (g : t) : option t :=
  let items := available_orders g in
  match items with
  | [] => Some g
  | _ =>
      if Z.of_nat (length items) <=? selected_order_index then Some g
      else
        match py_index items selected_order_index with
        | None => None
        | Some n =>
            match items !! n with
            | None => None
            | Some order =>
                let time_remaining := get_order_time_remaining g order in
                if Qle_bool time_remaining 0 then Some g
                else
                  let total_weight := total_weight (inventory g) in
                  if total_weight + weight order <=? max_weight then
                    let order := set_accepted_at (game_time g) (set_status accepted order) in
                    Some (set_available_orders (<[n := order]> items) g)
                  else Some g
            end
        end
  end.

(** [deliver_selected_order]: the game and the attribute
    [selected_inventory_index] afterwards. *)
Definition deliver_selected_order (selected_inventory_index : Z) (g : t)
    : option (t * Z) :=
  match inventory g with
  | [] => Some (g, selected_inventory_index)
  | _ =>
      if Z.of_nat (length (inventory g)) <=? selected_inventory_index
      then Some (g, selected_inventory_index)
      else
        match py_index (inventory g) selected_inventory_index with
        | None => None
        | Some n =>
            match inventory g !! n with
            | None => None
            | Some order =>
                if (pos_x (dropoff order) =? pos_x (player_pos g))
                   && (pos_y (dropoff order) =? pos_y (player_pos g))
                then
                  let g := deliver_order order g in
                  let len := Z.of_nat (length (inventory g)) in
                  Some (g, if len <=? selected_inventory_index
                           then Z.max 0 (len - 1)
                           else selected_inventory_index)
                else Some (g, selected_inventory_index)
            end
        end
  end.

(** *** The final score *)

(** [_calculate_final_score]; [None] stands for the [ZeroDivisionError] of
    the time bonus when 80% of [max_game_time] is 0. *)
Definition _calculate_final_score (g : t) : option Z :=
  let pay_mult := if 90 <=? reputation g then (105 # 100)%Q else 1%Q in
  let score_base := (inject_Z (money g) * pay_mult)%Q in
  let bonus_tiempo :=
    if victory g && Qlt_bool (game_time g) (max_game_time g * (8 # 10))%Q then
      if Qeq_bool (max_game_time g * (8 # 10))%Q 0 then None
      else
        let time_bonus_factor :=
          ((max_game_time g * (8 # 10) - game_time g) / (max_game_time g * (8 # 10)))%Q in
        Some (py_int (500 * time_bonus_factor)%Q)
    else Some 0 in
  match bonus_tiempo with
  | None => None
  | Some bonus_tiempo =>
      let delivery_bonus := Z.of_nat (length (completed_orders g)) * 10 in
      let reputation_bonus := Z.max 0 ((reputation g - 70) * 5) in
      let final_score :=
        py_int (score_base + inject_Z bonus_tiempo + inject_Z delivery_bonus
                + inject_Z reputation_bonus)%Q in
      Some (Z.max 0 final_score)
  end.

(** [round(x, 1)]: to the nearest tenth, a tie to the even one. *)
Definition py_round1 (x : Q) : Q :=
  let scaled := (x * 10)%Q in
  let below := Qfloor scaled in
  let rest := (scaled - inject_Z below)%Q in
  let nearest :=
    if Qlt_bool rest (1 # 2) then below
    else if Qlt_bool (1 # 2) rest then below + 1
    else if Z.even below then below else below + 1 in
  (inject_Z nearest / 10)%Q.

(** [save_score]: the file [data/puntajes.json] afterwards.  The argument
    [score] of the method is not read; [now_iso] is the reading of
    [datetime.now().isoformat()].  When the score cannot be computed the
    handler returns with the file as [load_scores] left it.  Otherwise the
    table is written over what the file held, whatever [load_scores] made
    of it; the write is taken to succeed. *)
Definition save_score (now_iso : string) (g : t)
    (file : RobustFileManager.ScoresFile) : RobustFileManager.ScoresFile :=
  let '(scores, file) := RobustFileManager.load_scores file in
  match _calculate_final_score g with
  | None => file
  | Some final_score =>
      let new_score :=
        RobustFileManager.mkScoreEntry
          (Some final_score)
          (money g)
          (reputation g)
          (Z.of_nat (length (completed_orders g)))
          (py_round1 (game_time g))
          now_iso
          (victory g)
          (delivery_streak g)
          (city_name g)
          (RobustFileManager.string_of_Z (city_width g) ++ "x"
           ++ RobustFileManager.string_of_Z (city_height g))%string
          "TigerCity_Real" in
      let scores := RobustFileManager.sort_by_score (scores ++ [new_score]) in
      RobustFileManager.ScoreList (firstn 10 scores)
  end.
End CourierQuest.

(** ** The words of the specification

    These definitions follow the specification rather than the source;
    the theorems below compare them with the engine. *)

Module MoveSpec.
Import CourierQuest.

(** The fixed add-on of each weather condition. *)
Definition weather_flat_penalty (c : Condition) : Q :=
  match c with
  | Rain | Wind => 1 # 10
  | Storm => 3 # 10
  | Heat => 2 # 10
  | _ => 0
  end.

(** The surface weight of the tile under the player, 1.0 when the legend
    gives none. *)
Definition tile_surface_weight (g : t) : Q :=
  match current_tile_info g with
  | Some tile_info => default 1%Q (surface_weight tile_info)
  | None => 1
  end.

Definition surface_penalty (g : t) : Q :=
  if Qlt_bool (tile_surface_weight g) 1
  then ((1 - tile_surface_weight g) * (2 # 10))%Q
  else 0.

(** 0.5 + 0.2 * max(0, totalCarriedWeight - 3) + weatherFlatPenalty
    + surfacePenalty *)
Definition move_cost (g : t) : Q :=
  ((5 # 10) + (2 # 10) * inject_Z (Z.max 0 (total_weight (inventory g) - 3))
   + weather_flat_penalty (current_condition (weather_system g))
   + surface_penalty g)%Q.

Definition in_bounds (g : t) (pos : Position) : Prop :=
  0 <= pos_x pos < city_width g /\ 0 <= pos_y pos < city_height g.

Definition target_blocked (g : t) (pos : Position) : bool :=
  match tile_at (tiles g) (pos_x pos) (pos_y pos) with
  | Some tile_type => is_blocked (legend_get (legend g) tile_type)
  | None => false
  end.

(** The player stands on a cell with non-negative coordinates. *)
Definition on_grid (g : t) : Prop :=
  0 <= pos_x (player_pos g) /\ 0 <= pos_y (player_pos g).

End MoveSpec.

Module DeliverySpec.
Import CourierQuest.

(** The rating [deliver_order] gives to [order] in game [g]. *)
Definition rating (g : t) (order : Order) : Z * bool :=
  let time_remaining := get_order_time_remaining g order in
  let total_duration := (duration_minutes order * 60)%Q in
  delivery_rating time_remaining total_duration (total_duration - time_remaining)%Q.

(** Whether the one-time reduction of a late penalty applies. *)
Definition reduced (g : t) (order : Order) : bool :=
  (fst (rating g order) <? 0) && (85 <=? reputation g)
  && negb (first_late_penalty_applied g).

(** The change added to the reputation before the streak bonus. *)
Definition applied_change (g : t) (order : Order) : Z :=
  if reduced g order then fst (rating g order) / 2 else fst (rating g order).

(** Whether this delivery completes a streak of three. *)
Definition completes_streak (g : t) (order : Order) : bool :=
  snd (rating g order) && last_delivery_was_clean g && (delivery_streak g + 1 =? 3).

Definition clamp (r : Z) : Z := Z.max 0 (Z.min 100 r).

(** Two games with the same reputation, streak counter and clean flag:
    what may lie between two deliveries. *)
Definition same_score (g g' : t) : Prop :=
  reputation g' = reputation g /\
  delivery_streak g' = delivery_streak g /\
  last_delivery_was_clean g' = last_delivery_was_clean g.

(** The orders that the expiry sweep finds timed out. *)
Definition timed_out (g : t) (order : Order) : bool :=
  Qle_bool (get_order_time_remaining g order) 0.

Definition expired_orders (g : t) : list Order :=
  List.filter (timed_out g) (available_orders g)
  ++ List.filter (timed_out g) (inventory g).

End DeliverySpec.

Module ReleaseSpec.
Import CourierQuest.

(** An order is due when its release time has come. *)
Definition due (g : t) (order : Order) : bool :=
  Qle_bool (inject_Z (release_time order)) (game_time g).

(** How many orders at the head of the backlog are due. *)
Fixpoint due_prefix_length (g : t) (pending : list Order) : nat :=
  match pending with
  | [] => 0
  | first :: rest => if due g first then S (due_prefix_length g rest) else 0
  end.

(** The order as it enters the active container. *)
Definition released (g : t) (order : Order) : Order :=
  set_created_at (game_time g)
    (set_status available
       (if negb (_validate_order_positions g order)
        then _fix_order_positions g order else order)).

Definition by_release_time (a b : Order) : Prop := release_time a <= release_time b.

(** The batch size in the words of the specification: up to 3 when the
    active count is below [max/3], up to 2 when it is below [max/2], up to 1
    otherwise; the quotients are those of the rationals. *)
Definition batch_as_specified (max active : Z) : Z :=
  if Qlt_bool (inject_Z active) (inject_Z max / 3) then 3
  else if Qlt_bool (inject_Z active) (inject_Z max / 2) then 2
  else 1.

(** The number of orders that a tick releases by the specification: the
    due orders, as many as the batch size and the room under the cap
    allow. *)
Definition released_as_specified (g : t) : Z :=
  let active := Z.of_nat (length (available_orders g)) in
  Z.min (batch_as_specified MAX_ACTIVE_ORDERS active)
    (Z.min (Z.of_nat (length (List.filter (due g) (pending_orders g))))
           (Z.max 0 (MAX_ACTIVE_ORDERS - active))).

End ReleaseSpec.

Module HistorySpec.
Import MemoryEfficientHistory.

(** The calls a client can make on a history. *)
Inductive op := Push (state : GameState.t) | Pop.

Definition apply_op (h : t) (c : op) : t :=
  match c with
  | Push state => push state h
  | Pop => snd (pop h)
  end.

Definition run (cs : list op) : t := fold_left apply_op cs init.

End HistorySpec.

(** ** Concrete games

    The games that the closed statements below run.  A game is started on
    the map of [_get_fallback_map] with a list of orders, and then driven
    frame by frame. *)

Module Scenario.
Import CourierQuest.

Definition fallback_legend : gmap string TileInfo :=
  <["C" := mkTileInfo (Some 1%Q) None None]>
  (<["B" := mkTileInfo None (Some true) None]>
  (<["P" := mkTileInfo (Some (95 # 100)%Q) None (Some 15%Q)]> ∅)).

Definition fallback_map : MapData :=
  mkMapData 30 25 (repeat (repeat "C"%string 30) 25) fallback_legend
            3000 "TigerCity" 600%Q.

Definition idle : Keys := mkKeys false false false false.
Definition press_right : Keys := mkKeys false true false false.
Definition press_left : Keys := mkKeys true false false false.

(** A frame of 1/32 s under the weather the game starts with: clear at
    intensity 0.5, which gives the speed multiplier 1.00 * (1 - 0.5 * 0.2).
    [n] counts the frames the weather system has seen; its first burst ends
    after 30 s (frame 960), where [time_in_current] starts again. *)
Definition tick (n : nat) (evs : list Event) (k : Keys) : Frame :=
  mkFrame evs k (1 # 32)%Q (9 # 10)%Q
    (mkWeather Clear (5 # 10)%Q
       (if (n <? 960)%nat then inject_Z (Z.of_nat n) / 32
        else inject_Z (Z.of_nat n - 960) / 32)%Q).

Fixpoint frames (n : nat) (inputs : list (list Event * Keys)) : list Frame :=
  match inputs with
  | [] => []
  | (evs, k) :: rest => tick n evs k :: frames (S n) rest
  end.

Definition wait (n : nat) : list (list Event * Keys) := repeat ([], idle) n.

(** An order in the style of the generated ones. *)
Definition order_of (name : string) (pick drop : Position) (minutes : Q)
    (prio release : Z) : Order :=
  mkOrder name pick drop 200 minutes 1 prio release waiting_release 0%Q 0%Q.

(** *** Walking until the stamina is used up *)

(** One cell every fourth frame, to the right and back. *)
Definition step (k : Keys) : list (list Event * Keys) := wait 3 ++ [([], k)].

Fixpoint pace (n : nat) : list (list Event * Keys) :=
  match n with
  | O => []
  | S n' => step press_right ++ step press_left ++ pace n'
  end.

Definition late_order : Order :=
  order_of "LATE" (mkPosition 5 5) (mkPosition 9 9) 2%Q 0 180.

Definition start : t * RobustFileManager.Disk :=
  (new_game fallback_map [late_order], ∅).

(** 200 cells at 0.5 each. *)
Definition exhausted : t * RobustFileManager.Disk :=
  run start (frames 1 (pace 100)).

(** Four more frames with a direction key held. *)
Definition held : t * RobustFileManager.Disk :=
  run exhausted (frames 801 (repeat ([], press_right) 4)).

(** [F5] saves the exhausted state, [Ctrl+Z] restores the last snapshot, and
    the player stands still for 40 frames. *)
Definition rested : t * RobustFileManager.Disk :=
  run held (frames 805 ([([K_F5 (1700000000 # 1)%Q "2023-11-14T22:13:20"], idle);
                          ([Ctrl_z], idle)] ++ wait 40)).

(** [F9] loads the save; the weather system goes on from the saved time. *)
Definition reloaded : t * RobustFileManager.Disk :=
  run rested (frames 805 [([K_F9], idle)]).

Definition recovering : t * RobustFileManager.Disk :=
  run reloaded (frames 806 (wait 3)).

Definition moved : t * RobustFileManager.Disk :=
  run recovering (frames 809 [([], press_right)]).

(** *** Orders that nobody picks up *)

Definition unclaimed (name : string) (minutes : Q) (release : Z) : Order :=
  order_of name (mkPosition 5 5) (mkPosition 9 9) minutes 2 release.

Definition unclaimed_orders : list Order :=
  [ unclaimed "A1" (1 # 4) 0; unclaimed "A2" (1 # 4) 0; unclaimed "A3" (1 # 4) 0;
    unclaimed "B1" (1 # 4) 16; unclaimed "B2" (1 # 4) 16; unclaimed "B3" (1 # 4) 16;
    unclaimed "C1" (1 # 4) 32; unclaimed "C2" (1 # 4) 32;
    unclaimed "E1" (1 # 2) 33;
    unclaimed "D1" (1 # 4) 48; unclaimed "D2" (1 # 4) 48; unclaimed "D3" (1 # 4) 48 ].

(** 2015 frames (62.97 s) without any input. *)
Definition before_last_expiry : t * RobustFileManager.Disk :=
  run (new_game fallback_map unclaimed_orders, ∅) (frames 1 (wait 2015)).

Definition after_last_expiry : t * RobustFileManager.Disk :=
  run before_last_expiry (frames 2016 (wait 1)).

(** *** Three parcels delivered after an expiry *)

Definition parcel (name : string) : Order :=
  order_of name (mkPosition 2 2) (mkPosition 3 2) 10%Q 0 0.

Definition parcel_orders : list Order :=
  [ unclaimed "X" (1 # 4) 0; parcel "P1"; parcel "P2"; parcel "P3" ].

(** The three parcels are picked up on the start cell, carried one cell to
    the right, and kept until "X" has expired. *)
Definition carrying : t * RobustFileManager.Disk :=
  run (new_game fallback_map parcel_orders, ∅)
      (frames 1 (wait 2 ++ [([K_e], idle); ([K_e], idle); ([K_e], idle)]
                 ++ [([], press_right)] ++ wait 480)).

Definition delivered_1 : t * RobustFileManager.Disk :=
  run carrying (frames 487 [([K_e], idle)]).
Definition delivered_2 : t * RobustFileManager.Disk :=
  run delivered_1 (frames 488 [([K_e], idle)]).
Definition delivered_3 : t * RobustFileManager.Disk :=
  run delivered_2 (frames 489 [([K_e], idle)]).

(** *** A session that starts from a save *)

(** The game above is saved after the third delivery ... *)
Definition saved_disk : RobustFileManager.Disk :=
  snd (run delivered_3
           (frames 490 [([K_F5 (1700000000 # 1)%Q "2023-11-14T22:13:20"], idle)])).

(** ... and loaded from the menu of a new process; the player then walks
    one cell, and a diff is recorded. *)
Definition resumed : t * RobustFileManager.Disk :=
  run (menu_load_slot 1 saved_disk init, saved_disk)
      (frames 490 (wait 3 ++ [([], press_right)])).

(** *** Games set up for a single call *)

(** An order of 100 s, picked up at time 0 and carried to its drop-off cell,
    where the game is ten seconds later. *)
Definition prompt (name : string) : Order :=
  mkOrder name (mkPosition 2 2) (mkPosition 3 2) 200 (5 # 3)%Q 1 0 0 picked_up 0%Q 0%Q.

Definition scoring : t :=
  set_game_time 10%Q
    (set_inventory [prompt "S1"; prompt "S2"; prompt "S3"]
       (set_player_pos (mkPosition 3 2) (new_game fallback_map []))).

(** A new game with twelve orders that are due at once. *)
Definition backlog : t :=
  new_game fallback_map
    (map (fun name => unclaimed name (1 # 4) 0)
         ["J01"; "J02"; "J03"; "J04"; "J05"; "J06";
          "J07"; "J08"; "J09"; "J10"; "J11"; "J12"]%string).

(** That game after its first tick: three orders are active and nine are
    due in the backlog. *)
Definition three_active : t := _process_order_releases backlog.

(** A game twenty seconds old in which three orders were released at the
    start: "A1" lasts 15 s and has timed out, the two parcels have not. *)
Definition one_expired : t :=
  set_game_time 20%Q
    (_process_order_releases
       (new_game fallback_map [unclaimed "A1" (1 # 4) 0; parcel "P1"; parcel "P2"])).

End Scenario.

(** ** Orderings, and the parts of a tick

    Names for what the statements on the sorting toolkit, on the start of a
    game and on [update] speak about. *)

Module SortSpec.
Import SortingAlgorithms.

(** Earlier deadline first. *)
Definition by_deadline (game_time : Q) (a b : Order) : Prop :=
  (get_time_remaining game_time a <= get_time_remaining game_time b)%Q.

(** The orders whose time remaining is [k]. *)
Definition with_deadline (game_time k : Q) (orders : list Order) : list Order :=
  List.filter (fun x => Qeq_bool (get_time_remaining game_time x) k) orders.

(** Nearer pickup first. *)
Definition by_distance (player_pos : Position) (a b : Order) : Prop :=
  manhattan_distance player_pos a <= manhattan_distance player_pos b.

(** The orders whose pickup is [k] cells away. *)
Definition at_distance (player_pos : Position) (k : Z) (orders : list Order) : list Order :=
  List.filter (fun x => manhattan_distance player_pos x =? k) orders.

End SortSpec.

Module StartSpec.
Import CourierQuest.

(** An order as [initialize_game_data] puts it into the backlog. *)
Definition validated (g : t) (order : Order) : Order :=
  if negb (_validate_order_positions g order)
  then _fix_order_positions g order else order.

(** The cells of the top-left block of at most 10 x 10 cells. *)
Definition in_corner (g : t) (x y : Z) : Prop :=
  0 <= x < Z.min 10 (city_width g) /\ 0 <= y < Z.min 10 (city_height g).

End StartSpec.

Module TickSpec.
Import CourierQuest.

(** The game is on: [update] runs past its first two tests. *)
Definition running (g : t) : Prop :=
  game_state g = playing /\ paused g = false /\ game_over g = false.

(** The four blocks of [update], in the order of the source: the snapshot
    for the undo history, the clock with the weather, the releases and the
    expiry sweep, the recovery of stamina, and the end-of-game tests. *)
Definition remember (g : t) : t :=
  if (MemoryEfficientHistory.size (history g) =? 0)
     || Qlt_bool 8 (game_time g - last_history_save g)%Q
  then
    set_last_history_save (game_time g)
      (set_history (MemoryEfficientHistory.push (current_state g) (history g)) g)
  else g.

Definition advance (dt : Q) (weather' : Weather) (g : t) : t :=
  _check_expired_orders
    (_process_order_releases
       (set_weather_system weather'
          (set_game_time (Qred (game_time g + dt)%Q) g))).

Definition recover (dt : Q) (g : t) : t :=
  if Qlt_bool (stamina g) max_stamina && Qlt_bool 1 (last_move_time g)
  then
    let recovery_rate := _get_stamina_recovery_rate g in
    let new_stamina := Qmin max_stamina (stamina g + recovery_rate * dt)%Q in
    set_stamina (Qred new_stamina) g
  else g.

Definition judge (g : t) : t :=
  if reputation g <? 20 then set_game_over true g
  else if goal g <=? money g then set_game_over true (set_victory true g)
  else if Qle_bool (max_game_time g) (game_time g) then
    let g := set_game_over true g in
    if goal g <=? money g then set_victory true g else g
  else g.

(** The player stands on a tile that has a rest bonus. *)
Definition on_rest_tile (g : t) : bool :=
  match current_tile_info g with
  | Some tile_info => Qlt_bool 0 (default 0%Q (rest_bonus tile_info))
  | None => false
  end.

End TickSpec.

Module ScoreSpec.
Import RobustFileManager.

(** Higher score first. *)
Definition by_score (a b : ScoreEntry) : Prop := score_key b <= score_key a.

(** The entries that an entry with the score [score] does not pass. *)
Definition not_below (score : Z) (scores : list ScoreEntry) : list ScoreEntry :=
  List.filter (fun x => score <=? score_key x) scores.

End ScoreSpec.

Module WeatherSpec.
Import EnhancedWeatherSystem.

(** The range of [random.uniform(0.4, 0.9)]. *)
Definition in_range (intensity : Q) : Prop :=
  (4 # 10 <= intensity <= 9 # 10)%Q.

(** The three intensities are in that range and the memory holds five
    conditions at most. *)
Definition well_formed (w : t) : Prop :=
  in_range (current_intensity w) /\
  in_range (previous_intensity w) /\
  in_range (target_intensity w) /\
  (length (weather_memory w) <= 5)%nat.

(** What is used of the easing curve: its values lie between 0 and 1. *)
Definition bounded (ease : Q -> Q) : Prop :=
  forall progress : Q, (0 <= ease progress <= 1)%Q.

End WeatherSpec.

(** ** What holds along a game

    The statements on whole games are proved by an invariant of the game
    and the save directory.  [range_on] and [pos_on] choose the part of it
    that a statement needs; [g0] is the game at the start, whose board is
    the reference. *)

Module ReachSpec.
Import CourierQuest.

(** The board of a game and of a saved state. *)
Definition board (g : t) : Z * Z * list (list string) * gmap string TileInfo :=
  (city_width g, city_height g, tiles g, legend g).

Definition state_board (st : GameState.t)
    : Z * Z * list (list string) * gmap string TileInfo :=
  (GameState.city_width st, GameState.city_height st,
   GameState.tiles st, GameState.legend st).

Section Invariant.

Variables range_on pos_on : Prop.
Variable g0 : t.

Definition good_pos (p : Position) : Prop :=
  pos_on -> _is_position_walkable g0 (pos_x p) (pos_y p) = true.

Definition good_stamina (s : Q) : Prop := range_on -> (0 <= s <= 100)%Q.

Definition good_reputation (r : Z) : Prop := range_on -> r <= 100.

Definition good_state (st : GameState.t) : Prop :=
  state_board st = board g0 /\
  good_pos (GameState.player_pos st) /\
  good_stamina (GameState.stamina st) /\
  good_reputation (GameState.reputation st).

Definition good_diff (d : MemoryEfficientHistory.Diff) : Prop :=
  (forall xy, MemoryEfficientHistory.d_player_pos d = Some xy ->
              good_pos (mkPosition (fst xy) (snd xy))) /\
  (forall s, MemoryEfficientHistory.d_stamina d = Some s -> good_stamina s) /\
  (forall r, MemoryEfficientHistory.d_reputation d = Some r -> good_reputation r).

Definition good_history (h : MemoryEfficientHistory.t) : Prop :=
  (forall base, MemoryEfficientHistory.base_state h = Some base -> good_state base) /\
  Forall good_diff (MemoryEfficientHistory.diffs h).

Definition good_disk (disk : RobustFileManager.Disk) : Prop :=
  forall slot st,
    RobustFileManager.load_game_with_validation slot disk = Some st -> good_state st.

Definition good (w : t * RobustFileManager.Disk) : Prop :=
  board (fst w) = board g0 /\
  good_pos (player_pos (fst w)) /\
  good_stamina (stamina (fst w)) /\
  good_reputation (reputation (fst w)) /\
  good_history (history (fst w)) /\
  good_disk (snd w).

End Invariant.

End ReachSpec.


(** * Theorems *)

(** ** Comparisons of rationals *)

Lemma Qlt_bool_iff (a b : Q) : Qlt_bool a b = true <-> (a < b)%Q.
Proof.
  unfold Qlt_bool. rewrite negb_true_iff.
  split.
  - intros H. apply Qnot_le_lt. intros Hle. apply Qle_bool_iff in Hle. congruence.
  - intros H. destruct (Qle_bool b a) eqn:E; auto.
    apply Qle_bool_iff in E. apply Qlt_not_le in H. contradiction.
Qed.

Lemma Qlt_bool_false_iff (a b : Q) : Qlt_bool a b = false <-> (b <= a)%Q.
Proof.
  unfold Qlt_bool. rewrite negb_false_iff. apply Qle_bool_iff.
Qed.

Lemma Qle_bool_false_iff (a b : Q) : Qle_bool a b = false <-> (b < a)%Q.
Proof.
  split.
  - intros H. apply Qnot_le_lt. intros Hle. apply Qle_bool_iff in Hle. congruence.
  - intros H. destruct (Qle_bool a b) eqn:E; auto.
    apply Qle_bool_iff in E. apply Qlt_not_le in H. contradiction.
Qed.

Ltac qprop :=
  repeat match goal with
  | H : Qle_bool _ _ = true |- _ => apply Qle_bool_iff in H
  | H : Qle_bool _ _ = false |- _ => apply Qle_bool_false_iff in H
  | H : Qlt_bool _ _ = true |- _ => apply Qlt_bool_iff in H
  | H : Qlt_bool _ _ = false |- _ => apply Qlt_bool_false_iff in H
  end.

(** ** Reading a field after an assignment *)

Section Assignments.
Import CourierQuest.

Lemma stamina_set_stamina v g : stamina (set_stamina v g) = v.
Proof. destruct g; reflexivity. Qed.

Lemma player_pos_set_stamina v g : player_pos (set_stamina v g) = player_pos g.
Proof. destruct g; reflexivity. Qed.

Lemma player_pos_set_player_pos v g : player_pos (set_player_pos v g) = v.
Proof. destruct g; reflexivity. Qed.

Lemma pending_orders_set_available v g :
  pending_orders (set_available_orders v g) = pending_orders g.
Proof. destruct g; reflexivity. Qed.

Lemma pending_orders_set_pending v g :
  pending_orders (set_pending_orders v g) = v.
Proof. destruct g; reflexivity. Qed.

Lemma available_orders_set_available v g :
  available_orders (set_available_orders v g) = v.
Proof. destruct g; reflexivity. Qed.

Lemma reputation_set_inventory v g : reputation (set_inventory v g) = reputation g.
Proof. destruct g; reflexivity. Qed.

Lemma reputation_set_available v g : reputation (set_available_orders v g) = reputation g.
Proof. destruct g; reflexivity. Qed.

End Assignments.

(** ** The active-order container *)

Section PriorityQueueFacts.
Import OptimizedPriorityQueue.

Lemma StronglySorted_app_iff {A} (R : A -> A -> Prop) (l1 l2 : list A) :
  StronglySorted R (l1 ++ l2) <->
  StronglySorted R l1 /\ StronglySorted R l2 /\
  (forall a b, In a l1 -> In b l2 -> R a b).
Proof.
  induction l1 as [|x l1 IH]; simpl.
  - split.
    + intros H. repeat split; auto using SSorted_nil. intros a b [].
    + tauto.
  - split.
    + intros H. apply StronglySorted_inv in H as [Hs Hf].
      apply IH in Hs as (H1 & H2 & H3).
      rewrite List.Forall_app in Hf. destruct Hf as [Hf1 Hf2].
      repeat split; auto using SSorted_cons.
      intros a b [<- | Ha] Hb.
      * rewrite List.Forall_forall in Hf2. auto.
      * auto.
    + intros (H1 & H2 & H3).
      apply StronglySorted_inv in H1 as [Hs Hf].
      apply SSorted_cons.
      * apply IH. repeat split; auto.
      * rewrite List.Forall_app. split; auto.
        rewrite List.Forall_forall. intros b Hb. apply H3; auto.
Qed.

Lemma sorted_desc_nth (items : list Order) (d : Order) (i j : nat) :
  sorted_desc items -> (i <= j)%nat -> (j < length items)%nat ->
  priority (nth j items d) <= priority (nth i items d).
Proof.
  intros Hs. revert i j.
  induction Hs as [|x l Hs IH Hf]; simpl; intros i j Hij Hj.
  - lia.
  - destruct i as [|i], j as [|j]; try lia.
    + rewrite List.Forall_forall in Hf. apply Hf. apply nth_In. lia.
    + apply IH; lia.
Qed.

(** What the loop of [enqueue] keeps true, and what it ends with. *)
Lemma bisect_spec (items : list Order) (item : Order) :
  sorted_desc items ->
  forall (fuel left right : nat),
    (right - left <= fuel)%nat -> (left <= right)%nat -> (right <= length items)%nat ->
    (forall i, (i < left)%nat -> priority item <= priority (nth i items item)) ->
    (forall i, (right <= i)%nat -> (i < length items)%nat ->
               priority (nth i items item) < priority item) ->
    let k := bisect fuel items item left right in
    (k <= length items)%nat /\
    (forall i, (i < k)%nat -> priority item <= priority (nth i items item)) /\
    (forall i, (k <= i)%nat -> (i < length items)%nat ->
               priority (nth i items item) < priority item).
Proof.
  intros Hs fuel.
  induction fuel as [|fuel IH]; intros left right Hfuel Hlr Hr Hlo Hhi;
    cbn [bisect].
  - assert (left = right) by lia. subst. repeat split; auto.
  - destruct (Nat.ltb_spec left right) as [Hlt | Hge].
    + set (mid := ((left + right) / 2)%nat).
      assert (Hmid : (left <= mid < right)%nat).
      { unfold mid. split.
        - apply Nat.div_le_lower_bound; lia.
        - apply Nat.Div0.div_lt_upper_bound; lia. }
      destruct (Z.ltb_spec (priority (nth mid items item)) (priority item)) as [Hp | Hp].
      * apply IH; try lia; auto.
        intros i Hi Hlen.
        pose proof (sorted_desc_nth items item mid i Hs Hi Hlen). lia.
      * apply IH; try lia; auto.
        intros i Hi.
        assert (Hm : (mid < length items)%nat) by lia.
        assert (Him : (i <= mid)%nat) by lia.
        pose proof (sorted_desc_nth items item i mid Hs Him Hm). lia.
    + assert (left = right) by lia. subst. repeat split; auto.
Qed.

Lemma In_firstn_nth {A} (l : list A) (d a : A) (k : nat) :
  In a (firstn k l) -> exists i, (i < k)%nat /\ (i < length l)%nat /\ a = nth i l d.
Proof.
  revert k. induction l as [|x l IH]; intros [|k]; simpl; try tauto.
  intros [<- | Ha].
  - exists 0%nat. repeat split; lia.
  - destruct (IH k Ha) as (i & Hi & Hl & ->). exists (S i). repeat split; lia.
Qed.

Lemma In_skipn_nth {A} (l : list A) (d a : A) (k : nat) :
  In a (skipn k l) -> exists i, (k <= i)%nat /\ (i < length l)%nat /\ a = nth i l d.
Proof.
  revert k. induction l as [|x l IH]; intros [|k]; simpl; try tauto.
  - intros [<- | Ha].
    + exists 0%nat. repeat split; lia.
    + destruct (In_nth l a d Ha) as (i & Hi & <-). exists (S i). repeat split; lia.
  - intros Ha. destruct (IH k Ha) as (i & Hi & Hl & ->). exists (S i). repeat split; lia.
Qed.

Lemma enqueue_sorted (item : Order) (items : list Order) :
  sorted_desc items -> sorted_desc (enqueue item items).
Proof.
  intros Hs. unfold enqueue.
  destruct items as [|x0 l0] eqn:E.
  - repeat constructor.
  - rewrite <- E in *. clear E x0 l0.
    destruct (bisect_spec items item Hs (length items) 0 (length items))
      as (Hk & Hlo & Hhi); try lia.
    set (k := bisect (length items) items item 0 (length items)) in *.
    unfold list_insert, sorted_desc.
    pose proof Hs as Hs'. unfold sorted_desc in Hs'.
    rewrite <- (firstn_skipn k items) in Hs'.
    apply StronglySorted_app_iff in Hs' as (H1 & H2 & H3).
    apply StronglySorted_app_iff. repeat split; auto.
    + apply SSorted_cons; auto.
      rewrite List.Forall_forall. intros b Hb.
      destruct (In_skipn_nth items item b k Hb) as (i & Hi & Hl & ->).
      unfold by_priority. specialize (Hhi i Hi Hl). lia.
    + intros a b Ha [<- | Hb]; auto.
      destruct (In_firstn_nth items item a k Ha) as (i & Hi & Hl & ->).
      unfold by_priority. auto.
Qed.

Lemma list_remove_sorted (x : Order) (items items' : list Order) :
  list_remove x items = Some items' -> sorted_desc items -> sorted_desc items'.
Proof.
  revert items'. induction items as [|y l IH]; simpl; intros items' H Hs.
  - discriminate.
  - apply StronglySorted_inv in Hs as [Hs Hf].
    destruct (Order_eqb y x).
    + injection H as <-. exact Hs.
    + destruct (list_remove x l) as [l'|] eqn:E; simpl in H; [|discriminate].
      injection H as <-.
      apply SSorted_cons; [apply IH; auto|].
      clear IH Hs. revert l' E.
      induction l as [|z l IHl]; simpl; intros l' E; [discriminate|].
      apply List.Forall_cons_iff in Hf as [Hz Hf].
      destruct (Order_eqb z x).
      * injection E as <-. exact Hf.
      * destruct (list_remove x l) as [l''|]; simpl in E; [|discriminate].
        injection E as <-. constructor; auto.
Qed.

Lemma apply_op_sorted (items : list Order) (c : op) :
  sorted_desc items -> sorted_desc (apply_op items c).
Proof.
  intros Hs. destruct c as [o | | o]; simpl.
  - apply enqueue_sorted; auto.
  - destruct items; simpl; auto. apply StronglySorted_inv in Hs. tauto.
  - unfold remove. destruct (list_remove o items) eqn:E; simpl; auto.
    eapply list_remove_sorted; eauto.
Qed.

Lemma fold_apply_op_sorted (cs : list op) (items : list Order) :
  sorted_desc items -> sorted_desc (fold_left apply_op cs items).
Proof.
  revert items. induction cs as [|c cs IH]; simpl; intros items Hs; auto.
  apply IH, apply_op_sorted, Hs.
Qed.

(** The fuel of [bisect] never decides the result: any amount that covers
    the interval gives the same index, so the loop always leaves through
    its own test. *)
Lemma bisect_fuel (items : list Order) (item : Order) (fuel fuel' left right : nat) :
  (right - left <= fuel)%nat -> (right - left <= fuel')%nat ->
  bisect fuel items item left right = bisect fuel' items item left right.
Proof.
  revert fuel' left right.
  induction fuel as [|fuel IH]; intros [|fuel'] left right H H'; cbn [bisect];
    try reflexivity.
  - destruct (Nat.ltb_spec left right); [lia|reflexivity].
  - destruct (Nat.ltb_spec left right); [lia|reflexivity].
  - destruct (Nat.ltb_spec left right) as [Hlt|]; [|reflexivity].
    assert (Hmid : (left <= (left + right) / 2 < right)%nat).
    { split.
      - apply Nat.div_le_lower_bound; lia.
      - apply Nat.Div0.div_lt_upper_bound; lia. }
    destruct (priority (nth ((left + right) / 2) items item) <? priority item);
      apply IH; lia.
Qed.

(** C7: after any sequence of enqueue, dequeue and remove calls on an empty
    container the items are in descending priority order, and dequeue hands
    out the front item, whose priority no other item exceeds (on an empty
    container it hands out nothing). *)
Theorem queue_sorted_and_dequeue_max (cs : list op) :
  sorted_desc (run cs) /\
  match dequeue (run cs) with
  | (Some x, rest) =>
      run cs = x :: rest /\ Forall (fun y => priority y <= priority x) (run cs)
  | (None, rest) => run cs = [] /\ rest = []
  end.
Proof.
  assert (Hs : sorted_desc (run cs)).
  { apply fold_apply_op_sorted. constructor. }
  split; auto.
  destruct (run cs) as [|x rest]; simpl; auto.
  split; auto.
  apply StronglySorted_inv in Hs as [_ Hf].
  constructor; [lia | exact Hf].
Qed.

Lemma enqueue_Permutation (item : Order) (items : list Order) :
  Permutation (enqueue item items) (item :: items).
Proof.
  unfold enqueue.
  destruct items as [|x l] eqn:E; [reflexivity|].
  rewrite <- E. unfold list_insert.
  set (k := bisect _ _ _ _ _).
  rewrite <- (firstn_skipn k items) at 3.
  symmetry. apply Permutation_middle.
Qed.

End PriorityQueueFacts.

(** ** Movement *)

Section MovementFacts.
Import CourierQuest.

Lemma calculate_stamina_cost_spec (g : t) :
  (calculate_stamina_cost g == MoveSpec.move_cost g)%Q.
Proof.
  unfold calculate_stamina_cost, MoveSpec.move_cost, MoveSpec.surface_penalty,
    MoveSpec.tile_surface_weight, MoveSpec.weather_flat_penalty.
  set (W := total_weight (inventory g)).
  assert (HW : ((if 3 <? W then (5 # 10) + (2 # 10) * inject_Z (W - 3) else 5 # 10)
                == (5 # 10) + (2 # 10) * inject_Z (Z.max 0 (W - 3)))%Q).
  { destruct (Z.ltb_spec 3 W).
    - rewrite Z.max_r by lia. reflexivity.
    - rewrite Z.max_l by lia. change (inject_Z 0) with 0%Q. ring. }
  destruct (current_tile_info g) as [info|];
    [destruct (Qlt_bool (default 1%Q (surface_weight info)) 1)
    |change (Qlt_bool 1 1) with false];
    destruct (current_condition (weather_system g)); cbv beta iota zeta;
    rewrite HW; ring.
Qed.

(** C3: with the player on the grid, the cost the engine computes is
    0.5 + 0.2 * max(0, carried weight - 3) + the weather add-on + the surface
    penalty of the current tile; a move is valid exactly when the target is
    in bounds and not blocked, the stamina is positive and covers that cost;
    and a valid move puts the player on the target and takes exactly the
    cost from the stamina, which stays non-negative. *)
Theorem move_validity_and_effect (g : t) (pos : Position) :
  MoveSpec.on_grid g ->
  (calculate_stamina_cost g == MoveSpec.move_cost g)%Q /\
  (is_valid_move g pos = true <->
     MoveSpec.in_bounds g pos /\ MoveSpec.target_blocked g pos = false /\
     (0 < stamina g)%Q /\ (MoveSpec.move_cost g <= stamina g)%Q) /\
  (is_valid_move g pos = true ->
     player_pos (move_player pos g) = pos /\
     (stamina (move_player pos g) == stamina g - MoveSpec.move_cost g)%Q /\
     (0 <= stamina (move_player pos g))%Q).
Proof.
  intros _.
  pose proof (calculate_stamina_cost_spec g) as Hc.
  assert (Hiff : is_valid_move g pos = true <->
     MoveSpec.in_bounds g pos /\ MoveSpec.target_blocked g pos = false /\
     (0 < stamina g)%Q /\ (MoveSpec.move_cost g <= stamina g)%Q).
  { unfold is_valid_move, MoveSpec.in_bounds. fold (MoveSpec.target_blocked g pos).
    rewrite <- Hc.
    destruct (Z.leb_spec 0 (pos_x pos)), (Z.ltb_spec (pos_x pos) (city_width g)),
      (Z.leb_spec 0 (pos_y pos)), (Z.ltb_spec (pos_y pos) (city_height g));
      cbn [andb negb]; try (split; [discriminate | intros (? & _); lia]).
    destruct (MoveSpec.target_blocked g pos);
      [split; [discriminate | intros (_ & ? & _); discriminate]|].
    destruct (Qle_bool (stamina g) 0) eqn:E0; qprop.
    - split; [discriminate | intros (_ & _ & ? & _); lra].
    - rewrite Qle_bool_iff. split; [intros ?; repeat split; auto; lia | tauto]. }
  split; [exact Hc | split; [exact Hiff|]].
  intros Hv. apply Hiff in Hv as (_ & _ & Hpos & Hle).
  unfold move_player.
  destruct (Qle_bool (stamina g) 0) eqn:E0; qprop; [lra|].
  destruct (Qlt_bool (stamina g) (calculate_stamina_cost g)) eqn:E1; qprop;
    [rewrite Hc in E1; lra|].
  rewrite stamina_set_stamina, player_pos_set_stamina, player_pos_set_player_pos.
  rewrite Qred_correct, Hc.
  rewrite Q.max_r by lra.
  split; [reflexivity | split; [reflexivity | lra]].
Qed.

End MovementFacts.

(** ** Deliveries *)

Section DeliveryFacts.
Import CourierQuest.

(** The fields of the game after [deliver_order]. *)
Lemma deliver_order_reputation (g : t) (order : Order) :
  reputation (deliver_order order g) =
  let r := DeliverySpec.clamp (reputation g + DeliverySpec.applied_change g order) in
  if DeliverySpec.completes_streak g order then Z.min 100 (r + 2) else r.
Proof.
  unfold DeliverySpec.completes_streak, DeliverySpec.applied_change,
    DeliverySpec.reduced, DeliverySpec.clamp, DeliverySpec.rating, deliver_order.
  destruct (delivery_rating _ _ _) as [rc clean]. destruct g. cbn.
  destruct ((rc <? 0) && (85 <=? reputation0) && negb first_late_penalty_applied0);
    cbn; destruct clean, last_delivery_was_clean0; cbn;
    try destruct (delivery_streak0 + 1 =? 3); reflexivity.
Qed.

Lemma deliver_order_streak (g : t) (order : Order) :
  delivery_streak (deliver_order order g) =
  if snd (DeliverySpec.rating g order) then
    if last_delivery_was_clean g
    then (if delivery_streak g + 1 =? 3 then 0 else delivery_streak g + 1)
    else delivery_streak g
  else 0.
Proof.
  unfold DeliverySpec.rating, deliver_order.
  destruct (delivery_rating _ _ _) as [rc clean]. destruct g. cbn.
  destruct ((rc <? 0) && (85 <=? reputation0) && negb first_late_penalty_applied0);
    cbn; destruct clean, last_delivery_was_clean0; cbn;
    try destruct (delivery_streak0 + 1 =? 3); reflexivity.
Qed.

Lemma deliver_order_last_clean (g : t) (order : Order) :
  last_delivery_was_clean (deliver_order order g) = snd (DeliverySpec.rating g order).
Proof.
  unfold DeliverySpec.rating, deliver_order.
  destruct (delivery_rating _ _ _) as [rc clean]. destruct g. cbn.
  destruct ((rc <? 0) && (85 <=? reputation0) && negb first_late_penalty_applied0);
    cbn; destruct clean, last_delivery_was_clean0; cbn;
    try destruct (delivery_streak0 + 1 =? 3); reflexivity.
Qed.

Lemma deliver_order_money (g : t) (order : Order) :
  money (deliver_order order g) =
  money g + (if 90 <=? reputation (deliver_order order g)
             then py_int (inject_Z (payout order) * (105 # 100))%Q
             else payout order).
Proof.
  unfold deliver_order.
  destruct (delivery_rating _ _ _) as [rc clean]. destruct g. cbn.
  destruct ((rc <? 0) && (85 <=? reputation0) && negb first_late_penalty_applied0);
    cbn; destruct clean, last_delivery_was_clean0; cbn;
    try destruct (delivery_streak0 + 1 =? 3); cbn; reflexivity.
Qed.

(** The table of [delivery_rating], row by row. *)
Lemma delivery_rating_rows (tr td : Q) :
  let r := delivery_rating tr td (td - tr)%Q in
  ((td * (8 # 10) < tr)%Q -> r = (5, true)) /\
  ((td * (3 # 10) < tr)%Q -> (tr <= td * (8 # 10))%Q -> r = (3, true)) /\
  ((tr <= td * (8 # 10))%Q -> (tr <= td * (3 # 10))%Q ->
     (0 < tr)%Q -> (td - tr <= 30)%Q -> r = (-2, false)) /\
  ((tr <= td * (8 # 10))%Q -> (tr <= td * (3 # 10))%Q ->
     (0 < tr)%Q -> (30 < td - tr)%Q -> (td - tr <= 120)%Q -> r = (-5, false)) /\
  ((tr <= td * (8 # 10))%Q -> (tr <= td * (3 # 10))%Q ->
     (tr <= 0)%Q \/ (120 < td - tr)%Q -> r = (-10, false)).
Proof.
  unfold delivery_rating.
  destruct (Qlt_bool (td * (8 # 10)) tr) eqn:E1;
  destruct (Qlt_bool (td * (3 # 10)) tr) eqn:E2;
  destruct (Qlt_bool 0 tr) eqn:E3;
  destruct (Qle_bool (td - tr) 30) eqn:E4;
  destruct (Qle_bool (td - tr) 120) eqn:E5; qprop; cbv zeta;
  repeat split; intros; try reflexivity; try lra;
  try match goal with H : _ \/ _ |- _ => destruct H; lra end.
Qed.

Lemma time_remaining_picked_up (g : t) (order : Order) (d u : Q) :
  status order <> waiting_release ->
  (duration_minutes order * 60 == d)%Q ->
  (game_time g - created_at order == u)%Q ->
  (get_order_time_remaining g order == Qmax 0 (d - u))%Q.
Proof.
  intros Hs Hd Hu. unfold get_order_time_remaining.
  destruct (status order); try congruence; rewrite Hd, Hu; reflexivity.
Qed.

(** C4: the rating of a delivery follows the table row by row, a row
    applying when no row above it does: +5 above 80 % of the duration left,
    +3 above 30 % and up to 80 %, then -2, -5 or -10 by the time used (up to
    30 s, up to 120 s, more) while time is left, and -10 with none left; the
    comparisons are strict, so a value on a threshold falls to the lower
    row.  Where no late-penalty reduction and no streak bonus applies the
    reputation moves by that amount inside [0,100]; with reputation 70, a
    duration of 100 s and 10 s used it becomes 75. *)
Theorem delivery_reputation_tiers :
  (forall tr td : Q,
     let delta := fst (delivery_rating tr td (td - tr)%Q) in
     ((td * (8 # 10) < tr)%Q -> delta = 5) /\
     ((td * (3 # 10) < tr)%Q -> (tr <= td * (8 # 10))%Q -> delta = 3) /\
     ((tr <= td * (8 # 10))%Q -> (tr <= td * (3 # 10))%Q ->
        (0 < tr)%Q -> (td - tr <= 30)%Q -> delta = -2) /\
     ((tr <= td * (8 # 10))%Q -> (tr <= td * (3 # 10))%Q ->
        (0 < tr)%Q -> (30 < td - tr)%Q -> (td - tr <= 120)%Q -> delta = -5) /\
     ((tr <= td * (8 # 10))%Q -> (tr <= td * (3 # 10))%Q ->
        (tr <= 0)%Q \/ (120 < td - tr)%Q -> delta = -10)) /\
  (forall (g : t) (order : Order),
     DeliverySpec.reduced g order = false ->
     DeliverySpec.completes_streak g order = false ->
     reputation (deliver_order order g) =
     DeliverySpec.clamp (reputation g + fst (DeliverySpec.rating g order))) /\
  (forall (g : t) (order : Order),
     reputation g = 70 ->
     status order = picked_up ->
     (duration_minutes order * 60 == 100)%Q ->
     (game_time g - created_at order == 10)%Q ->
     (last_delivery_was_clean g = true -> delivery_streak g <> 2) ->
     fst (DeliverySpec.rating g order) = 5 /\
     reputation (deliver_order order g) = 75).
Proof.
  split; [|split].
  - intros tr td delta. subst delta.
    destruct (delivery_rating_rows tr td) as (H1 & H2 & H3 & H4 & H5).
    repeat split; intros.
    + rewrite H1; auto.
    + rewrite H2; auto.
    + rewrite H3; auto.
    + rewrite H4; auto.
    + rewrite H5; auto.
  - intros g order Hred Hstreak.
    rewrite deliver_order_reputation. cbv zeta. rewrite Hstreak.
    unfold DeliverySpec.applied_change. rewrite Hred. reflexivity.
  - intros g order Hrep Hst Hd Hu Hstreak.
    assert (Htr : (get_order_time_remaining g order == 90)%Q).
    { rewrite (time_remaining_picked_up g order 100 10); auto; [|congruence].
      apply Q.max_r. lra. }
    assert (Hr : DeliverySpec.rating g order = (5, true)).
    { unfold DeliverySpec.rating.
      apply (delivery_rating_rows (get_order_time_remaining g order)
               (duration_minutes order * 60)%Q).
      rewrite Htr, Hd. lra. }
    split; [rewrite Hr; reflexivity|].
    rewrite deliver_order_reputation. cbv zeta.
    unfold DeliverySpec.completes_streak, DeliverySpec.applied_change,
      DeliverySpec.reduced, DeliverySpec.clamp.
    rewrite Hr, Hrep. cbn [fst snd].
    destruct (last_delivery_was_clean g); cbn.
    + destruct (Z.eqb_spec (delivery_streak g + 1) 3) as [E|E]; [|reflexivity].
      exfalso. apply Hstreak; auto. lia.
    + reflexivity.
Qed.

Lemma rating_clean_iff (g : t) (order : Order) :
  snd (DeliverySpec.rating g order) = true <-> 0 <= fst (DeliverySpec.rating g order).
Proof.
  unfold DeliverySpec.rating, delivery_rating.
  repeat match goal with |- context [if ?b then _ else _] => destruct b end;
    cbn; split; intros; try reflexivity; try discriminate; lia.
Qed.

Lemma rating_values (g : t) (order : Order) :
  In (DeliverySpec.rating g order)
     [(5, true); (3, true); (-2, false); (-5, false); (-10, false)].
Proof.
  unfold DeliverySpec.rating, delivery_rating.
  repeat match goal with |- context [if ?b then _ else _] => destruct b end;
    cbn; tauto.
Qed.

Lemma applied_change_clean (g : t) (order : Order) :
  snd (DeliverySpec.rating g order) = true ->
  DeliverySpec.applied_change g order = fst (DeliverySpec.rating g order).
Proof.
  intros H. apply rating_clean_iff in H.
  unfold DeliverySpec.applied_change, DeliverySpec.reduced.
  destruct (Z.ltb_spec (fst (DeliverySpec.rating g order)) 0); [lia|reflexivity].
Qed.

(** One delivery, seen from the streak counter. *)
Lemma streak_step (g : t) (order : Order) :
  let g' := deliver_order order g in
  let delta := fst (DeliverySpec.rating g order) in
  let clean := snd (DeliverySpec.rating g order) in
  (clean = true <-> 0 <= delta) /\
  last_delivery_was_clean g' = clean /\
  (clean = false -> delivery_streak g' = 0) /\
  (clean = true -> last_delivery_was_clean g = false ->
     delivery_streak g' = delivery_streak g /\
     reputation g' = DeliverySpec.clamp (reputation g + delta)) /\
  (clean = true -> last_delivery_was_clean g = true -> delivery_streak g + 1 <> 3 ->
     delivery_streak g' = delivery_streak g + 1 /\
     reputation g' = DeliverySpec.clamp (reputation g + delta)) /\
  (clean = true -> last_delivery_was_clean g = true -> delivery_streak g + 1 = 3 ->
     delivery_streak g' = 0 /\
     reputation g' = Z.min 100 (DeliverySpec.clamp (reputation g + delta) + 2)).
Proof.
  intros g' delta clean. subst g' delta clean.
  split; [apply rating_clean_iff|].
  split; [apply deliver_order_last_clean|].
  rewrite deliver_order_streak, deliver_order_reputation. cbv zeta.
  unfold DeliverySpec.completes_streak.
  split; [intros Hc; rewrite Hc; reflexivity|].
  split; [|split].
  - intros Hc Hl. rewrite (applied_change_clean _ _ Hc), Hc, Hl. cbn [andb]. auto.
  - intros Hc Hl Hs. rewrite (applied_change_clean _ _ Hc), Hc, Hl. cbn [andb].
    destruct (Z.eqb_spec (delivery_streak g + 1) 3); [lia|auto].
  - intros Hc Hl Hs. rewrite (applied_change_clean _ _ Hc), Hc, Hl. cbn [andb].
    destruct (Z.eqb_spec (delivery_streak g + 1) 3); [auto|lia].
Qed.

(** C5, amended: a delivery is clean exactly when its delta is not
    negative.  A clean delivery adds one to the streak counter when the
    delivery event before it was clean as well (no late delivery and no
    expiry since), and leaves the counter as it is otherwise; a counter that
    reaches 3 gives +2 reputation, capped at 100, and goes back to 0; a
    delivery that is not clean sets the counter to 0.  Three clean
    deliveries in a row that start with the counter at 0 and the clean flag
    set therefore give the sum of their deltas plus 2, capped at 100, and
    leave the counter at 0. *)
Theorem streak_rule :
  (forall (g : t) (order : Order),
     let g' := deliver_order order g in
     let delta := fst (DeliverySpec.rating g order) in
     let clean := snd (DeliverySpec.rating g order) in
     (clean = true <-> 0 <= delta) /\
     last_delivery_was_clean g' = clean /\
     (clean = false -> delivery_streak g' = 0) /\
     (clean = true -> last_delivery_was_clean g = false ->
        delivery_streak g' = delivery_streak g /\
        reputation g' = DeliverySpec.clamp (reputation g + delta)) /\
     (clean = true -> last_delivery_was_clean g = true -> delivery_streak g + 1 <> 3 ->
        delivery_streak g' = delivery_streak g + 1 /\
        reputation g' = DeliverySpec.clamp (reputation g + delta)) /\
     (clean = true -> last_delivery_was_clean g = true -> delivery_streak g + 1 = 3 ->
        delivery_streak g' = 0 /\
        reputation g' = Z.min 100 (DeliverySpec.clamp (reputation g + delta) + 2))) /\
  (forall (g0 g1 g2 : t) (o1 o2 o3 : Order),
     delivery_streak g0 = 0 ->
     last_delivery_was_clean g0 = true ->
     0 <= reputation g0 ->
     DeliverySpec.same_score (deliver_order o1 g0) g1 ->
     DeliverySpec.same_score (deliver_order o2 g1) g2 ->
     snd (DeliverySpec.rating g0 o1) = true ->
     snd (DeliverySpec.rating g1 o2) = true ->
     snd (DeliverySpec.rating g2 o3) = true ->
     delivery_streak (deliver_order o3 g2) = 0 /\
     reputation (deliver_order o3 g2) =
       Z.min 100 (reputation g0 + fst (DeliverySpec.rating g0 o1)
                  + fst (DeliverySpec.rating g1 o2)
                  + fst (DeliverySpec.rating g2 o3) + 2)).
Proof.
  split; [exact streak_step|].
  intros g0 g1 g2 o1 o2 o3 Hs0 Hl0 Hr0 (R1 & S1 & L1) (R2 & S2 & L2) C1 C2 C3.
  destruct (streak_step g0 o1) as (P1 & Q1 & _ & _ & A1 & _).
  destruct (streak_step g1 o2) as (P2 & Q2 & _ & _ & A2 & _).
  destruct (streak_step g2 o3) as (P3 & _ & _ & _ & _ & A3).
  cbv zeta in *.
  apply P1 in C1 as D1. apply P2 in C2 as D2. apply P3 in C3 as D3.
  destruct (A1 C1 Hl0 ltac:(lia)) as [E1 F1].
  assert (Hl1 : last_delivery_was_clean g1 = true) by congruence.
  assert (Hs1 : delivery_streak g1 = 1) by lia.
  destruct (A2 C2 Hl1 ltac:(lia)) as [E2 F2].
  assert (Hl2 : last_delivery_was_clean g2 = true) by congruence.
  assert (Hs2 : delivery_streak g2 = 2) by lia.
  destruct (A3 C3 Hl2 ltac:(lia)) as [E3 F3].
  split; [exact E3|].
  rewrite F3, R2, F2, R1, F1. unfold DeliverySpec.clamp.
  pose proof (rating_values g0 o1) as V1.
  pose proof (rating_values g1 o2) as V2.
  pose proof (rating_values g2 o3) as V3.
  lia.
Qed.

Lemma py_int_floor (x : Q) : (0 <= x)%Q -> py_int x = Qfloor x.
Proof.
  intros H. unfold py_int, Qfloor. destruct x as [n d]. cbn.
  apply Z.quot_div_nonneg; [|lia].
  unfold Qle in H. cbn in H. lia.
Qed.

(** C10: the payout bonus looks at the reputation as the delivery has
    left it: for a payout that is not negative the money grows by
    floor(payout * 1.05) when that reputation is 90 or more and by the
    payout otherwise; so a delivery that lifts the reputation from below 90
    to 90 or above pays the bonus, and one that takes it from 90 or above to
    below 90 pays the base payout. *)
Theorem payout_bonus_uses_updated_reputation (g : t) (order : Order) :
  let g' := deliver_order order g in
  let with_bonus := Qfloor (inject_Z (payout order) * (105 # 100))%Q in
  0 <= payout order ->
  money g' = money g + (if 90 <=? reputation g' then with_bonus else payout order) /\
  (reputation g < 90 -> 90 <= reputation g' -> money g' = money g + with_bonus) /\
  (90 <= reputation g -> reputation g' < 90 -> money g' = money g + payout order).
Proof.
  intros g' with_bonus Hp.
  assert (H : money g' = money g + (if 90 <=? reputation g' then with_bonus else payout order)).
  { subst g' with_bonus. rewrite deliver_order_money.
    rewrite py_int_floor; [reflexivity|].
    apply Qmult_le_0_compat; [|discriminate].
    change 0%Q with (inject_Z 0). rewrite <- Zle_Qle. exact Hp. }
  split; [exact H|]. rewrite H.
  split; intros H1 H2.
  - destruct (Z.leb_spec 90 (reputation g')); [reflexivity|lia].
  - destruct (Z.leb_spec 90 (reputation g')); [lia|reflexivity].
Qed.

End DeliveryFacts.

(** ** Releasing orders *)

Section ReleaseFacts.
Import CourierQuest.

(** The loop releases the first [n] orders of the backlog, where [n] is
    bounded by the batch left, by the room left and by the due prefix. *)
Lemma release_loop_spec (g : t) (batch : Z) (pending : list Order) :
  forall (items : list Order) (released_count current_active_orders : Z),
    let room := Z.max 0 (Z.min (batch - released_count)
                               (MAX_ACTIVE_ORDERS - current_active_orders)) in
    let n := Nat.min (Z.to_nat room) (ReleaseSpec.due_prefix_length g pending) in
    exists items',
      release_loop g batch pending items released_count current_active_orders
      = (skipn n pending, items', released_count + Z.of_nat n) /\
      Permutation items' (rev (map (ReleaseSpec.released g) (firstn n pending)) ++ items).
Proof.
  induction pending as [|first rest IH]; intros items rc ca room n.
  - exists items. subst n. rewrite Nat.min_0_r. cbn. split; [f_equal; lia | reflexivity].
  - cbn [release_loop ReleaseSpec.due_prefix_length] in *.
    fold (ReleaseSpec.due g first) in *.
    destruct (Z.ltb_spec rc batch) as [Hb|Hb];
      destruct (ReleaseSpec.due g first) eqn:Hd;
      destruct (Z.ltb_spec ca MAX_ACTIVE_ORDERS) as [Ha|Ha]; cbn [andb];
      try (exists items; subst n room;
           first [ rewrite Nat.min_0_r | replace (Z.to_nat _) with 0%nat by lia ];
           cbn; split; [f_equal; lia | reflexivity]).
    fold (ReleaseSpec.released g first).
    destruct (IH (OptimizedPriorityQueue.enqueue (ReleaseSpec.released g first) items)
                 (rc + 1) (ca + 1)) as (items' & Heq & Hperm).
    exists items'.
    set (room' := Z.max 0 (Z.min (batch - (rc + 1)) (MAX_ACTIVE_ORDERS - (ca + 1)))) in *.
    set (n' := Nat.min (Z.to_nat room') (ReleaseSpec.due_prefix_length g rest)) in *.
    assert (Hn : n = S n').
    { subst n n' room room'.
      replace (Z.to_nat (Z.max 0 (Z.min (batch - rc) (MAX_ACTIVE_ORDERS - ca))))
        with (S (Z.to_nat (Z.max 0 (Z.min (batch - (rc + 1)) (MAX_ACTIVE_ORDERS - (ca + 1))))))
        by lia.
      reflexivity. }
    rewrite Hn. cbn [skipn firstn map rev]. rewrite Heq. split.
    + f_equal. lia.
    + rewrite Hperm. rewrite enqueue_Permutation.
      rewrite <- app_assoc. reflexivity.
Qed.

Lemma due_prefix_Forall (g : t) (pending : list Order) (n : nat) :
  (n <= ReleaseSpec.due_prefix_length g pending)%nat ->
  Forall (fun o => ReleaseSpec.due g o = true) (firstn n pending).
Proof.
  revert n. induction pending as [|first rest IH]; intros [|n] Hn; cbn in *;
    try constructor; try lia.
  - destruct (ReleaseSpec.due g first); auto; lia.
  - destruct (ReleaseSpec.due g first); [apply IH|]; lia.
Qed.

Lemma due_prefix_le_length (g : t) (pending : list Order) :
  (ReleaseSpec.due_prefix_length g pending <= length pending)%nat.
Proof.
  induction pending as [|first rest IH]; cbn; [lia|].
  destruct (ReleaseSpec.due g first); lia.
Qed.

Lemma due_prefix_all (g : t) (pending : list Order) :
  Forall (fun o => ReleaseSpec.due g o = true) pending ->
  ReleaseSpec.due_prefix_length g pending = length pending.
Proof.
  induction 1 as [|first rest Hd _ IH]; cbn; [reflexivity|].
  rewrite Hd, IH. reflexivity.
Qed.

(** In a backlog sorted by release time, the due orders are a prefix. *)
Lemma due_prefix_sorted (g : t) (pending : list Order) :
  StronglySorted ReleaseSpec.by_release_time pending ->
  length (List.filter (ReleaseSpec.due g) pending)
  = ReleaseSpec.due_prefix_length g pending.
Proof.
  induction 1 as [|first rest Hs IH Hf]; cbn; [reflexivity|].
  destruct (ReleaseSpec.due g first) eqn:Hd; cbn; [rewrite IH; reflexivity|].
  assert (Hnone : List.filter (ReleaseSpec.due g) rest = []).
  { clear IH Hs. induction rest as [|o rest IHr]; cbn; [reflexivity|].
    apply List.Forall_cons_iff in Hf as [Ho Hf].
    assert (ReleaseSpec.due g o = false) as ->.
    { unfold ReleaseSpec.due in *.
      destruct (Qle_bool (inject_Z (release_time o)) (game_time g)) eqn:E; auto.
      apply Qle_bool_iff in E.
      assert (Qle_bool (inject_Z (release_time first)) (game_time g) = true); [|congruence].
      apply Qle_bool_iff. eapply Qle_trans; [|exact E].
      rewrite <- Zle_Qle. exact Ho. }
    auto. }
  rewrite Hnone. reflexivity.
Qed.

(** C6: with the cap of 10, a tick releases up to 3 orders when fewer
    than 10/3 = 3 are active, up to 2 when fewer than 10/2 = 5 are, up to 1
    when fewer than 10 are and none otherwise (the quotients are the integer
    ones of the source).  The released orders are the first [n] of the
    backlog, all of them due, with [n] the smaller of the batch size and the
    length of the due prefix, which in a backlog sorted by release time is
    the number of due orders; they join the active orders, whose count
    never passes the cap.  With 12 due orders and none active a tick
    releases exactly 3. *)
Theorem release_throttle (g : t) :
  let active := Z.of_nat (length (available_orders g)) in
  let batch := orders_to_release active in
  let g' := _process_order_releases g in
  let n := Z.to_nat (Z.min batch
                       (Z.of_nat (ReleaseSpec.due_prefix_length g (pending_orders g)))) in
  (MAX_ACTIVE_ORDERS = 10 /\ MAX_ACTIVE_ORDERS / 3 = 3 /\ MAX_ACTIVE_ORDERS / 2 = 5) /\
  ((active < MAX_ACTIVE_ORDERS / 3 -> batch = 3) /\
   (MAX_ACTIVE_ORDERS / 3 <= active < MAX_ACTIVE_ORDERS / 2 -> batch = 2) /\
   (MAX_ACTIVE_ORDERS / 2 <= active < MAX_ACTIVE_ORDERS -> batch = 1) /\
   (MAX_ACTIVE_ORDERS <= active -> batch = 0)) /\
  pending_orders g' = skipn n (pending_orders g) /\
  Permutation (available_orders g')
    (map (ReleaseSpec.released g) (firstn n (pending_orders g)) ++ available_orders g) /\
  Forall (fun o => ReleaseSpec.due g o = true) (firstn n (pending_orders g)) /\
  (StronglySorted ReleaseSpec.by_release_time (pending_orders g) ->
   Z.of_nat n = Z.min batch
                  (Z.of_nat (length (List.filter (ReleaseSpec.due g) (pending_orders g))))) /\
  (active <= MAX_ACTIVE_ORDERS ->
   Z.of_nat (length (available_orders g')) <= MAX_ACTIVE_ORDERS) /\
  (length (pending_orders g) = 12%nat ->
   Forall (fun o => ReleaseSpec.due g o = true) (pending_orders g) ->
   active = 0 ->
   length (pending_orders g') = 9%nat /\ length (available_orders g') = 3%nat).
Proof.
  intros active batch g' n.
  assert (Hbatch : (active < 3 -> batch = 3) /\ (3 <= active < 5 -> batch = 2) /\
                   (5 <= active < 10 -> batch = 1) /\ (10 <= active -> batch = 0)).
  { subst batch. unfold orders_to_release.
    change (MAX_ACTIVE_ORDERS / 3) with 3. change (MAX_ACTIVE_ORDERS / 2) with 5.
    change MAX_ACTIVE_ORDERS with 10.
    destruct (Z.ltb_spec active 3), (Z.ltb_spec active 5), (Z.ltb_spec active 10);
      repeat split; intros; lia. }
  assert (Hactive : 0 <= active) by (subst active; lia).
  destruct (release_loop_spec g batch (pending_orders g) (available_orders g) 0 active)
    as (items' & Heq & Hperm).
  fold active in Heq.
  assert (Hn : Nat.min (Z.to_nat (Z.max 0 (Z.min (batch - 0) (MAX_ACTIVE_ORDERS - active))))
                 (ReleaseSpec.due_prefix_length g (pending_orders g)) = n).
  { subst n. change MAX_ACTIVE_ORDERS with 10. lia. }
  rewrite Hn in Heq, Hperm.
  assert (Hp : pending_orders g' = skipn n (pending_orders g)).
  { subst g'. unfold _process_order_releases. fold active. fold batch. rewrite Heq.
    rewrite pending_orders_set_available, pending_orders_set_pending. reflexivity. }
  assert (Ha : available_orders g' = items').
  { subst g'. unfold _process_order_releases. fold active. fold batch. rewrite Heq.
    rewrite available_orders_set_available. reflexivity. }
  assert (Hlen : length (available_orders g') = (n + length (available_orders g))%nat).
  { rewrite Ha, (Permutation_length Hperm), length_app, length_rev, length_map.
    rewrite length_firstn.
    pose proof (due_prefix_le_length g (pending_orders g)). lia. }
  split; [repeat split|].
  split; [exact Hbatch|].
  split; [exact Hp|].
  split; [rewrite Ha, Hperm; apply Permutation_app_tail; symmetry; apply Permutation_rev|].
  split; [apply due_prefix_Forall; lia|].
  split; [intros Hs; rewrite (due_prefix_sorted g _ Hs); lia|].
  split.
  - intros Hle. rewrite Hlen.
    assert (Hnb : Z.of_nat n <= Z.max 0 batch) by (unfold n; lia).
    destruct Hbatch as (B1 & B2 & B3 & B4).
    change MAX_ACTIVE_ORDERS with 10 in *.
    destruct (Z.lt_ge_cases active 3);
      [rewrite B1 in Hnb by lia
      |destruct (Z.lt_ge_cases active 5);
       [rewrite B2 in Hnb by lia
       |destruct (Z.lt_ge_cases active 10);
        [rewrite B3 in Hnb by lia | rewrite B4 in Hnb by lia]]];
      unfold active in *; lia.
  - intros H12 Hdue H0.
    assert (Hb3 : batch = 3) by (apply Hbatch; lia).
    assert (n = 3%nat).
    { unfold n. rewrite (due_prefix_all g _ Hdue), H12, Hb3. reflexivity. }
    rewrite Hp, Hlen, length_skipn, H12. unfold active in H0. lia.
Qed.

End ReleaseFacts.

(** ** The undo history *)

Section HistoryFacts.
Import MemoryEfficientHistory.

Lemma history_bounded (cs : list HistorySpec.op) :
  max_size (HistorySpec.run cs) = 20 /\
  (length (diffs (HistorySpec.run cs)) < 20)%nat.
Proof.
  unfold HistorySpec.run.
  assert (H0 : max_size init = 20 /\ (length (diffs init) < 20)%nat) by (cbn; lia).
  revert H0. generalize init as h.
  induction cs as [|c cs IH]; intros h [Hm Hl]; cbn [fold_left]; [auto|].
  apply IH. destruct c as [state|]; cbn [HistorySpec.apply_op].
  - unfold push. destruct (base_state h) as [base|]; [|cbn [max_size diffs]; auto].
    destruct (nonempty (make_diff base state)); [|auto].
    rewrite Hm, length_app. cbn [length].
    destruct (Z.leb_spec 20 (Z.of_nat (length (diffs h) + 1)));
      cbn [max_size diffs]; split; auto.
    + destruct (diffs h); cbn [app tl length] in *; [lia|].
      rewrite length_app. cbn [length]. lia.
    + rewrite length_app. cbn [length]. lia.
  - unfold pop. destruct (rev (diffs h)) as [|d before] eqn:E; cbn [snd]; [auto|].
    assert (Hlen : length (rev (diffs h)) = S (length before)) by (rewrite E; reflexivity).
    rewrite length_rev in Hlen.
    destruct (base_state h); cbn [snd max_size diffs]; rewrite length_rev; split; auto; lia.
Qed.

Lemma make_diff_fields (base state : GameState.t) :
  let d := make_diff base state in
  ((d_player_pos d = None /\
    pos_x (GameState.player_pos base) = pos_x (GameState.player_pos state) /\
    pos_y (GameState.player_pos base) = pos_y (GameState.player_pos state)) \/
   (d_player_pos d
    = Some (pos_x (GameState.player_pos state), pos_y (GameState.player_pos state)) /\
    (pos_x (GameState.player_pos base) <> pos_x (GameState.player_pos state) \/
     pos_y (GameState.player_pos base) <> pos_y (GameState.player_pos state)))) /\
  ((d_stamina d = None /\
    (Qabs (GameState.stamina base - GameState.stamina state) <= 1)%Q) \/
   (d_stamina d = Some (GameState.stamina state) /\
    (1 < Qabs (GameState.stamina base - GameState.stamina state))%Q)) /\
  ((d_money d = None /\ GameState.money base = GameState.money state) \/
   (d_money d = Some (GameState.money state) /\
    GameState.money base <> GameState.money state)) /\
  ((d_reputation d = None /\ GameState.reputation base = GameState.reputation state) \/
   (d_reputation d = Some (GameState.reputation state) /\
    GameState.reputation base <> GameState.reputation state)).
Proof.
  unfold make_diff. cbn [d_player_pos d_stamina d_money d_reputation].
  repeat split.
  - destruct (Z.eqb_spec (pos_x (GameState.player_pos base)) (pos_x (GameState.player_pos state))),
             (Z.eqb_spec (pos_y (GameState.player_pos base)) (pos_y (GameState.player_pos state)));
      cbn [negb orb]; tauto.
  - destruct (Qlt_bool 1 _) eqn:E.
    + right. apply Qlt_bool_iff in E. auto.
    + left. apply Qlt_bool_false_iff in E. auto.
  - destruct (Z.eqb_spec (GameState.money base) (GameState.money state));
      cbn [negb]; tauto.
  - destruct (Z.eqb_spec (GameState.reputation base) (GameState.reputation state));
      cbn [negb]; tauto.
Qed.

Lemma nonempty_false_iff (d : Diff) :
  nonempty d = false <->
  d_player_pos d = None /\ d_stamina d = None /\ d_money d = None /\ d_reputation d = None.
Proof.
  destruct d as [[?|] [?|] [?|] [?|]]; cbn; split; try discriminate; try tauto;
    intros (? & ? & ? & ?); discriminate.
Qed.

Lemma pop_last (h : t) (ds : list Diff) (d : Diff) (base : GameState.t) :
  diffs h = ds ++ [d] -> base_state h = Some base ->
  pop h = (Some (rebuild d base), mk ds (max_size h) (Some base)).
Proof.
  intros Hd Hb. unfold pop. rewrite Hd, rev_app_distr. cbn.
  rewrite Hb, rev_involutive. reflexivity.
Qed.

(** C8, amended: a history built by push and pop calls never holds 20 diffs
    or more.  The first push stores the base snapshot.  A later push builds
    a diff with the position when a coordinate differs from the base, the
    stamina when it differs by more than 1.0, the money and the reputation
    when they differ, and nothing else; it appends the diff exactly when one
    of these is present, dropping the oldest diff when the queue has reached
    its bound.  A pop removes the last diff and returns a state that takes
    position, stamina, money and reputation from the diff where it has them
    and from the base snapshot otherwise, has a delivery streak of 0, and
    takes every other field from the base snapshot. *)
Theorem history_push_pop :
  (forall cs : list HistorySpec.op,
     (length (diffs (HistorySpec.run cs)) < 20)%nat) /\
  (forall (h : t) (state : GameState.t),
     base_state h = None ->
     push state h = mk (diffs h) (max_size h) (Some state)) /\
  (forall (h : t) (base state : GameState.t),
     base_state h = Some base ->
     let d := make_diff base state in
     let position_differs :=
       pos_x (GameState.player_pos base) <> pos_x (GameState.player_pos state) \/
       pos_y (GameState.player_pos base) <> pos_y (GameState.player_pos state) in
     let stamina_differs :=
       (1 < Qabs (GameState.stamina base - GameState.stamina state))%Q in
     let money_differs := GameState.money base <> GameState.money state in
     let reputation_differs :=
       GameState.reputation base <> GameState.reputation state in
     (d_player_pos d <> None <-> position_differs) /\
     (d_stamina d <> None <-> stamina_differs) /\
     (d_money d <> None <-> money_differs) /\
     (d_reputation d <> None <-> reputation_differs) /\
     (forall xy, d_player_pos d = Some xy ->
        xy = (pos_x (GameState.player_pos state), pos_y (GameState.player_pos state))) /\
     (forall v, d_stamina d = Some v -> v = GameState.stamina state) /\
     (forall v, d_money d = Some v -> v = GameState.money state) /\
     (forall v, d_reputation d = Some v -> v = GameState.reputation state) /\
     (nonempty d = true <->
        position_differs \/ stamina_differs \/ money_differs \/ reputation_differs) /\
     (nonempty d = false -> push state h = h) /\
     (nonempty d = true ->
        base_state (push state h) = Some base /\
        diffs (push state h) =
          if max_size h <=? Z.of_nat (length (diffs h ++ [d]))
          then tl (diffs h ++ [d]) else diffs h ++ [d])) /\
  (forall (h : t) (ds : list Diff) (d : Diff) (base : GameState.t),
     diffs h = ds ++ [d] -> base_state h = Some base ->
     exists s : GameState.t,
       pop h = (Some s, mk ds (max_size h) (Some base)) /\
       GameState.player_pos s =
         match d_player_pos d with
         | Some (x, y) => mkPosition x y
         | None => mkPosition (pos_x (GameState.player_pos base))
                              (pos_y (GameState.player_pos base))
         end /\
       GameState.stamina s = default (GameState.stamina base) (d_stamina d) /\
       GameState.money s = default (GameState.money base) (d_money d) /\
       GameState.reputation s = default (GameState.reputation base) (d_reputation d) /\
       GameState.delivery_streak s = 0 /\
       GameState.game_time s = GameState.game_time base /\
       GameState.weather_time s = GameState.weather_time base /\
       GameState.current_weather s = GameState.current_weather base /\
       GameState.weather_intensity s = GameState.weather_intensity base /\
       GameState.inventory s = GameState.inventory base /\
       GameState.available_orders s = GameState.available_orders base /\
       GameState.completed_orders s = GameState.completed_orders base /\
       GameState.goal s = GameState.goal base /\
       GameState.pending_orders s = GameState.pending_orders base /\
       GameState.city_width s = GameState.city_width base /\
       GameState.city_height s = GameState.city_height base /\
       GameState.tiles s = GameState.tiles base /\
       GameState.legend s = GameState.legend base /\
       GameState.city_name s = GameState.city_name base /\
       GameState.max_game_time s = GameState.max_game_time base) /\
  (forall h : t, diffs h = [] -> pop h = (None, h)).
Proof.
  split; [intros cs; apply history_bounded|].
  split; [intros h state Hb; unfold push; rewrite Hb; reflexivity|].
  split; [|split].
  - intros h base state Hb d position_differs stamina_differs money_differs
      reputation_differs.
    destruct (make_diff_fields base state) as (Hp & Hs & Hm & Hr).
    fold d in Hp, Hs, Hm, Hr.
    fold position_differs in Hp. fold stamina_differs in Hs.
    fold money_differs in Hm. fold reputation_differs in Hr.
    assert (Hns : (Qabs (GameState.stamina base - GameState.stamina state) <= 1)%Q ->
                  ~ stamina_differs).
    { intros Hle Hlt. apply Qlt_not_le in Hlt. contradiction. }
    split; [destruct Hp as [[-> Hp]|[-> Hp]]; split; intros H;
            first [congruence | subst position_differs; lia | discriminate]|].
    split; [destruct Hs as [[-> Hs]|[-> Hs]]; split; intros H;
            first [congruence | apply Hns in Hs; contradiction | assumption | discriminate]|].
    split; [destruct Hm as [[-> Hm]|[-> Hm]]; split; intros H;
            first [congruence | contradiction | assumption | discriminate]|].
    split; [destruct Hr as [[-> Hr]|[-> Hr]]; split; intros H;
            first [congruence | contradiction | assumption | discriminate]|].
    split; [intros xy H; destruct Hp as [[E _]|[E _]]; congruence|].
    split; [intros v H; destruct Hs as [[E _]|[E _]]; congruence|].
    split; [intros v H; destruct Hm as [[E _]|[E _]]; congruence|].
    split; [intros v H; destruct Hr as [[E _]|[E _]]; congruence|].
    split; [|split].
    + destruct (nonempty d) eqn:E.
      * split; [intros _|reflexivity].
        destruct Hp as [[Ep _]|[_ Hp]]; [|tauto].
        destruct Hs as [[Es _]|[_ Hs]]; [|tauto].
        destruct Hm as [[Em _]|[_ Hm]]; [|tauto].
        destruct Hr as [[Er _]|[_ Hr]]; [|tauto].
        assert (nonempty d = false) by (apply nonempty_false_iff; auto). congruence.
      * split; [discriminate|intros H; exfalso].
        apply nonempty_false_iff in E as (E1 & E2 & E3 & E4).
        destruct Hp as [[_ Hp]|[Ep _]]; [|congruence].
        destruct Hs as [[_ Hs]|[Es _]]; [|congruence].
        destruct Hm as [[_ Hm]|[Em _]]; [|congruence].
        destruct Hr as [[_ Hr]|[Er _]]; [|congruence].
        apply Hns in Hs.
        destruct H as [H|[H|[H|H]]]; try contradiction.
        subst position_differs. lia.
    + intros E. unfold push. rewrite Hb. fold d. rewrite E. reflexivity.
    + intros E. unfold push. rewrite Hb. fold d. rewrite E.
      destruct (max_size h <=? Z.of_nat (length (diffs h ++ [d]))); cbn; auto.
  - intros h ds d base Hd Hb. exists (rebuild d base).
    split; [apply pop_last; auto|].
    unfold rebuild. cbn.
    repeat split. destruct (d_player_pos d) as [[x y]|]; reflexivity.
  - intros h Hd. unfold pop. rewrite Hd. reflexivity.
Qed.

End HistoryFacts.

(** ** Saving and loading *)

Section PersistenceFacts.
Import CourierQuest.

Lemma save_succeeds_iff (now : Q) (now_iso : string) (st : GameState.t)
    (slot : Z) (disk : RobustFileManager.Disk) :
  fst (RobustFileManager.save_game_with_validation now now_iso st slot disk) = true
  <-> GameState.goal st <> 0.
Proof.
  unfold RobustFileManager.save_game_with_validation.
  destruct (Z.eqb_spec (GameState.goal st) 0); cbn; split; congruence.
Qed.

Lemma load_game_fields (slot : Z) (disk : RobustFileManager.Disk) (st : GameState.t) (g : t) :
  RobustFileManager.load_game_with_validation slot disk = Some st ->
  let g' := load_game slot disk g in
  player_pos g' = GameState.player_pos st /\
  stamina g' = GameState.stamina st /\
  reputation g' = GameState.reputation st /\
  money g' = GameState.money st /\
  city_width g' = GameState.city_width st /\
  city_height g' = GameState.city_height st /\
  tiles g' = GameState.tiles st /\
  legend g' = GameState.legend st.
Proof.
  intros H. unfold load_game, _load_game. rewrite H. destruct g. cbn. repeat split.
Qed.

(** C9: when saving a state to a slot succeeds, loading that slot returns the
    state itself, hence the same player position, stamina, reputation,
    money, width, height, tiles and legend; and a game saved with [save_game]
    gives these attributes back to whatever game loads the slot. *)
Theorem save_load_roundtrip (now : Q) (now_iso : string) (st : GameState.t)
    (slot : Z) (disk disk' : RobustFileManager.Disk) :
  RobustFileManager.save_game_with_validation now now_iso st slot disk = (true, disk') ->
  (exists st' : GameState.t,
     RobustFileManager.load_game_with_validation slot disk' = Some st' /\
     GameState.player_pos st' = GameState.player_pos st /\
     GameState.stamina st' = GameState.stamina st /\
     GameState.reputation st' = GameState.reputation st /\
     GameState.money st' = GameState.money st /\
     GameState.city_width st' = GameState.city_width st /\
     GameState.city_height st' = GameState.city_height st /\
     GameState.tiles st' = GameState.tiles st /\
     GameState.legend st' = GameState.legend st) /\
  (forall g g2 : t,
     st = state_with (player_pos g) g ->
     let g' := load_game slot disk' g2 in
     player_pos g' = player_pos g /\
     stamina g' = stamina g /\
     reputation g' = reputation g /\
     money g' = money g /\
     city_width g' = city_width g /\
     city_height g' = city_height g /\
     tiles g' = tiles g /\
     legend g' = legend g).
Proof.
  unfold RobustFileManager.save_game_with_validation.
  destruct (GameState.goal st =? 0); [discriminate|].
  intros H. injection H as <-.
  assert (Hl : RobustFileManager.load_game_with_validation slot
                 (<[slot := RobustFileManager.SaveData "3.1_map_fixed" now
                              (RobustFileManager.Full st)
                              (RobustFileManager.mkMetadata now_iso
                                 (GameState.game_time st)
                                 (pos_x (GameState.player_pos st),
                                  pos_y (GameState.player_pos st))
                                 ((inject_Z (GameState.money st)
                                   / inject_Z (GameState.goal st)) * 100)%Q
                                 (RobustFileManager.city_info_of st))]> disk)
               = Some st).
  { unfold RobustFileManager.load_game_with_validation.
    rewrite lookup_insert_eq. reflexivity. }
  split.
  - exists st. repeat split. exact Hl.
  - intros g g2 ->.
    apply (load_game_fields slot _ _ g2) in Hl. exact Hl.
Qed.

End PersistenceFacts.

(** ** The expiry sweep *)

Section ExpiryFacts.
Import CourierQuest.

Lemma sweep_fst (g : t) (orders remaining expired : list Order) :
  fst (fold_left
         (fun acc order =>
            if Qle_bool (get_order_time_remaining g order) 0
            then (fst acc ++ [order], default (snd acc) (list_remove order (snd acc)))
            else acc)
         orders (expired, remaining))
  = expired ++ List.filter (DeliverySpec.timed_out g) orders.
Proof.
  revert remaining expired.
  induction orders as [|order orders IH]; intros remaining expired; cbn [fold_left List.filter].
  - rewrite app_nil_r. reflexivity.
  - unfold DeliverySpec.timed_out at 1.
    destruct (Qle_bool (get_order_time_remaining g order) 0); cbn [fst snd].
    + rewrite IH, <- app_assoc. reflexivity.
    + apply IH.
Qed.

Lemma penalties_reputation (expired : list Order) (g : t) :
  reputation
    (fold_left
       (fun g (order : Order) =>
          set_last_delivery_was_clean false
            (set_delivery_streak 0 (set_reputation (reputation g - 6) g)))
       expired g)
  = reputation g - 6 * Z.of_nat (length expired).
Proof.
  revert g. induction expired as [|order expired IH]; intros g; cbn [fold_left length].
  - lia.
  - rewrite IH. destruct g; cbn. lia.
Qed.

(** Each order that the sweep finds timed out takes 6 from the reputation,
    and nothing bounds the result. *)
Lemma check_expired_orders_reputation (g : t) :
  reputation (_check_expired_orders g)
  = reputation g - 6 * Z.of_nat (length (DeliverySpec.expired_orders g)).
Proof.
  unfold _check_expired_orders, sweep, DeliverySpec.expired_orders.
  pose proof (sweep_fst g (available_orders g) (available_orders g) []) as H1.
  destruct (fold_left _ (available_orders g) _) as [expired1 items].
  cbn [fst app] in H1. subst expired1.
  pose proof (sweep_fst g (inventory g) (inventory g)
                (List.filter (DeliverySpec.timed_out g) (available_orders g))) as H2.
  destruct (fold_left _ (inventory g) _) as [expired2 inv].
  cbn [fst] in H2. subst expired2.
  rewrite penalties_reputation, reputation_set_inventory, reputation_set_available.
  reflexivity.
Qed.

Lemma deliver_order_reputation_range (g : t) (order : Order) :
  0 <= reputation (deliver_order order g) <= 100.
Proof.
  rewrite deliver_order_reputation. cbv zeta. unfold DeliverySpec.clamp.
  destruct (DeliverySpec.completes_streak g order); lia.
Qed.

(** C2: a delivery leaves the reputation inside [0,100], but the expiry
    sweep takes 6 for each timed-out order without any bound.  In the game
    of [Scenario.unclaimed_orders] the reputation stands at 22 after 2015
    frames, the game is still running, four orders time out in the next
    frame, and the reputation is -2 after it. *)
Theorem expiry_sweep_leaves_range :
  (forall (g : t) (order : Order), 0 <= reputation (deliver_order order g) <= 100) /\
  (forall g : t,
     reputation (_check_expired_orders g)
     = reputation g - 6 * Z.of_nat (length (DeliverySpec.expired_orders g))) /\
  reputation (fst Scenario.before_last_expiry) = 22 /\
  game_over (fst Scenario.before_last_expiry) = false /\
  length (available_orders (fst Scenario.before_last_expiry)) = 4%nat /\
  reputation (fst Scenario.after_last_expiry) = -2.
Proof.
  split; [exact deliver_order_reputation_range|].
  split; [exact check_expired_orders_reputation|].
  vm_compute. repeat split; reflexivity.
Qed.

End ExpiryFacts.

(** ** Exhaustion *)

Section ExhaustionFacts.
Import CourierQuest.

(** C1: the engine keeps no record of an exhaustion.  In the game of
    [Scenario.start] the player walks 200 cells; the stamina is then 0, the
    speed is 0 and a held direction key moves nothing.  After a save, an undo,
    a rest and a load of the exhausted save the stamina is 0 again and
    regenerates; three frames later it is 0.625, below 30, the move to the
    right is valid, and the next frame carries the player there.  The state
    restored by the undo, with stamina 4.90625, accepts the move as well. *)
Theorem exhaustion_not_latched :
  stamina (fst Scenario.exhausted) = 0%Q /\
  player_pos (fst Scenario.exhausted) = mkPosition 2 2 /\
  calculate_actual_speed (9 # 10) (fst Scenario.exhausted) = 0%Q /\
  is_valid_move (fst Scenario.exhausted) (mkPosition 3 2) = false /\
  stamina (fst Scenario.held) = 0%Q /\
  player_pos (fst Scenario.held) = mkPosition 2 2 /\
  stamina (fst Scenario.rested) = (157 # 32)%Q /\
  is_valid_move (fst Scenario.rested) (mkPosition 4 2) = true /\
  stamina (fst (handle_events [K_F9] Scenario.rested)) = 0%Q /\
  player_pos (fst Scenario.reloaded) = mkPosition 2 2 /\
  stamina (fst Scenario.reloaded) = (5 # 32)%Q /\
  stamina (fst Scenario.recovering) = (5 # 8)%Q /\
  player_pos (fst Scenario.recovering) = mkPosition 2 2 /\
  is_valid_move (fst Scenario.recovering) (mkPosition 3 2) = true /\
  player_pos (fst Scenario.moved) = mkPosition 3 2 /\
  stamina (fst Scenario.moved) = (1 # 8)%Q.
Proof.
  vm_compute. repeat split; reflexivity.
Qed.

End ExhaustionFacts.

(** ** Counterexamples *)

Section Counterexamples.
Import CourierQuest.

(** C5, as it stands, fails in the game of [Scenario.parcel_orders]: after
    the expiry of "X" three parcels are delivered in a row, each clean with a
    delta of +5.  The first leaves the streak counter at 0, the third leaves
    it at 2, and the reputation goes from 64 to 79, the sum of the deltas
    without the extra 2.  And in [Scenario.scoring] with a reputation of 90
    three clean deliveries of +5 each end at the cap of 100, not at 107. *)
Lemma streak_counterexample :
  reputation (fst Scenario.carrying) = 64 /\
  delivery_streak (fst Scenario.carrying) = 0 /\
  last_delivery_was_clean (fst Scenario.carrying) = false /\
  length (inventory (fst Scenario.carrying)) = 3%nat /\
  DeliverySpec.rating (fst Scenario.carrying)
    (nth 0 (inventory (fst Scenario.carrying)) Scenario.late_order) = (5, true) /\
  delivery_streak (fst Scenario.delivered_1) = 0 /\
  reputation (fst Scenario.delivered_1) = 69 /\
  DeliverySpec.rating (fst Scenario.delivered_1)
    (nth 0 (inventory (fst Scenario.delivered_1)) Scenario.late_order) = (5, true) /\
  delivery_streak (fst Scenario.delivered_2) = 1 /\
  reputation (fst Scenario.delivered_2) = 74 /\
  DeliverySpec.rating (fst Scenario.delivered_2)
    (nth 0 (inventory (fst Scenario.delivered_2)) Scenario.late_order) = (5, true) /\
  delivery_streak (fst Scenario.delivered_3) = 2 /\
  reputation (fst Scenario.delivered_3) = 79 /\
  length (completed_orders (fst Scenario.delivered_3)) = 3%nat /\
  reputation
    (deliver_order (Scenario.prompt "S3")
       (deliver_order (Scenario.prompt "S2")
          (deliver_order (Scenario.prompt "S1")
             (set_reputation 90 Scenario.scoring)))) = 100 /\
  ~ (forall (g : t) (order : Order),
       snd (DeliverySpec.rating g order) = true ->
       delivery_streak (deliver_order order g)
       = if delivery_streak g + 1 =? 3 then 0 else delivery_streak g + 1).
Proof.
  split; [vm_compute; reflexivity|].
  repeat (split; [vm_compute; reflexivity|]).
  intros H.
  assert (Hc : snd (DeliverySpec.rating (fst Scenario.carrying)
                      (nth 0 (inventory (fst Scenario.carrying)) Scenario.late_order))
               = true) by (vm_compute; reflexivity).
  specialize (H _ _ Hc).
  assert (E1 : delivery_streak
                 (deliver_order
                    (nth 0 (inventory (fst Scenario.carrying)) Scenario.late_order)
                    (fst Scenario.carrying)) = 0) by (vm_compute; reflexivity).
  assert (E2 : delivery_streak (fst Scenario.carrying) = 0) by (vm_compute; reflexivity).
  rewrite E1, E2 in H. clear - H. discriminate H.
Qed.

(** C8, as it stands, fails on the history of the game [Scenario.resumed],
    a session that starts by loading a save: the base snapshot has a
    delivery streak of 2, the diff has no such field, and the state that pop
    returns has a delivery streak of 0; the undo gives the game that 0. *)
Lemma history_pop_counterexample :
  option_map GameState.delivery_streak
    (MemoryEfficientHistory.base_state (history (fst Scenario.resumed))) = Some 2 /\
  length (MemoryEfficientHistory.diffs (history (fst Scenario.resumed))) = 1%nat /\
  option_map GameState.delivery_streak
    (fst (MemoryEfficientHistory.pop (history (fst Scenario.resumed)))) = Some 0 /\
  delivery_streak (fst Scenario.resumed) = 2 /\
  delivery_streak (undo_move (fst Scenario.resumed)) = 0 /\
  ~ (forall (h h' : MemoryEfficientHistory.t) (base s : GameState.t),
       MemoryEfficientHistory.base_state h = Some base ->
       MemoryEfficientHistory.pop h = (Some s, h') ->
       GameState.delivery_streak s = GameState.delivery_streak base).
Proof.
  repeat (split; [vm_compute; reflexivity|]).
  intros H.
  assert (Hb : exists base,
             MemoryEfficientHistory.base_state (history (fst Scenario.resumed)) = Some base /\
             GameState.delivery_streak base = 2).
  { eexists. split; vm_compute; reflexivity. }
  assert (Hp : exists s h',
             MemoryEfficientHistory.pop (history (fst Scenario.resumed)) = (Some s, h') /\
             GameState.delivery_streak s = 0).
  { do 2 eexists. split; vm_compute; reflexivity. }
  destruct Hb as (base & Hb & H2). destruct Hp as (s & h' & Hp & H0).
  specialize (H _ _ _ _ Hb Hp). congruence.
Qed.

(** C6, as it stands, fails in the game [Scenario.three_active]: three
    orders are active and nine orders of the backlog, which is sorted by
    release time, are due.  Three is below 10/3, so by the claim the batch
    is of 3 and the tick releases three orders.  The source compares the
    active count with [MAX_ACTIVE_ORDERS // 3], which is 3: it takes the
    batch of 2 and releases two orders, which leaves five active orders and
    seven in the backlog. *)
Lemma release_throttle_counterexample :
  length (available_orders Scenario.three_active) = 3%nat /\
  length (pending_orders Scenario.three_active) = 9%nat /\
  forallb (ReleaseSpec.due Scenario.three_active)
    (pending_orders Scenario.three_active) = true /\
  StronglySorted ReleaseSpec.by_release_time (pending_orders Scenario.three_active) /\
  (inject_Z 3 < inject_Z MAX_ACTIVE_ORDERS / 3)%Q /\
  ReleaseSpec.batch_as_specified MAX_ACTIVE_ORDERS 3 = 3 /\
  ReleaseSpec.released_as_specified Scenario.three_active = 3 /\
  orders_to_release 3 = 2 /\
  length (available_orders (_process_order_releases Scenario.three_active)) = 5%nat /\
  length (pending_orders (_process_order_releases Scenario.three_active)) = 7%nat /\
  ~ (forall g : t,
       StronglySorted ReleaseSpec.by_release_time (pending_orders g) ->
       Z.of_nat (length (available_orders (_process_order_releases g)))
       = Z.of_nat (length (available_orders g)) + ReleaseSpec.released_as_specified g).
Proof.
  assert (Hs : StronglySorted ReleaseSpec.by_release_time
                 (pending_orders Scenario.three_active)).
  { assert (E : map release_time (pending_orders Scenario.three_active)
               = repeat 0 9) by (vm_compute; reflexivity).
    revert E. generalize (pending_orders Scenario.three_active).
    intros l E.
    assert (Hall : Forall (fun o => release_time o = 0) l).
    { apply List.Forall_forall. intros o Ho.
      apply (in_map release_time) in Ho. rewrite E in Ho.
      apply repeat_spec in Ho. exact Ho. }
    clear E. induction Hall as [|o l Ho Hall IH]; constructor; [exact IH|].
    eapply List.Forall_impl; [|exact Hall].
    intros b Hb. unfold ReleaseSpec.by_release_time. rewrite Ho, Hb. lia. }
  split; [vm_compute; reflexivity|].
  split; [vm_compute; reflexivity|].
  split; [vm_compute; reflexivity|].
  split; [exact Hs|].
  split; [vm_compute; reflexivity|].
  split; [vm_compute; reflexivity|].
  split; [vm_compute; reflexivity|].
  split; [vm_compute; reflexivity|].
  split; [vm_compute; reflexivity|].
  split; [vm_compute; reflexivity|].
  intros H. specialize (H _ Hs).
  assert (E1 : Z.of_nat (length (available_orders
                                   (_process_order_releases Scenario.three_active))) = 5)
    by (vm_compute; reflexivity).
  assert (E2 : Z.of_nat (length (available_orders Scenario.three_active))
               + ReleaseSpec.released_as_specified Scenario.three_active = 6)
    by (vm_compute; reflexivity).
  rewrite E1, E2 in H. clear - H. discriminate H.
Qed.

End Counterexamples.
(** ** The theorems at concrete games *)

Section Witnesses.
Import CourierQuest.

Lemma move_validity_and_effect_witness :
  MoveSpec.on_grid (fst Scenario.start) /\
  is_valid_move (fst Scenario.start) (mkPosition 3 2) = true /\
  player_pos (move_player (mkPosition 3 2) (fst Scenario.start)) = mkPosition 3 2.
Proof.
  assert (Hg : MoveSpec.on_grid (fst Scenario.start)).
  { vm_compute. split; discriminate. }
  assert (Hv : is_valid_move (fst Scenario.start) (mkPosition 3 2) = true).
  { vm_compute. reflexivity. }
  destruct (move_validity_and_effect (fst Scenario.start) (mkPosition 3 2) Hg)
    as (_ & _ & Heff).
  split; [exact Hg | split; [exact Hv | exact (proj1 (Heff Hv))]].
Defined.

Lemma delivery_reputation_tiers_witness :
  fst (DeliverySpec.rating Scenario.scoring (Scenario.prompt "S1")) = 5 /\
  reputation (deliver_order (Scenario.prompt "S1") Scenario.scoring) = 75.
Proof.
  apply (proj2 (proj2 delivery_reputation_tiers)).
  - vm_compute. reflexivity.
  - reflexivity.
  - vm_compute. reflexivity.
  - vm_compute. reflexivity.
  - intros _. vm_compute. discriminate.
Defined.

Lemma streak_rule_witness :
  delivery_streak
    (deliver_order (Scenario.prompt "S3")
       (deliver_order (Scenario.prompt "S2")
          (deliver_order (Scenario.prompt "S1") Scenario.scoring))) = 0 /\
  reputation
    (deliver_order (Scenario.prompt "S3")
       (deliver_order (Scenario.prompt "S2")
          (deliver_order (Scenario.prompt "S1") Scenario.scoring))) = Z.min 100 (70 + 5 + 5 + 5 + 2).
Proof.
  apply (proj2 streak_rule Scenario.scoring
           (deliver_order (Scenario.prompt "S1") Scenario.scoring)
           (deliver_order (Scenario.prompt "S2")
              (deliver_order (Scenario.prompt "S1") Scenario.scoring))
           (Scenario.prompt "S1") (Scenario.prompt "S2") (Scenario.prompt "S3")).
  - vm_compute. reflexivity.
  - vm_compute. reflexivity.
  - vm_compute. discriminate.
  - repeat split.
  - repeat split.
  - vm_compute. reflexivity.
  - vm_compute. reflexivity.
  - vm_compute. reflexivity.
Defined.

Lemma payout_bonus_witness :
  money (deliver_order (Scenario.prompt "S1") (set_reputation 88 Scenario.scoring)) = 210 /\
  money (deliver_order (Scenario.prompt "S1") (set_reputation 80 Scenario.scoring)) = 200.
Proof.
  assert (Hp : 0 <= payout (Scenario.prompt "S1")) by (vm_compute; discriminate).
  destruct (payout_bonus_uses_updated_reputation
              (set_reputation 88 Scenario.scoring) (Scenario.prompt "S1") Hp)
    as (_ & Hup & _).
  destruct (payout_bonus_uses_updated_reputation
              (set_reputation 80 Scenario.scoring) (Scenario.prompt "S1") Hp)
    as (Hbase & _ & _).
  split.
  - rewrite Hup; [vm_compute; reflexivity | vm_compute; reflexivity | vm_compute; discriminate].
  - rewrite Hbase. vm_compute. reflexivity.
Defined.

Lemma release_throttle_witness :
  length (pending_orders (_process_order_releases Scenario.backlog)) = 9%nat /\
  length (available_orders (_process_order_releases Scenario.backlog)) = 3%nat.
Proof.
  destruct (release_throttle Scenario.backlog) as (_ & _ & _ & _ & _ & _ & _ & H).
  apply H.
  - vm_compute. reflexivity.
  - vm_compute. repeat constructor.
  - vm_compute. reflexivity.
Defined.

Lemma history_push_pop_witness :
  exists s : GameState.t,
    fst (MemoryEfficientHistory.pop (history (fst Scenario.resumed))) = Some s /\
    GameState.player_pos s = mkPosition 4 2 /\
    GameState.delivery_streak s = 0.
Proof.
  destruct (MemoryEfficientHistory.base_state (history (fst Scenario.resumed)))
    as [base|] eqn:Hb; [|vm_compute in Hb; discriminate Hb].
  destruct (proj1 (proj2 (proj2 (proj2 history_push_pop)))
              (history (fst Scenario.resumed)) []
              (MemoryEfficientHistory.mkDiff (Some (4, 2)) None None None)
              base)
    as (s & Hpop & Hpos & _ & _ & _ & Hstreak & _).
  - vm_compute. reflexivity.
  - exact Hb.
  - exists s. rewrite Hpop. split; [reflexivity | split; [exact Hpos | exact Hstreak]].
Defined.

Lemma save_load_roundtrip_witness :
  exists st' : GameState.t,
    RobustFileManager.load_game_with_validation 1
      (snd (save_game 0 "2023-11-14T22:13:20" 1 (fst Scenario.start) ∅)) = Some st' /\
    GameState.player_pos st' = mkPosition 2 2 /\
    GameState.stamina st' = 100%Q.
Proof.
  destruct (save_load_roundtrip 0 "2023-11-14T22:13:20"
              (state_with (player_pos (fst Scenario.start)) (fst Scenario.start))
              1 ∅
              (snd (save_game 0 "2023-11-14T22:13:20" 1 (fst Scenario.start) ∅)))
    as [(st' & Hl & Hp & Hs & _) _].
  - vm_compute. reflexivity.
  - exists st'. split; [exact Hl | split].
    + rewrite Hp. vm_compute. reflexivity.
    + rewrite Hs. vm_compute. reflexivity.
Defined.

End Witnesses.
(** ** The sorting toolkit *)

Section SortingFacts.
Import SortingAlgorithms.

Lemma filter_length_lt {A} (f : A -> bool) (l : list A) (x : A) :
  In x l -> f x = false -> (length (List.filter f l) < length l)%nat.
Proof.
  induction l as [|y l IH]; cbn [In List.filter length]; [tauto|].
  intros [-> | Hin] Hf.
  - rewrite Hf. pose proof (List.filter_length_le f l). lia.
  - specialize (IH Hin Hf). destruct (f y); cbn [length]; lia.
Qed.


Lemma filter_none {A} (f : A -> bool) (l : list A) :
  Forall (fun x => f x = false) l -> List.filter f l = [].
Proof.
  induction 1 as [|y l Hy _ IH]; cbn [List.filter]; [reflexivity|].
  rewrite Hy. exact IH.
Qed.

(** The three lists of the partition hold the orders of the list. *)
Lemma partition_Permutation (pv : Z) (l : list Order) :
  Permutation
    (List.filter (fun x => pv <? priority x) l
     ++ List.filter (fun x => priority x =? pv) l
     ++ List.filter (fun x => priority x <? pv) l) l.
Proof.
  induction l as [|y l IH]; cbn [List.filter]; [reflexivity|].
  destruct (Z.ltb_spec pv (priority y)), (Z.eqb_spec (priority y) pv),
    (Z.ltb_spec (priority y) pv); try lia; cbn [app].
  - constructor. exact IH.
  - rewrite <- Permutation_middle. constructor. exact IH.
  - rewrite app_assoc, <- Permutation_middle, <- app_assoc. constructor. exact IH.
Qed.

Lemma partition_stable (pv p : Z) (l : list Order) :
  List.filter (fun x => priority x =? p) (List.filter (fun x => pv <? priority x) l)
  ++ List.filter (fun x => priority x =? p) (List.filter (fun x => priority x =? pv) l)
  ++ List.filter (fun x => priority x =? p) (List.filter (fun x => priority x <? pv) l)
  = List.filter (fun x => priority x =? p) l.
Proof.
  induction l as [|y l IH]; cbn [List.filter]; [reflexivity|].
  destruct (Z.ltb_spec pv (priority y)), (Z.eqb_spec (priority y) pv),
    (Z.ltb_spec (priority y) pv); try lia; cbn [List.filter app];
    destruct (Z.eqb_spec (priority y) p); cbn [app]; rewrite <- IH; try reflexivity.
  - rewrite (filter_none (fun x => priority x =? p)
               (List.filter (fun x => pv <? priority x) l)).
    + reflexivity.
    + apply List.Forall_forall. intros x Hx. apply filter_In in Hx as [_ Hx].
      apply Z.ltb_lt in Hx. apply Z.eqb_neq. lia.
  - rewrite (filter_none (fun x => priority x =? p)
               (List.filter (fun x => pv <? priority x) l)).
    + rewrite (filter_none (fun x => priority x =? p)
                 (List.filter (fun x => priority x =? pv) l)).
      * reflexivity.
      * apply List.Forall_forall. intros x Hx. apply filter_In in Hx as [_ Hx].
        apply Z.eqb_eq in Hx. apply Z.eqb_neq. lia.
    + apply List.Forall_forall. intros x Hx. apply filter_In in Hx as [_ Hx].
      apply Z.ltb_lt in Hx. apply Z.eqb_neq. lia.
Qed.

Lemma same_priority_sorted (pv : Z) (l : list Order) :
  OptimizedPriorityQueue.sorted_desc (List.filter (fun x => priority x =? pv) l).
Proof.
  induction l as [|y l IHl]; cbn [List.filter].
  - constructor.
  - destruct (Z.eqb_spec (priority y) pv); [|exact IHl].
    constructor; [exact IHl|].
    apply List.Forall_forall. intros x Hx. apply filter_In in Hx as [_ Hx].
    apply Z.eqb_eq in Hx. unfold OptimizedPriorityQueue.by_priority. lia.
Qed.

Lemma quicksort_fuel_spec (fuel : nat) :
  forall orders : list Order,
    (length orders <= fuel)%nat ->
    Permutation (quicksort_fuel fuel orders) orders /\
    OptimizedPriorityQueue.sorted_desc (quicksort_fuel fuel orders) /\
    (forall p : Z,
       List.filter (fun x => priority x =? p) (quicksort_fuel fuel orders)
       = List.filter (fun x => priority x =? p) orders).
Proof.
  unfold OptimizedPriorityQueue.sorted_desc.
  induction fuel as [|fuel IH]; intros orders Hlen.
  - destruct orders; [|cbn in Hlen; lia]. cbn. repeat split; auto. constructor.
  - cbn [quicksort_fuel].
    destruct orders as [|a [|b rest]].
    + repeat split; auto. constructor.
    + repeat split; auto. repeat constructor.
    + set (orders := a :: b :: rest) in *.
      set (pivot := nth (length orders / 2) orders a).
      assert (Hpiv : In pivot orders).
      { apply nth_In. apply Nat.Div0.div_lt_upper_bound. cbn [length orders]. lia. }
      set (pv := priority pivot).
      set (left := List.filter (fun x => pv <? priority x) orders).
      set (right := List.filter (fun x => priority x <? pv) orders).
      set (middle := List.filter (fun x => priority x =? pv) orders).
      assert (Hl : (length left <= fuel)%nat).
      { pose proof (filter_length_lt (fun x => pv <? priority x) orders pivot Hpiv
                      (Z.ltb_irrefl _)). fold left in H. lia. }
      assert (Hr : (length right <= fuel)%nat).
      { pose proof (filter_length_lt (fun x => priority x <? pv) orders pivot Hpiv
                      (Z.ltb_irrefl _)). fold right in H. lia. }
      destruct (IH left Hl) as (Pl & Sl & Fl).
      destruct (IH right Hr) as (Pr & Sr & Fr).
      split; [|split].
      * rewrite Pl, Pr. apply partition_Permutation.
      * apply StronglySorted_app_iff. split; [exact Sl|]. split.
        -- apply StronglySorted_app_iff. split; [|split; [exact Sr|]].
           ++ apply same_priority_sorted.
           ++ intros x y Hx Hy. apply filter_In in Hx as [_ Hx].
              apply (Permutation_in _ Pr), filter_In in Hy as [_ Hy].
              apply Z.eqb_eq in Hx. apply Z.ltb_lt in Hy.
              unfold OptimizedPriorityQueue.by_priority. lia.
        -- intros x y Hx Hy.
           apply (Permutation_in _ Pl), filter_In in Hx as [_ Hx].
           apply Z.ltb_lt in Hx.
           apply in_app_or in Hy as [Hy|Hy].
           ++ apply filter_In in Hy as [_ Hy]. apply Z.eqb_eq in Hy.
              unfold OptimizedPriorityQueue.by_priority. lia.
           ++ apply (Permutation_in _ Pr), filter_In in Hy as [_ Hy].
              apply Z.ltb_lt in Hy. unfold OptimizedPriorityQueue.by_priority. lia.
      * intros p. rewrite !List.filter_app, Fl, Fr. apply partition_stable.
Qed.

(** X1: [quicksort_by_priority] returns the orders it was given, highest
    priority first, and orders of the same priority in the order they had
    in the input. *)
Theorem quicksort_by_priority_sorts (orders : list Order) :
  Permutation (quicksort_by_priority orders) orders /\
  OptimizedPriorityQueue.sorted_desc (quicksort_by_priority orders) /\
  (forall p : Z,
     List.filter (fun x => priority x =? p) (quicksort_by_priority orders)
     = List.filter (fun x => priority x =? p) orders).
Proof. apply quicksort_fuel_spec. lia. Qed.

End SortingFacts.
Section SortingFacts2.
Import SortingAlgorithms.

Lemma merge_cons (l r : Order) (left' right' : list Order) (game_time : Q) :
  _merge_by_deadline (l :: left') (r :: right') game_time
  = if Qle_bool (get_time_remaining game_time l) (get_time_remaining game_time r)
    then l :: _merge_by_deadline left' (r :: right') game_time
    else r :: _merge_by_deadline (l :: left') right' game_time.
Proof. reflexivity. Qed.

Lemma merge_nil_r (left : list Order) (game_time : Q) :
  _merge_by_deadline left [] game_time = left.
Proof. destruct left; reflexivity. Qed.

Lemma merge_Permutation (game_time : Q) (left right : list Order) :
  Permutation (_merge_by_deadline left right game_time) (left ++ right).
Proof.
  revert right. induction left as [|l left' IHl]; intros right; [reflexivity|].
  induction right as [|r right' IHr].
  - rewrite merge_nil_r, app_nil_r. reflexivity.
  - rewrite merge_cons. destruct (Qle_bool _ _).
    + cbn [app]. constructor. apply IHl.
    + rewrite IHr. apply Permutation_middle.
Qed.

Lemma merge_sorted (game_time : Q) (left right : list Order) :
  StronglySorted (SortSpec.by_deadline game_time) left ->
  StronglySorted (SortSpec.by_deadline game_time) right ->
  StronglySorted (SortSpec.by_deadline game_time) (_merge_by_deadline left right game_time).
Proof.
  revert right. induction left as [|l left' IHl]; intros right Hl Hr; [exact Hr|].
  induction right as [|r right' IHr].
  - rewrite merge_nil_r. exact Hl.
  - rewrite merge_cons.
    pose proof (StronglySorted_inv Hl) as [Hl' Fl].
    pose proof (StronglySorted_inv Hr) as [Hr' Fr].
    rewrite List.Forall_forall in Fl, Fr.
    destruct (Qle_bool _ _) eqn:E.
    + apply Qle_bool_iff in E. constructor; [apply IHl; assumption|].
      apply List.Forall_forall. intros x Hx.
      apply (Permutation_in _ (merge_Permutation _ _ _)), in_app_or in Hx as [Hx|Hx].
      * apply Fl, Hx.
      * destruct Hx as [<- | Hx]; [exact E|].
        unfold SortSpec.by_deadline in *. eapply Qle_trans; [exact E|]. apply Fr, Hx.
    + apply Qle_bool_false_iff in E. constructor; [apply IHr; assumption|].
      apply List.Forall_forall. intros x Hx.
      apply (Permutation_in _ (merge_Permutation _ _ _)), in_app_or in Hx as [Hx|Hx].
      * unfold SortSpec.by_deadline in *. destruct Hx as [<- | Hx].
        -- apply Qlt_le_weak, E.
        -- eapply Qle_trans; [apply Qlt_le_weak, E|]. apply Fl, Hx.
      * apply Fr, Hx.
Qed.

Lemma merge_stable (game_time k : Q) (left right : list Order) :
  StronglySorted (SortSpec.by_deadline game_time) left ->
  SortSpec.with_deadline game_time k (_merge_by_deadline left right game_time)
  = SortSpec.with_deadline game_time k left ++ SortSpec.with_deadline game_time k right.
Proof.
  unfold SortSpec.with_deadline.
  revert right. induction left as [|l left' IHl]; intros right Hl; [reflexivity|].
  induction right as [|r right' IHr].
  - rewrite merge_nil_r, app_nil_r. reflexivity.
  - rewrite merge_cons.
    pose proof (StronglySorted_inv Hl) as [Hl' Fl].
    rewrite List.Forall_forall in Fl.
    destruct (Qle_bool _ _) eqn:E.
    + cbn [List.filter].
      rewrite (IHl (r :: right') Hl'). cbn [List.filter].
      destruct (Qeq_bool (get_time_remaining game_time l) k); reflexivity.
    + apply Qle_bool_false_iff in E.
      set (F := fun x : Order => Qeq_bool (get_time_remaining game_time x) k) in *.
      assert (Hc : forall x m, List.filter F (x :: m)
                               = if F x then x :: List.filter F m else List.filter F m)
        by reflexivity.
      rewrite (Hc r (_merge_by_deadline _ _ _)), (Hc r right'), IHr.
      destruct (F r) eqn:Er; [|reflexivity].
      subst F. cbv beta in Er. apply Qeq_bool_iff in Er.
      rewrite (filter_none _ (l :: left')); [reflexivity|].
      apply List.Forall_forall. intros x Hx.
      destruct (Qeq_bool (get_time_remaining game_time x) k) eqn:Ex; [|reflexivity].
      apply Qeq_bool_iff in Ex. exfalso.
      assert (H : (get_time_remaining game_time l <= get_time_remaining game_time x)%Q).
      { destruct Hx as [<- | Hx]; [apply Qle_refl | apply Fl, Hx]. }
      rewrite Ex, <- Er in H. apply Qle_not_lt in H. contradiction.
Qed.

Lemma mergesort_fuel_spec (game_time : Q) (fuel : nat) :
  forall orders : list Order,
    (length orders <= fuel)%nat ->
    Permutation (mergesort_fuel fuel orders game_time) orders /\
    StronglySorted (SortSpec.by_deadline game_time) (mergesort_fuel fuel orders game_time) /\
    (forall k : Q,
       SortSpec.with_deadline game_time k (mergesort_fuel fuel orders game_time)
       = SortSpec.with_deadline game_time k orders).
Proof.
  induction fuel as [|fuel IH]; intros orders Hlen.
  - destruct orders; [|cbn in Hlen; lia]. cbn. repeat split; auto. constructor.
  - cbn [mergesort_fuel].
    destruct (Nat.leb_spec (length orders) 1) as [H1|H1].
    + repeat split; auto.
      destruct orders as [|a [|b rest]]; [constructor | repeat constructor |].
      cbn in H1. lia.
    + set (mid := (length orders / 2)%nat).
      assert (Hmid : (1 <= mid < length orders)%nat).
      { subst mid. split.
        - apply Nat.div_le_lower_bound; lia.
        - apply Nat.Div0.div_lt_upper_bound. lia. }
      assert (Hf : (length (firstn mid orders) <= fuel)%nat)
        by (rewrite length_firstn; lia).
      assert (Hs : (length (skipn mid orders) <= fuel)%nat)
        by (rewrite length_skipn; lia).
      destruct (IH _ Hf) as (Pl & Sl & Fl).
      destruct (IH _ Hs) as (Pr & Sr & Fr).
      split; [|split].
      * rewrite merge_Permutation, Pl, Pr, firstn_skipn. reflexivity.
      * apply merge_sorted; assumption.
      * intros k. rewrite merge_stable by exact Sl. rewrite Fl, Fr.
        unfold SortSpec.with_deadline.
        rewrite <- List.filter_app, firstn_skipn. reflexivity.
Qed.

(** X2: [mergesort_by_deadline] returns the orders it was given, least time
    remaining first, and orders with the same time remaining in the order
    they had in the input. *)
Theorem mergesort_by_deadline_sorts (orders : list Order) (game_time : Q) :
  Permutation (mergesort_by_deadline orders game_time) orders /\
  StronglySorted (SortSpec.by_deadline game_time) (mergesort_by_deadline orders game_time) /\
  (forall k : Q,
     SortSpec.with_deadline game_time k (mergesort_by_deadline orders game_time)
     = SortSpec.with_deadline game_time k orders).
Proof. apply mergesort_fuel_spec. lia. Qed.

End SortingFacts2.
Section SortingFacts3.
Import SortingAlgorithms.

Lemma insert_middle (a : list Order) (h x : Order) (b : list Order) :
  <[length a := x]> (a ++ h :: b) = a ++ x :: b.
Proof.
  rewrite insert_app_r_alt by lia. rewrite Nat.sub_diag. reflexivity.
Qed.

(** The inner loop moves the free slot down past the orders that are
    farther away than the key. *)
Lemma shift_spec (player_pos : Position) (kd : Z) (a : list Order) :
  forall (h : Order) (b : list Order),
  exists (a1 a2 : list Order) (h' : Order),
    a = a1 ++ a2 /\
    Forall (fun o => kd < manhattan_distance player_pos o) a2 /\
    (forall a0 x, a1 = a0 ++ [x] -> manhattan_distance player_pos x <= kd) /\
    shift player_pos kd (a ++ h :: b) (length a) = (a1 ++ h' :: a2 ++ b, length a1).
Proof.
  induction a as [|x a' IH] using rev_ind; intros h b.
  - exists [], [], h. cbn. repeat split; auto.
    intros a0 x E. destruct a0; discriminate.
  - rewrite length_app. cbn [length]. rewrite Nat.add_1_r. cbn [shift].
    rewrite <- app_assoc. cbn [app].
    rewrite (list_lookup_middle a' (h :: b) x (length a') eq_refl).
    destruct (Z.ltb_spec kd (manhattan_distance player_pos x)) as [Hx|Hx].
    + replace (<[S (length a') := x]> (a' ++ x :: h :: b)) with (a' ++ x :: x :: b).
      2:{ change (a' ++ x :: h :: b) with (a' ++ [x] ++ h :: b).
          rewrite app_assoc.
          replace (S (length a')) with (length (a' ++ [x]))
            by (rewrite length_app; cbn; lia).
          rewrite insert_middle, <- app_assoc. reflexivity. }
      destruct (IH x (x :: b)) as (a1 & a2 & h' & Ea & Fa & La & Es).
      exists a1, (a2 ++ [x]), h'. split; [|split; [|split]].
      * rewrite Ea, app_assoc. reflexivity.
      * apply List.Forall_app. split; [exact Fa|]. repeat constructor. exact Hx.
      * exact La.
      * rewrite Es. rewrite <- (app_assoc a2). reflexivity.
    + exists (a' ++ [x]), [], h. split; [|split; [|split]].
      * rewrite app_nil_r. reflexivity.
      * constructor.
      * intros a0 y E. apply app_inj_tail in E as [_ <-]. exact Hx.
      * rewrite length_app. cbn [length app]. rewrite Nat.add_1_r, <- app_assoc.
        reflexivity.
Qed.

Lemma sorted_last_bound (player_pos : Position) (kd : Z) (a1 : list Order) :
  StronglySorted (SortSpec.by_distance player_pos) a1 ->
  (forall a0 x, a1 = a0 ++ [x] -> manhattan_distance player_pos x <= kd) ->
  Forall (fun o => manhattan_distance player_pos o <= kd) a1.
Proof.
  intros Hs Hl. destruct a1 as [|y a1'] using rev_ind; [constructor|].
  clear IHa1'. specialize (Hl a1' y eq_refl).
  apply StronglySorted_app_iff in Hs as (_ & _ & Hc).
  apply List.Forall_app. split; [|repeat constructor; exact Hl].
  apply List.Forall_forall. intros o Ho.
  specialize (Hc o y Ho (or_introl eq_refl)). unfold SortSpec.by_distance in Hc. lia.
Qed.

(** One round of the outer loop puts the order at index [i] into the
    sorted part before it. *)
Lemma insertion_step_spec (player_pos : Position) (a : list Order)
    (key : Order) (post : list Order) :
  StronglySorted (SortSpec.by_distance player_pos) a ->
  exists a' : list Order,
    insertion_step player_pos (a ++ key :: post) (length a) = a' ++ post /\
    length a' = S (length a) /\
    Permutation a' (a ++ [key]) /\
    StronglySorted (SortSpec.by_distance player_pos) a' /\
    (forall k, SortSpec.at_distance player_pos k a'
               = SortSpec.at_distance player_pos k (a ++ [key])).
Proof.
  intros Hs. unfold insertion_step.
  rewrite (list_lookup_middle a post key (length a) eq_refl).
  destruct (shift_spec player_pos (manhattan_distance player_pos key) a key post)
    as (a1 & a2 & h' & Ea & Fa & La & Es).
  rewrite Es, insert_middle. subst a.
  apply StronglySorted_app_iff in Hs as (S1 & S2 & Hc).
  pose proof (sorted_last_bound _ _ _ S1 La) as F1.
  rewrite List.Forall_forall in F1, Fa.
  exists (a1 ++ key :: a2). split; [|split; [|split; [|split]]].
  - rewrite <- app_assoc. reflexivity.
  - rewrite !length_app. cbn [length]. lia.
  - rewrite <- app_assoc. apply Permutation_app_head.
    change (key :: a2) with ([key] ++ a2). apply Permutation_app_comm.
  - apply StronglySorted_app_iff. split; [exact S1|]. split.
    + constructor; [exact S2|]. apply List.Forall_forall. intros o Ho.
      specialize (Fa o Ho). unfold SortSpec.by_distance. lia.
    + intros x y Hx [<- | Hy].
      * apply F1, Hx.
      * apply Hc; assumption.
  - intros k. unfold SortSpec.at_distance.
    rewrite !List.filter_app. cbn [List.filter].
    destruct (Z.eqb_spec (manhattan_distance player_pos key) k) as [Ek|Ek].
    + rewrite (filter_none _ a2).
      * rewrite app_nil_r. reflexivity.
      * apply List.Forall_forall. intros o Ho. specialize (Fa o Ho).
        apply Z.eqb_neq. lia.
    + rewrite !app_nil_r. reflexivity.
Qed.

Lemma insertion_loop_spec (player_pos : Position) (m : nat) :
  forall (a post : list Order),
    StronglySorted (SortSpec.by_distance player_pos) a ->
    (m <= length post)%nat ->
    exists a' : list Order,
      fold_left (insertion_step player_pos) (seq (length a) m) (a ++ post)
      = a' ++ skipn m post /\
      Permutation a' (a ++ firstn m post) /\
      StronglySorted (SortSpec.by_distance player_pos) a' /\
      (forall k, SortSpec.at_distance player_pos k a'
                 = SortSpec.at_distance player_pos k (a ++ firstn m post)).
Proof.
  induction m as [|m IH]; intros a post Hs Hm.
  - exists a. cbn. rewrite app_nil_r. repeat split; auto.
  - destruct post as [|key post]; [cbn in Hm; lia|].
    cbn [seq fold_left skipn firstn].
    destruct (insertion_step_spec player_pos a key post Hs)
      as (a1 & E1 & L1 & P1 & S1 & F1).
    rewrite E1, <- L1.
    destruct (IH a1 post S1) as (a' & E' & P' & S' & F'); [cbn in Hm; lia|].
    exists a'. split; [exact E'|]. split; [|split; [exact S'|]].
    + rewrite P', P1, <- app_assoc. reflexivity.
    + intros k. rewrite F'. unfold SortSpec.at_distance in *.
      rewrite !List.filter_app, F1, List.filter_app, <- app_assoc.
      change (key :: firstn m post) with ([key] ++ firstn m post).
      rewrite List.filter_app. reflexivity.
Qed.

Lemma insertion_sort_spec (orders : list Order) (player_pos : Position) :
  Permutation (insertion_sort_by_distance orders player_pos) orders /\
  StronglySorted (SortSpec.by_distance player_pos)
    (insertion_sort_by_distance orders player_pos) /\
  (forall k : Z,
     SortSpec.at_distance player_pos k (insertion_sort_by_distance orders player_pos)
     = SortSpec.at_distance player_pos k orders).
Proof.
  unfold insertion_sort_by_distance.
  destruct orders as [|first rest].
  - cbn. repeat split; auto. constructor.
  - cbn [length]. rewrite Nat.sub_succ, Nat.sub_0_r.
    destruct (insertion_loop_spec player_pos (length rest) [first] rest)
      as (a' & E & P & S & F); [repeat constructor | lia |].
    cbn [length app] in E. rewrite E.
    rewrite skipn_all, app_nil_r. rewrite firstn_all in P, F.
    repeat split; assumption.
Qed.

(** X3: [insertion_sort_by_distance] returns the orders it was given, nearest
    pickup first, and orders at the same distance in the order they had in
    the input. *)
Theorem insertion_sort_by_distance_sorts (orders : list Order) (player_pos : Position) :
  Permutation (insertion_sort_by_distance orders player_pos) orders /\
  StronglySorted (SortSpec.by_distance player_pos)
    (insertion_sort_by_distance orders player_pos) /\
  (forall k : Z,
     SortSpec.at_distance player_pos k (insertion_sort_by_distance orders player_pos)
     = SortSpec.at_distance player_pos k orders).
Proof. apply insertion_sort_spec. Qed.

End SortingFacts3.
(** ** More on the active-order container *)

Section QueueFacts.
Import OptimizedPriorityQueue.

Lemma filter_all {A} (f : A -> bool) (l : list A) :
  Forall (fun x => f x = true) l -> List.filter f l = l.
Proof.
  induction 1 as [|y l Hy _ IH]; cbn [List.filter]; [reflexivity|].
  rewrite Hy, IH. reflexivity.
Qed.

(** Where [enqueue] puts the item in a sorted list. *)
Lemma enqueue_position (item : Order) (items : list Order) :
  sorted_desc items ->
  exists k : nat,
    enqueue item items = firstn k items ++ item :: skipn k items /\
    Forall (fun x => priority item <= priority x) (firstn k items) /\
    Forall (fun x => priority x < priority item) (skipn k items).
Proof.
  intros Hs. unfold enqueue.
  destruct items as [|x0 l0] eqn:E.
  - exists 0%nat. cbn. repeat split; constructor.
  - rewrite <- E in *. clear E x0 l0.
    destruct (bisect_spec items item Hs (length items) 0 (length items))
      as (Hk & Hlo & Hhi); try lia.
    set (k := bisect (length items) items item 0 (length items)) in *.
    exists k. split; [reflexivity|]. split.
    + apply List.Forall_forall. intros a Ha.
      destruct (In_firstn_nth items item a k Ha) as (i & Hi & Hl & ->). auto.
    + apply List.Forall_forall. intros b Hb.
      destruct (In_skipn_nth items item b k Hb) as (i & Hi & Hl & ->). auto.
Qed.

Lemma Position_eqb_refl (p : Position) : Position_eqb p p = true.
Proof. unfold Position_eqb. rewrite !Z.eqb_refl. reflexivity. Qed.

Lemma Order_eqb_refl (o : Order) : Order_eqb o o = true.
Proof.
  unfold Order_eqb.
  rewrite String.eqb_refl, !Position_eqb_refl, !Z.eqb_refl, !Qeq_bool_refl.
  destruct (status o); reflexivity.
Qed.

Lemma list_remove_absent (x : Order) (l : list Order) :
  Forall (fun y => Order_eqb y x = false) l -> list_remove x l = None.
Proof.
  induction 1 as [|y l Hy _ IH]; cbn [list_remove]; [reflexivity|].
  rewrite Hy, IH. reflexivity.
Qed.

Lemma list_remove_middle (x : Order) (l1 l2 : list Order) :
  Forall (fun y => Order_eqb y x = false) l1 ->
  list_remove x (l1 ++ x :: l2) = Some (l1 ++ l2).
Proof.
  induction 1 as [|y l Hy _ IH]; cbn [list_remove app].
  - rewrite Order_eqb_refl. reflexivity.
  - rewrite Hy, IH. reflexivity.
Qed.

(** X4: in a container in priority order, [enqueue] puts the order behind
    every order whose priority is at least its own and in front of every
    order of lower priority: among orders of one priority the container is
    first in, first out. *)
Theorem enqueue_behind_equal_priority (item : Order) (items : list Order) :
  sorted_desc items ->
  enqueue item items
  = List.filter (fun x => priority item <=? priority x) items
    ++ item :: List.filter (fun x => priority x <? priority item) items.
Proof.
  intros Hs.
  destruct (enqueue_position item items Hs) as (k & -> & Hlo & Hhi).
  rewrite <- (firstn_skipn k items) at 3 4.
  rewrite !List.filter_app.
  rewrite (filter_all _ (firstn k items)).
  2:{ eapply List.Forall_impl; [|exact Hlo]. cbn. intros a Ha. apply Z.leb_le, Ha. }
  rewrite (filter_none _ (skipn k items)).
  2:{ eapply List.Forall_impl; [|exact Hhi]. cbn. intros a Ha. apply Z.leb_gt, Ha. }
  rewrite (filter_none _ (firstn k items)).
  2:{ eapply List.Forall_impl; [|exact Hlo]. cbn. intros a Ha. apply Z.ltb_ge, Ha. }
  rewrite (filter_all _ (skipn k items)).
  2:{ eapply List.Forall_impl; [|exact Hhi]. cbn. intros a Ha. apply Z.ltb_lt, Ha. }
  rewrite app_nil_r. reflexivity.
Qed.

(** X5: [remove] of an order that the container does not hold returns
    [False] and leaves the items as they are; and when the container holds
    no order equal to [item], [remove] after [enqueue] returns [True] and
    gives back the items as they were before. *)
Theorem enqueue_remove_roundtrip (item : Order) (items : list Order) :
  Forall (fun y => Order_eqb y item = false) items ->
  remove item items = (false, items) /\
  remove item (enqueue item items) = (true, items).
Proof.
  intros Ha. unfold remove. split.
  - rewrite list_remove_absent by exact Ha. reflexivity.
  - unfold enqueue. destruct items as [|x0 l0] eqn:E.
    + cbn. rewrite Order_eqb_refl. reflexivity.
    + rewrite <- E in *. unfold list_insert.
      set (k := bisect _ _ _ _ _).
      rewrite list_remove_middle.
      * rewrite firstn_skipn. reflexivity.
      * rewrite <- (firstn_skipn k items) in Ha. apply List.Forall_app in Ha. tauto.
Qed.

End QueueFacts.
(** ** Walkable positions *)

Section PositionFacts.
Import CourierQuest.

Lemma In_range (lo hi i : Z) : In i (range lo hi) <-> lo <= i < hi.
Proof.
  unfold range. rewrite in_map_iff. split.
  - intros (n & <- & Hn). apply in_seq in Hn. lia.
  - intros H. exists (Z.to_nat (i - lo)). split; [lia|]. apply in_seq. lia.
Qed.

Lemma In_board_cells (g : t) (x y : Z) :
  In (x, y) (board_cells g) <-> 0 <= x < city_width g /\ 0 <= y < city_height g.
Proof.
  unfold board_cells. rewrite in_flat_map. split.
  - intros (ty & Hy & Hin). apply in_map_iff in Hin as (tx & E & Hx).
    inversion E; subst. apply In_range in Hx, Hy. lia.
  - intros [Hx Hy]. exists y. split; [apply In_range; lia|].
    apply in_map_iff. exists x. split; [reflexivity | apply In_range; lia].
Qed.

Lemma walkable_in_bounds (g : t) (x y : Z) :
  _is_position_walkable g x y = true ->
  0 <= x < city_width g /\ 0 <= y < city_height g.
Proof.
  unfold _is_position_walkable.
  destruct (Z.leb_spec 0 x), (Z.ltb_spec x (city_width g)),
    (Z.leb_spec 0 y), (Z.ltb_spec y (city_height g)); cbn; try discriminate.
  lia.
Qed.

(** The search for a walkable cell: the result is walkable as soon as the
    board has a walkable cell. *)
Lemma nearest_walkable (g : t) (x y : Z) :
  (exists cx cy, _is_position_walkable g cx cy = true) ->
  let p := _find_nearest_walkable_position g x y in
  _is_position_walkable g (pos_x p) (pos_y p) = true.
Proof.
  intros (cx & cy & Hc). unfold _find_nearest_walkable_position.
  destruct (find _ (ring_cells g x y)) as [[nx ny]|] eqn:E1.
  - apply find_some in E1 as [_ H]. exact H.
  - destruct (find _ (board_cells g)) as [[tx ty]|] eqn:E2.
    + apply find_some in E2 as [_ H]. exact H.
    + exfalso. pose proof (find_none _ _ E2 (cx, cy)) as H. cbn in H.
      rewrite Hc in H. specialize (H (proj2 (In_board_cells g cx cy)
                                        (walkable_in_bounds g cx cy Hc))).
      discriminate.
Qed.

Lemma fix_order_positions_walkable (g : t) (order : Order) :
  (exists cx cy, _is_position_walkable g cx cy = true) ->
  _validate_order_positions g (_fix_order_positions g order) = true.
Proof.
  intros Hw. unfold _fix_order_positions, _validate_order_positions.
  destruct (_is_position_walkable g (pos_x (pickup order)) (pos_y (pickup order)))
    eqn:Ep; cbn [negb].
  - destruct (_is_position_walkable g (pos_x (dropoff order)) (pos_y (dropoff order)))
      eqn:Ed; cbn [negb].
    + rewrite Ep, Ed. reflexivity.
    + cbn. rewrite Ep. cbn. apply nearest_walkable, Hw.
  - cbn [dropoff set_pickup].
    destruct (_is_position_walkable g (pos_x (dropoff order)) (pos_y (dropoff order)))
      eqn:Ed; cbn [negb].
    + cbn. rewrite Ed, andb_true_r. apply nearest_walkable, Hw.
    + cbn. rewrite andb_true_iff. split; apply nearest_walkable, Hw.
Qed.

(** X6: in a game whose board has a walkable cell,
    [_find_nearest_walkable_position] returns a walkable cell, and
    [_fix_order_positions] returns an order whose pickup and dropoff are both
    walkable; it changes no other attribute of the order, and an order whose
    positions are walkable already comes back as it is.  On a board without
    a walkable cell the search returns (1, 1). *)
Theorem fix_order_positions_valid (g : t) (order : Order) :
  let fixed := _fix_order_positions g order in
  ((exists cx cy, _is_position_walkable g cx cy = true) ->
   (forall x y,
      let p := _find_nearest_walkable_position g x y in
      _is_position_walkable g (pos_x p) (pos_y p) = true) /\
   _validate_order_positions g fixed = true) /\
  ((forall cx cy, _is_position_walkable g cx cy = false) ->
   forall x y, _find_nearest_walkable_position g x y = mkPosition 1 1) /\
  fixed = set_dropoff (dropoff fixed) (set_pickup (pickup fixed) order) /\
  (_validate_order_positions g order = true -> fixed = order).
Proof.
  intros fixed. split; [|split; [|split]].
  - intros Hw. split; [intros x y; apply nearest_walkable, Hw|].
    apply fix_order_positions_walkable, Hw.
  - intros Hn x y. unfold _find_nearest_walkable_position.
    destruct (find _ (ring_cells g x y)) as [[nx ny]|] eqn:E1.
    + apply find_some in E1 as [_ H]. cbn in H. rewrite Hn in H. discriminate.
    + destruct (find _ (board_cells g)) as [[tx ty]|] eqn:E2; [|reflexivity].
      apply find_some in E2 as [_ H]. cbn in H. rewrite Hn in H. discriminate.
  - subst fixed. unfold _fix_order_positions.
    destruct order as [i pk dr py du wt pr rt st ca aa]; cbn.
    destruct (_is_position_walkable g (pos_x pk) (pos_y pk));
      cbn; destruct (_is_position_walkable g (pos_x dr) (pos_y dr));
      reflexivity.
  - subst fixed. unfold _fix_order_positions, _validate_order_positions.
    intros H. apply andb_true_iff in H as [Hp Hd]. rewrite Hp. cbn [negb].
    rewrite Hd. reflexivity.
Qed.

End PositionFacts.
Section StartFacts.
Import CourierQuest.

Lemma insert_by_release_time_Permutation (order : Order) (sorted : list Order) :
  Permutation (insert_by_release_time order sorted) (order :: sorted).
Proof.
  induction sorted as [|first rest IH]; cbn [insert_by_release_time]; [reflexivity|].
  destruct (release_time order <=? release_time first); [reflexivity|].
  rewrite IH. apply perm_swap.
Qed.

Lemma insert_by_release_time_sorted (order : Order) (sorted : list Order) :
  StronglySorted ReleaseSpec.by_release_time sorted ->
  StronglySorted ReleaseSpec.by_release_time (insert_by_release_time order sorted).
Proof.
  induction 1 as [|first rest Hs IH Hf]; cbn [insert_by_release_time].
  - repeat constructor.
  - destruct (Z.leb_spec (release_time order) (release_time first)) as [Hle|Hgt].
    + constructor; [constructor; assumption|].
      constructor; [exact Hle|].
      rewrite List.Forall_forall in *. intros x Hx. specialize (Hf x Hx).
      unfold ReleaseSpec.by_release_time in *. lia.
    + constructor; [exact IH|].
      rewrite List.Forall_forall in *. intros x Hx.
      apply (Permutation_in _ (insert_by_release_time_Permutation _ _)) in Hx.
      destruct Hx as [<- | Hx]; [|apply Hf, Hx].
      unfold ReleaseSpec.by_release_time. lia.
Qed.

Lemma sorted_by_release_time_spec (orders : list Order) :
  Permutation (sorted_by_release_time orders) orders /\
  StronglySorted ReleaseSpec.by_release_time (sorted_by_release_time orders).
Proof.
  unfold sorted_by_release_time.
  induction orders as [|order orders [IHp IHs]]; cbn [fold_right].
  - split; constructor.
  - split.
    + rewrite insert_by_release_time_Permutation, IHp. reflexivity.
    + apply insert_by_release_time_sorted, IHs.
Qed.

(** X7: [_find_valid_starting_position] returns a walkable cell exactly when
    the top-left block of 10 x 10 cells, cut to the board, has one;
    otherwise it returns (1, 1), which is then not walkable. *)
Theorem starting_position_walkable (g : t) :
  let p := _find_valid_starting_position g in
  (_is_position_walkable g (pos_x p) (pos_y p) = true <->
   exists x y, StartSpec.in_corner g x y /\ _is_position_walkable g x y = true) /\
  (_is_position_walkable g (pos_x p) (pos_y p) = false -> p = mkPosition 1 1).
Proof.
  intros p. subst p. unfold _find_valid_starting_position.
  set (walkable := fun c : Z * Z => _is_position_walkable g (fst c) (snd c)).
  set (common := [(2, 2); (3, 3); (1, 1); (4, 4); (5, 5); (2, 3); (3, 2); (1, 2); (2, 1)]).
  set (corner := flat_map _ _).
  assert (Hcorner : forall x y, In (x, y) corner <-> StartSpec.in_corner g x y).
  { intros x y. subst corner. unfold StartSpec.in_corner. rewrite in_flat_map. split.
    - intros (ty & Hy & Hin). apply in_map_iff in Hin as (tx & E & Hx).
      inversion E; subst. apply In_range in Hx, Hy. lia.
    - intros [Hx Hy]. exists y. split; [apply In_range; lia|].
      apply in_map_iff. exists x. split; [reflexivity | apply In_range; lia]. }
  assert (Hcommon : forall x y, In (x, y) common -> walkable (x, y) = true ->
                                StartSpec.in_corner g x y).
  { intros x y Hin Hw. apply walkable_in_bounds in Hw. cbn [fst snd] in Hw.
    unfold StartSpec.in_corner.
    cbn in Hin.
    repeat (destruct Hin as [Hin|Hin]; [inversion Hin; subst; lia|]).
    contradiction. }
  destruct (find walkable common) as [[x y]|] eqn:E1.
  - apply find_some in E1 as [Hin Hw]. cbn [pos_x pos_y]. split.
    + split; [|intros _; exact Hw].
      intros _. exists x, y. split; [apply Hcommon; assumption | exact Hw].
    + unfold walkable in Hw. cbn [fst snd] in Hw. intros H. congruence.
  - destruct (find walkable corner) as [[x y]|] eqn:E2.
    + apply find_some in E2 as [Hin Hw]. cbn [pos_x pos_y]. split.
      * split; [|intros _; exact Hw].
        intros _. exists x, y. split; [apply Hcorner, Hin | exact Hw].
      * unfold walkable in Hw. cbn [fst snd] in Hw. intros H. congruence.
    + cbn [pos_x pos_y]. split; [|reflexivity].
      assert (H11 : _is_position_walkable g 1 1 = false).
      { apply (find_none _ _ E1 (1, 1)). subst common. cbn. tauto. }
      rewrite H11.
      split; [discriminate|].
      intros (x & y & Hin & Hw).
      pose proof (find_none _ _ E2 (x, y) (proj2 (Hcorner x y) Hin)) as H.
      unfold walkable in H. cbn [fst snd] in H. congruence.
Qed.

Lemma validated_set_pending (v : list Order) (g : t) (order : Order) :
  StartSpec.validated (set_pending_orders v g) order = StartSpec.validated g order.
Proof. destruct g. reflexivity. Qed.

Lemma validate_set_pending (v : list Order) (g : t) (order : Order) :
  _validate_order_positions (set_pending_orders v g) order
  = _validate_order_positions g order.
Proof. destruct g. reflexivity. Qed.

Lemma walkable_set_pending (v : list Order) (g : t) (x y : Z) :
  _is_position_walkable (set_pending_orders v g) x y = _is_position_walkable g x y.
Proof. destruct g. reflexivity. Qed.

(** X8: after [initialize_game_data] the backlog holds the orders it held
    before and the orders received, each of these with its positions
    repaired where they were not walkable, sorted by release time; when the
    board has a walkable cell, every order received has a walkable pickup
    and a walkable dropoff.  The board, the goal and the time limit are
    those of the map, and the player stands on the starting position. *)
Theorem initialize_game_data_backlog (map_data : MapData) (orders_data : list Order)
    (g : t) :
  let g' := initialize_game_data map_data orders_data g in
  Permutation (pending_orders g')
    (pending_orders g ++ map (StartSpec.validated g') orders_data) /\
  StronglySorted ReleaseSpec.by_release_time (pending_orders g') /\
  ((exists cx cy, _is_position_walkable g' cx cy = true) ->
   Forall (fun order => _validate_order_positions g' order = true)
     (map (StartSpec.validated g') orders_data)) /\
  player_pos g' = _find_valid_starting_position g' /\
  (city_width g', city_height g', tiles g', legend g')
  = (md_width map_data, md_height map_data, md_tiles map_data, md_legend map_data) /\
  (goal g', city_name g', max_game_time g')
  = (md_goal map_data, md_city_name map_data, md_max_time map_data).
Proof.
  intros g'. subst g'. unfold initialize_game_data.
  set (g1 := set_player_pos _ _).
  fold (StartSpec.validated g1).
  set (pend := sorted_by_release_time _).
  assert (Hp : pending_orders (set_pending_orders pend g1) = pend)
    by apply pending_orders_set_pending.
  rewrite Hp.
  assert (Hv : map (StartSpec.validated (set_pending_orders pend g1)) orders_data
               = map (StartSpec.validated g1) orders_data).
  { apply map_ext. intros o. apply validated_set_pending. }
  rewrite Hv.
  destruct (sorted_by_release_time_spec
              (pending_orders g1 ++ map (StartSpec.validated g1) orders_data))
    as [HP HS].
  fold pend in HP, HS.
  split; [|split; [exact HS|split; [|split; [|split]]]].
  - rewrite HP. subst g1. destruct g. reflexivity.
  - intros (cx & cy & Hc). rewrite walkable_set_pending in Hc.
    apply List.Forall_forall. intros o Ho.
    apply in_map_iff in Ho as (o0 & <- & _).
    rewrite validate_set_pending. unfold StartSpec.validated.
    destruct (_validate_order_positions g1 o0) eqn:E; cbn [negb]; [exact E|].
    apply fix_order_positions_walkable. exists cx, cy. exact Hc.
  - subst g1. destruct g. reflexivity.
  - subst g1. destruct g. reflexivity.
  - subst g1. destruct g. reflexivity.
Qed.

End StartFacts.
(** ** More on the expiry sweep *)

Section ExpiryMore.
Import CourierQuest.

Lemma OrderStatus_eqb_eq (a b : OrderStatus) : OrderStatus_eqb a b = true -> a = b.
Proof. destruct a, b; cbn; congruence. Qed.

(** Orders that [==] does not tell apart have the same time remaining. *)
Lemma Order_eqb_time_remaining (g : t) (a b : Order) :
  Order_eqb a b = true ->
  (get_order_time_remaining g a == get_order_time_remaining g b)%Q.
Proof.
  unfold Order_eqb. rewrite !andb_true_iff.
  intros ((((((((((_ & _) & _) & _) & Hd) & _) & _) & _) & Hs) & Hc) & _).
  apply OrderStatus_eqb_eq in Hs. apply Qeq_bool_iff in Hd, Hc.
  unfold get_order_time_remaining. rewrite <- Hs.
  destruct (status a); cbv zeta; rewrite ?Hd, ?Hc; reflexivity.
Qed.

Lemma Order_eqb_timed_out (g : t) (a b : Order) :
  Order_eqb a b = true -> DeliverySpec.timed_out g a = DeliverySpec.timed_out g b.
Proof.
  intros H. unfold DeliverySpec.timed_out.
  rewrite (Order_eqb_time_remaining g a b H). reflexivity.
Qed.

(** What a scanning loop leaves in the container: the orders that have
    time left, in their order. *)
Lemma sweep_snd (g : t) (orders : list Order) :
  forall kept expired : list Order,
    Forall (fun o => DeliverySpec.timed_out g o = false) kept ->
    snd (fold_left
           (fun acc order =>
              if Qle_bool (get_order_time_remaining g order) 0
              then (fst acc ++ [order], default (snd acc) (list_remove order (snd acc)))
              else acc)
           orders (expired, kept ++ orders))
    = kept ++ List.filter (fun o => negb (DeliverySpec.timed_out g o)) orders.
Proof.
  induction orders as [|order orders IH]; intros kept expired Hk;
    cbn [fold_left List.filter]; [reflexivity|].
  fold (DeliverySpec.timed_out g order).
  destruct (DeliverySpec.timed_out g order) eqn:E; cbn [fst snd negb].
  - rewrite list_remove_middle.
    + cbn [default]. apply IH, Hk.
    + eapply List.Forall_impl; [|exact Hk]. cbn. intros o Ho.
      destruct (Order_eqb o order) eqn:Eo; [|reflexivity].
      rewrite (Order_eqb_timed_out g o order Eo) in Ho. congruence.
  - replace (kept ++ order :: orders) with ((kept ++ [order]) ++ orders)
      by (rewrite <- app_assoc; reflexivity).
    rewrite IH.
    + rewrite <- app_assoc. reflexivity.
    + apply List.Forall_app. split; [exact Hk|]. repeat constructor. exact E.
Qed.

Lemma penalties_shape (expired : list Order) (g : t) :
  expired <> [] ->
  fold_left
    (fun g (order : Order) =>
       set_last_delivery_was_clean false
         (set_delivery_streak 0 (set_reputation (reputation g - 6) g)))
    expired g
  = set_last_delivery_was_clean false
      (set_delivery_streak 0
         (set_reputation (reputation g - 6 * Z.of_nat (length expired)) g)).
Proof.
  revert g. induction expired as [|order expired IH]; intros g Hne; [congruence|].
  destruct expired as [|order' expired].
  - cbn [fold_left length]. destruct g; reflexivity.
  - cbn [fold_left] in *. rewrite IH by discriminate.
    cbn [length]. destruct g; cbn. f_equal. lia.
Qed.

Lemma filter_alive_all (g : t) (l : list Order) :
  List.filter (DeliverySpec.timed_out g) l = [] ->
  List.filter (fun o => negb (DeliverySpec.timed_out g o)) l = l.
Proof.
  induction l as [|o l IH]; cbn [List.filter]; [reflexivity|].
  destruct (DeliverySpec.timed_out g o); cbn [negb]; [discriminate|].
  intros H. rewrite IH by exact H. reflexivity.
Qed.

Lemma filter_sorted (f : Order -> bool) (l : list Order) :
  OptimizedPriorityQueue.sorted_desc l ->
  OptimizedPriorityQueue.sorted_desc (List.filter f l).
Proof.
  unfold OptimizedPriorityQueue.sorted_desc.
  induction 1 as [|o l Hs IH Hf]; cbn [List.filter]; [constructor|].
  destruct (f o); [|exact IH]. constructor; [exact IH|].
  rewrite List.Forall_forall in *. intros x Hx. apply filter_In in Hx as [Hx _].
  apply Hf, Hx.
Qed.

Lemma check_expired_orders_eq (g : t) :
  let alive := fun o => negb (DeliverySpec.timed_out g o) in
  let n := Z.of_nat (length (DeliverySpec.expired_orders g)) in
  _check_expired_orders g
  = (if n =? 0 then g
     else set_last_delivery_was_clean false
            (set_delivery_streak 0
               (set_reputation (reputation g - 6 * n)
                  (set_inventory (List.filter alive (inventory g))
                     (set_available_orders
                        (List.filter alive (available_orders g)) g))))).
Proof.
  intros alive n. subst n.
  unfold _check_expired_orders, sweep, DeliverySpec.expired_orders.
  pose proof (sweep_fst g (available_orders g) (available_orders g) []) as H1.
  pose proof (sweep_snd g (available_orders g) [] [] (List.Forall_nil _)) as H1'.
  cbn [app] in H1, H1'.
  destruct (fold_left _ (available_orders g) _) as [expired1 items].
  cbn [fst snd] in H1, H1'. subst expired1 items.
  pose proof (sweep_fst g (inventory g) (inventory g)
                (List.filter (DeliverySpec.timed_out g) (available_orders g))) as H2.
  pose proof (sweep_snd g (inventory g) []
                (List.filter (DeliverySpec.timed_out g) (available_orders g))
                (List.Forall_nil _)) as H2'.
  cbn [app] in H2'.
  destruct (fold_left _ (inventory g) _) as [expired2 inv].
  cbn [fst snd] in H2, H2'. subst expired2 inv.
  fold alive.
  set (expired := List.filter (DeliverySpec.timed_out g) (available_orders g)
                  ++ List.filter (DeliverySpec.timed_out g) (inventory g)).
  destruct expired as [|e expired'] eqn:E.
  - cbn [length fold_left]. cbn.
    subst expired. apply app_eq_nil in E as [Ea Ei].
    unfold alive. rewrite (filter_alive_all g _ Ea), (filter_alive_all g _ Ei).
    destruct g; reflexivity.
  - rewrite <- E. rewrite penalties_shape by (rewrite E; discriminate).
    replace (Z.of_nat (length expired) =? 0) with false
      by (rewrite E; cbn [length]; symmetry; apply Z.eqb_neq; lia).
    destruct g; reflexivity.
Qed.

(** The sweep writes five attributes and no other. *)
Lemma check_expired_orders_shape (g : t) :
  let g' := _check_expired_orders g in
  g' = set_last_delivery_was_clean (last_delivery_was_clean g')
         (set_delivery_streak (delivery_streak g')
            (set_reputation (reputation g')
               (set_inventory (inventory g')
                  (set_available_orders (available_orders g') g)))).
Proof.
  intros g'. subst g'. rewrite check_expired_orders_eq. cbv zeta.
  destruct (_ =? 0); destruct g; reflexivity.
Qed.

(** X9: [_check_expired_orders] takes out of the container and out of the
    inventory exactly the orders without time left and keeps the others in
    their order, so a container in priority order stays so.  When no order
    has timed out the game is left as it is; otherwise the streak is set to
    0, the clean flag is cleared, 6 points of reputation go for each
    timed-out order, and nothing else changes. *)
Theorem check_expired_orders_effect (g : t) :
  let alive := fun o => negb (DeliverySpec.timed_out g o) in
  let n := Z.of_nat (length (DeliverySpec.expired_orders g)) in
  let g' := _check_expired_orders g in
  g' = (if n =? 0 then g
        else set_last_delivery_was_clean false
               (set_delivery_streak 0
                  (set_reputation (reputation g - 6 * n)
                     (set_inventory (List.filter alive (inventory g))
                        (set_available_orders
                           (List.filter alive (available_orders g)) g))))) /\
  available_orders g' = List.filter alive (available_orders g) /\
  inventory g' = List.filter alive (inventory g) /\
  (OptimizedPriorityQueue.sorted_desc (available_orders g) ->
   OptimizedPriorityQueue.sorted_desc (available_orders g')).
Proof.
  intros alive n g'.
  pose proof (check_expired_orders_eq g) as Heq. cbv zeta in Heq.
  fold alive n g' in Heq.
  assert (Ha : available_orders g' = List.filter alive (available_orders g)).
  { rewrite Heq. destruct (n =? 0) eqn:En; [|destruct g; reflexivity].
    apply Z.eqb_eq in En. subst n. unfold DeliverySpec.expired_orders in En.
    assert (E : List.filter (DeliverySpec.timed_out g) (available_orders g) = []).
    { destruct (List.filter (DeliverySpec.timed_out g) (available_orders g));
        [reflexivity | cbn in En; lia]. }
    unfold alive. rewrite (filter_alive_all g _ E). reflexivity. }
  assert (Hi : inventory g' = List.filter alive (inventory g)).
  { rewrite Heq. destruct (n =? 0) eqn:En; [|destruct g; reflexivity].
    apply Z.eqb_eq in En. subst n. unfold DeliverySpec.expired_orders in En.
    rewrite length_app in En.
    assert (E : List.filter (DeliverySpec.timed_out g) (inventory g) = []).
    { destruct (List.filter (DeliverySpec.timed_out g) (inventory g));
        [reflexivity | cbn in En; lia]. }
    unfold alive. rewrite (filter_alive_all g _ E). reflexivity. }
  split; [exact Heq|]. split; [exact Ha|]. split; [exact Hi|].
  intros Hs. rewrite Ha. apply filter_sorted, Hs.
Qed.

End ExpiryMore.
(** ** More on releasing orders *)

Section ReleaseMore.
Import CourierQuest.

Lemma release_loop_sorted (g : t) (batch : Z) (pending : list Order) :
  forall (items : list Order) (released_count current_active_orders : Z),
    OptimizedPriorityQueue.sorted_desc items ->
    OptimizedPriorityQueue.sorted_desc
      (snd (fst (release_loop g batch pending items released_count
                   current_active_orders))).
Proof.
  induction pending as [|first rest IH]; intros items rc ca Hs;
    cbn [release_loop]; [exact Hs|].
  destruct (_ && _ && _); [|exact Hs].
  apply IH, enqueue_sorted, Hs.
Qed.

Lemma released_valid (g : t) (order : Order) :
  (exists cx cy, _is_position_walkable g cx cy = true) ->
  _validate_order_positions g (ReleaseSpec.released g order) = true.
Proof.
  intros Hw. unfold ReleaseSpec.released.
  destruct (_validate_order_positions g order) eqn:E; cbn [negb].
  - exact E.
  - exact (fix_order_positions_walkable g order Hw).
Qed.

(** X10: [_process_order_releases] changes the backlog and the container
    only; no order is lost or made: the two together hold as many orders as
    before.  A container in priority order stays in priority order.  Every
    order in the container afterwards was there before or has just been
    released: its status is [available], its clock starts at the current
    game time, and, when the board has a walkable cell, its pickup and its
    dropoff are walkable. *)
Theorem process_order_releases_keeps_order (g : t) :
  let g' := _process_order_releases g in
  g' = set_available_orders (available_orders g')
         (set_pending_orders (pending_orders g') g) /\
  (length (pending_orders g') + length (available_orders g')
   = length (pending_orders g) + length (available_orders g))%nat /\
  (OptimizedPriorityQueue.sorted_desc (available_orders g) ->
   OptimizedPriorityQueue.sorted_desc (available_orders g')) /\
  Forall (fun o =>
            In o (available_orders g) \/
            (status o = available /\ created_at o = game_time g /\
             ((exists cx cy, _is_position_walkable g cx cy = true) ->
              _validate_order_positions g o = true)))
         (available_orders g').
Proof.
  intros g'. subst g'. unfold _process_order_releases.
  set (active := Z.of_nat (length (available_orders g))).
  pose proof (release_loop_spec g (orders_to_release active) (pending_orders g)
                (available_orders g) 0 active) as Hspec.
  pose proof (release_loop_sorted g (orders_to_release active) (pending_orders g)
                (available_orders g) 0 active) as Hsorted.
  cbv zeta in Hspec.
  set (n := Nat.min _ _) in Hspec.
  destruct Hspec as (items' & Heq & Hperm).
  rewrite Heq in *. cbn [fst snd] in Hsorted.
  rewrite available_orders_set_available, pending_orders_set_available,
    pending_orders_set_pending.
  split; [reflexivity|]. split; [|split; [exact Hsorted|]].
  - rewrite (Permutation_length Hperm), length_app, length_rev, length_map.
    rewrite <- (firstn_skipn n (pending_orders g)) at 3. rewrite length_app. lia.
  - apply List.Forall_forall. intros o Ho.
    apply (Permutation_in _ Hperm), in_app_or in Ho as [Ho|Ho]; [|left; exact Ho].
    right. apply in_rev, in_map_iff in Ho as (o0 & <- & _).
    split; [reflexivity|]. split; [reflexivity|].
    apply released_valid.
Qed.

End ReleaseMore.
(** ** The tick *)

Section TickFacts.
Import CourierQuest.

Lemma update_steps (dt : Q) (weather' : Weather) (g : t) :
  TickSpec.running g ->
  update dt weather' g
  = TickSpec.judge (TickSpec.recover dt (TickSpec.advance dt weather' (TickSpec.remember g))).
Proof.
  intros (Hs & Hp & Ho). unfold update. rewrite Hs, Hp, Ho. reflexivity.
Qed.

Lemma update_idle (dt : Q) (weather' : Weather) (g : t) :
  ~ TickSpec.running g -> update dt weather' g = g.
Proof.
  unfold TickSpec.running, update. intros H.
  destruct (game_state g); try reflexivity.
  destruct (paused g); [reflexivity|].
  destruct (game_over g); [reflexivity|]. tauto.
Qed.

Lemma running_dec (g : t) : TickSpec.running g \/ ~ TickSpec.running g.
Proof.
  unfold TickSpec.running.
  destruct (game_state g), (paused g), (game_over g);
    first [left; repeat split; reflexivity | right; intros (? & ? & ?); discriminate].
Qed.

(** The snapshot writes the history and the time of the last snapshot. *)
Lemma remember_shape (g : t) :
  let g' := TickSpec.remember g in
  g' = set_last_history_save (last_history_save g') (set_history (history g') g).
Proof.
  intros g'. subst g'. unfold TickSpec.remember.
  destruct (_ || _); destruct g; reflexivity.
Qed.

Lemma process_order_releases_shape (g : t) :
  let g' := _process_order_releases g in
  g' = set_available_orders (available_orders g')
         (set_pending_orders (pending_orders g') g).
Proof.
  intros g'. subst g'. unfold _process_order_releases.
  destruct (release_loop _ _ _ _ _ _) as [[pending items] n].
  destruct g; reflexivity.
Qed.

Lemma advance_shape (dt : Q) (weather' : Weather) (g : t) :
  let g' := TickSpec.advance dt weather' g in
  g' = set_last_delivery_was_clean (last_delivery_was_clean g')
         (set_delivery_streak (delivery_streak g')
            (set_reputation (reputation g')
               (set_inventory (inventory g')
                  (set_available_orders (available_orders g')
                     (set_pending_orders (pending_orders g')
                        (set_weather_system weather'
                           (set_game_time (Qred (game_time g + dt)%Q) g))))))).
Proof.
  intros g'. subst g'. unfold TickSpec.advance.
  set (g1 := set_weather_system _ _).
  pose proof (process_order_releases_shape g1) as H1. cbv zeta in H1.
  set (g2 := _process_order_releases g1) in *.
  pose proof (check_expired_orders_shape g2) as H2. cbv zeta in H2.
  set (g3 := _check_expired_orders g2) in *.
  rewrite H2 at 1. rewrite H1 at 1.
  assert (Hp : pending_orders g3 = pending_orders g2).
  { rewrite H2. destruct g2; reflexivity. }
  rewrite Hp.
  generalize (last_delivery_was_clean g3) (delivery_streak g3) (reputation g3)
    (inventory g3) (available_orders g3) (available_orders g2) (pending_orders g2).
  intros. subst g1. destruct g; reflexivity.
Qed.

Lemma recover_shape (dt : Q) (g : t) :
  let g' := TickSpec.recover dt g in
  g' = set_stamina (stamina g') g.
Proof.
  intros g'. subst g'. unfold TickSpec.recover.
  destruct (_ && _); destruct g; reflexivity.
Qed.

Lemma judge_shape (g : t) :
  let g' := TickSpec.judge g in
  g' = set_game_over (game_over g') (set_victory (victory g') g).
Proof.
  intros g'. subst g'. unfold TickSpec.judge.
  destruct (_ <? _); [destruct g; reflexivity|].
  destruct (goal g <=? money g) eqn:E; [destruct g; reflexivity|].
  destruct (Qle_bool _ _); [|destruct g; reflexivity].
  cbv zeta.
  replace (goal (set_game_over true g)) with (goal g) by (destruct g; reflexivity).
  replace (money (set_game_over true g)) with (money g) by (destruct g; reflexivity).
  rewrite E. destruct g; reflexivity.
Qed.

(** What a tick writes, and with what. *)
Lemma update_shape (dt : Q) (weather' : Weather) (g : t) :
  TickSpec.running g ->
  let g' := update dt weather' g in
  g' = set_game_over (game_over g')
         (set_victory (victory g')
            (set_stamina (stamina g')
               (set_last_delivery_was_clean (last_delivery_was_clean g')
                  (set_delivery_streak (delivery_streak g')
                     (set_reputation (reputation g')
                        (set_inventory (inventory g')
                           (set_available_orders (available_orders g')
                              (set_pending_orders (pending_orders g')
                                 (set_weather_system weather'
                                    (set_game_time (Qred (game_time g + dt)%Q)
                                       (set_last_history_save (last_history_save g')
                                          (set_history (history g') g)))))))))))).
Proof.
  intros Hr g'. subst g'. rewrite (update_steps dt weather' g Hr).
  pose proof (remember_shape g) as H1. cbv zeta in H1.
  set (g1 := TickSpec.remember g) in *.
  pose proof (advance_shape dt weather' g1) as H2. cbv zeta in H2.
  set (g2 := TickSpec.advance dt weather' g1) in *.
  pose proof (recover_shape dt g2) as H3. cbv zeta in H3.
  set (g3 := TickSpec.recover dt g2) in *.
  pose proof (judge_shape g3) as H4. cbv zeta in H4.
  set (g4 := TickSpec.judge g3) in *.
  assert (E3 : g4 = set_game_over (game_over g4) (set_victory (victory g4)
                 (set_stamina (stamina g3) g2))).
  { rewrite H4 at 1. rewrite H3 at 1. reflexivity. }
  assert (Es : stamina g4 = stamina g3) by (rewrite H4; destruct g3; reflexivity).
  assert (Eg : game_time g1 = game_time g) by (rewrite H1; destruct g; reflexivity).
  rewrite Eg in H2.
  assert (E2 : (last_delivery_was_clean g4, delivery_streak g4, reputation g4,
                inventory g4, available_orders g4, pending_orders g4)
               = (last_delivery_was_clean g2, delivery_streak g2, reputation g2,
                  inventory g2, available_orders g2, pending_orders g2)).
  { rewrite E3. destruct g2; reflexivity. }
  injection E2 as Ea Eb Ec Ed Ee Ef.
  assert (E1 : (last_history_save g4, history g4) = (last_history_save g1, history g1)).
  { rewrite E3, H2. destruct g1; reflexivity. }
  injection E1 as Eh Ei.
  rewrite Es, Ea, Eb, Ec, Ed, Ee, Ef, Eh, Ei.
  rewrite E3 at 1. rewrite H2 at 1. rewrite H1 at 1. reflexivity.
Qed.

Lemma recovery_rate_values (g : t) :
  (_get_stamina_recovery_rate g == if TickSpec.on_rest_tile g then 15 else 5)%Q.
Proof.
  unfold _get_stamina_recovery_rate, TickSpec.on_rest_tile.
  destruct (current_tile_info g) as [tile_info|]; [|reflexivity].
  destruct (Qlt_bool 0 _); reflexivity.
Qed.

(** X11: [update] does nothing at all while the game is paused, over or on
    another screen.  When the game is on, it moves the clock by [dt] and
    takes the new weather; in no case does it move the player, change the
    money, the delivered orders, the time since the last move or the map. *)
Theorem update_keeps_player_and_money (dt : Q) (weather' : Weather) (g : t) :
  let g' := update dt weather' g in
  (~ TickSpec.running g -> g' = g) /\
  (TickSpec.running g ->
   (game_time g' == game_time g + dt)%Q /\ weather_system g' = weather') /\
  player_pos g' = player_pos g /\
  money g' = money g /\
  completed_orders g' = completed_orders g /\
  last_move_time g' = last_move_time g /\
  (city_width g', city_height g', tiles g', legend g', goal g', max_game_time g')
  = (city_width g, city_height g, tiles g, legend g, goal g, max_game_time g).
Proof.
  intros g'. split; [intros Hn; apply update_idle, Hn|].
  destruct (running_dec g) as [Hr|Hn].
  - pose proof (update_shape dt weather' g Hr) as H. cbv zeta in H. fold g' in H.
    split; [intros _; split|].
    + rewrite H. transitivity (Qred (game_time g + dt)); [|apply Qred_correct].
      destruct g; reflexivity.
    + rewrite H. destruct g; reflexivity.
    + repeat split; rewrite H; destruct g; reflexivity.
  - subst g'. rewrite (update_idle dt weather' g Hn).
    split; [tauto|]. repeat split.
Qed.

Lemma update_stamina_rule (dt : Q) (weather' : Weather) (g : t) :
  TickSpec.running g -> (0 <= dt)%Q ->
  let g' := update dt weather' g in
  let rate := if TickSpec.on_rest_tile g then 15%Q else 5%Q in
  ((stamina g < 100)%Q -> (1 < last_move_time g)%Q ->
   (stamina g' == Qmin 100 (stamina g + rate * dt))%Q) /\
  (~ ((stamina g < 100)%Q /\ (1 < last_move_time g)%Q) -> stamina g' = stamina g) /\
  (stamina g <= stamina g')%Q /\
  ((stamina g <= 100)%Q -> (stamina g' <= 100)%Q).
Proof.
  intros Hr Hdt g' rate.
  assert (Hs : stamina g' = stamina (TickSpec.recover dt
                 (TickSpec.advance dt weather' (TickSpec.remember g)))).
  { subst g'. rewrite (update_steps dt weather' g Hr).
    rewrite judge_shape. cbv zeta.
    destruct (TickSpec.recover _ _); reflexivity. }
  set (g2 := TickSpec.advance dt weather' (TickSpec.remember g)) in *.
  assert (E2 : (stamina g2, last_move_time g2, current_tile_info g2)
               = (stamina g, last_move_time g, current_tile_info g)).
  { subst g2. rewrite advance_shape. cbv zeta. rewrite remember_shape. cbv zeta.
    unfold current_tile_info. destruct g; reflexivity. }
  injection E2 as Ea Eb Ec.
  assert (Hrate : (_get_stamina_recovery_rate g2 == rate)%Q).
  { rewrite recovery_rate_values. unfold TickSpec.on_rest_tile. rewrite Ec.
    reflexivity. }
  assert (Hpos : (0 <= rate)%Q) by (subst rate; destruct (TickSpec.on_rest_tile g); lra).
  assert (Hval : (stamina g < 100)%Q -> (1 < last_move_time g)%Q ->
                 (stamina g' == Qmin 100 (stamina g + rate * dt))%Q).
  { intros H1 H2. rewrite Hs. unfold TickSpec.recover. rewrite Ea, Eb.
    apply Qlt_bool_iff in H1, H2. unfold max_stamina. rewrite H1, H2. cbn [andb].
    cbv zeta. rewrite stamina_set_stamina, Qred_correct, Hrate. reflexivity. }
  assert (Hsame : ~ ((stamina g < 100)%Q /\ (1 < last_move_time g)%Q) ->
                  stamina g' = stamina g).
  { intros Hn. rewrite Hs. unfold TickSpec.recover. rewrite Ea, Eb.
    unfold max_stamina.
    destruct (Qlt_bool (stamina g) 100) eqn:E1; cbn [andb]; [|exact Ea].
    destruct (Qlt_bool 1 (last_move_time g)) eqn:E3; [|exact Ea].
    exfalso. apply Hn. split; apply Qlt_bool_iff; assumption. }
  split; [exact Hval|]. split; [exact Hsame|].
  assert (Hcase : ((stamina g < 100)%Q /\ (1 < last_move_time g)%Q)
                  \/ ~ ((stamina g < 100)%Q /\ (1 < last_move_time g)%Q)).
  { destruct (Qlt_le_dec (stamina g) 100) as [H1|H1];
      destruct (Qlt_le_dec 1 (last_move_time g)) as [H2|H2].
    - left. split; assumption.
    - right. intros [_ H]. apply Qlt_not_le in H. contradiction.
    - right. intros [H _]. apply Qlt_not_le in H. contradiction.
    - right. intros [H _]. apply Qlt_not_le in H. contradiction. }
  assert (Hprod : (0 <= rate * dt)%Q) by (apply Qmult_le_0_compat; assumption).
  destruct Hcase as [[H1 H2]|Hn].
  - rewrite (Hval H1 H2). split.
    + apply Q.min_glb; lra.
    + intros _. apply Q.le_min_l.
  - rewrite (Hsame Hn). split; [apply Qle_refl | tauto].
Qed.

(** X12: while the game is on, a tick of [dt >= 0] seconds gives stamina back
    only when the stamina is below 100 and more than one second has passed
    since the last move: the stamina then becomes
    [min(100, stamina + rate * dt)], with a rate of 15 per second on a tile
    with a rest bonus and 5 elsewhere.  In every other case the stamina is
    left as it is.  A tick never lowers the stamina and never takes it past
    100. *)
Theorem update_recovers_stamina (dt : Q) (weather' : Weather) (g : t) :
  TickSpec.running g -> (0 <= dt)%Q ->
  let g' := update dt weather' g in
  let rate := if TickSpec.on_rest_tile g then 15%Q else 5%Q in
  ((stamina g < 100)%Q -> (1 < last_move_time g)%Q ->
   (stamina g' == Qmin 100 (stamina g + rate * dt))%Q) /\
  (~ ((stamina g < 100)%Q /\ (1 < last_move_time g)%Q) -> stamina g' = stamina g) /\
  (stamina g <= stamina g')%Q /\
  ((stamina g <= 100)%Q -> (stamina g' <= 100)%Q).
Proof. apply update_stamina_rule. Qed.

(** X13: a tick on a running game ends it exactly when, after the releases
    and the expiry sweep, the reputation is below 20, or the money has
    reached the goal, or the clock has reached the time limit.  It sets the
    victory flag exactly when the reputation is 20 or more and the money has
    reached the goal: with a reputation below 20 the game ends without
    victory even when the goal is met, and running out of time never gives
    a victory that the goal test has not given. *)
Theorem update_ends_game (dt : Q) (weather' : Weather) (g : t) :
  TickSpec.running g ->
  let g' := update dt weather' g in
  (game_over g' = true <->
   reputation g' < 20 \/ goal g <= money g \/
   (max_game_time g <= game_time g + dt)%Q) /\
  (victory g' = true <->
   victory g = true \/ (20 <= reputation g' /\ goal g <= money g)) /\
  game_state g' = playing /\ paused g' = false.
Proof.
  intros Hr g'.
  pose proof (update_steps dt weather' g Hr) as Hst. fold g' in Hst.
  set (g3 := TickSpec.recover dt (TickSpec.advance dt weather' (TickSpec.remember g))) in *.
  assert (E3 : (game_over g3, victory g3, goal g3, money g3, max_game_time g3,
                game_state g3, paused g3)
               = (game_over g, victory g, goal g, money g, max_game_time g,
                  game_state g, paused g)).
  { subst g3. rewrite recover_shape. cbv zeta. rewrite advance_shape. cbv zeta.
    rewrite remember_shape. cbv zeta. destruct g; reflexivity. }
  injection E3 as Ea Eb Ec Ed Ee Ef Eg.
  assert (Et : (game_time g3 == game_time g + dt)%Q).
  { transitivity (Qred (game_time g + dt)); [|apply Qred_correct].
    subst g3. rewrite recover_shape. cbv zeta. rewrite advance_shape. cbv zeta.
    rewrite remember_shape. cbv zeta. destruct g; reflexivity. }
  destruct Hr as (Hs & Hp & Ho).
  assert (Er : reputation g' = reputation g3).
  { rewrite Hst, judge_shape. cbv zeta. destruct g3; reflexivity. }
  rewrite Er, Hst. unfold TickSpec.judge. rewrite Ec, Ed, Ee.
  destruct (Z.ltb_spec (reputation g3) 20) as [H20|H20].
  - replace (game_over (set_game_over true g3)) with true by (destruct g3; reflexivity).
    replace (victory (set_game_over true g3)) with (victory g)
      by (rewrite <- Eb; destruct g3; reflexivity).
    replace (game_state (set_game_over true g3)) with playing
      by (rewrite <- Hs, <- Ef; destruct g3; reflexivity).
    replace (paused (set_game_over true g3)) with false
      by (rewrite <- Hp, <- Eg; destruct g3; reflexivity).
    split; [split; [intros _; left; exact H20 | reflexivity]|].
    split; [|split; reflexivity].
    split; [intros Hv; left; exact Hv|]. intros [Hv|[Hv _]]; [exact Hv | lia].
  - destruct (Z.leb_spec (goal g) (money g)) as [Hg|Hg].
    + replace (game_over (set_game_over true (set_victory true g3))) with true
        by (destruct g3; reflexivity).
      replace (victory (set_game_over true (set_victory true g3))) with true
        by (destruct g3; reflexivity).
      replace (game_state (set_game_over true (set_victory true g3))) with playing
        by (rewrite <- Hs, <- Ef; destruct g3; reflexivity).
      replace (paused (set_game_over true (set_victory true g3))) with false
        by (rewrite <- Hp, <- Eg; destruct g3; reflexivity).
      split; [split; [intros _; right; left; exact Hg | reflexivity]|].
      split; [|split; reflexivity].
      split; [intros _; right; split; assumption | reflexivity].
    + destruct (Qle_bool (max_game_time g) (game_time g3)) eqn:Em.
      * cbv zeta.
        replace (goal (set_game_over true g3)) with (goal g)
          by (rewrite <- Ec; destruct g3; reflexivity).
        replace (money (set_game_over true g3)) with (money g)
          by (rewrite <- Ed; destruct g3; reflexivity).
        destruct (Z.leb_spec (goal g) (money g)); [lia|].
        replace (game_over (set_game_over true g3)) with true by (destruct g3; reflexivity).
        replace (victory (set_game_over true g3)) with (victory g)
          by (rewrite <- Eb; destruct g3; reflexivity).
        replace (game_state (set_game_over true g3)) with playing
          by (rewrite <- Hs, <- Ef; destruct g3; reflexivity).
        replace (paused (set_game_over true g3)) with false
          by (rewrite <- Hp, <- Eg; destruct g3; reflexivity).
        apply Qle_bool_iff in Em. rewrite Et in Em.
        split; [split; [intros _; right; right; exact Em | reflexivity]|].
        split; [|split; reflexivity].
        split; [intros Hv; left; exact Hv|]. intros [Hv|[_ Hv]]; [exact Hv | lia].
      * rewrite Ea, Eb, Ef, Eg, Ho.
        apply Qle_bool_false_iff in Em. rewrite Et in Em.
        split; [split; [discriminate|]|].
        -- intros [H|[H|H]]; try lia. apply Qle_not_lt in H. contradiction.
        -- split; [|split; assumption].
           split; [intros Hv; left; exact Hv|].
           intros [Hv|[_ Hv]]; [exact Hv | lia].
Qed.

End TickFacts.
(** ** More on movement *)

Section MovementMore.
Import CourierQuest.

(** A step costs half a point of stamina at least. *)
Lemma calculate_stamina_cost_min (g : t) : (5 # 10 <= calculate_stamina_cost g)%Q.
Proof.
  rewrite calculate_stamina_cost_spec. unfold MoveSpec.move_cost.
  assert (H1 : (0 <= inject_Z (Z.max 0 (total_weight (inventory g) - 3)))%Q).
  { change 0%Q with (inject_Z 0). rewrite <- Zle_Qle. lia. }
  assert (H2 : (0 <= MoveSpec.weather_flat_penalty (current_condition (weather_system g)))%Q).
  { destruct (current_condition (weather_system g)); cbn; lra. }
  assert (H3 : (0 <= MoveSpec.surface_penalty g)%Q).
  { unfold MoveSpec.surface_penalty.
    destruct (Qlt_bool _ 1) eqn:E; [|lra]. apply Qlt_bool_iff in E. nra. }
  nra.
Qed.

Lemma direction_unit (keys : Keys) :
  direction keys = (0, 0) \/
  Z.abs (fst (direction keys)) + Z.abs (snd (direction keys)) = 1.
Proof.
  unfold direction.
  destruct (k_left keys), (k_right keys), (k_up keys), (k_down keys); cbn; auto.
Qed.

Lemma is_valid_move_true (g : t) (pos : Position) :
  is_valid_move g pos = true ->
  MoveSpec.in_bounds g pos /\ MoveSpec.target_blocked g pos = false /\
  (0 < stamina g)%Q /\ (calculate_stamina_cost g <= stamina g)%Q.
Proof.
  unfold is_valid_move, MoveSpec.in_bounds, MoveSpec.target_blocked.
  destruct (Z.leb_spec 0 (pos_x pos)), (Z.ltb_spec (pos_x pos) (city_width g)),
    (Z.leb_spec 0 (pos_y pos)), (Z.ltb_spec (pos_y pos) (city_height g));
    cbn [andb negb]; try discriminate.
  destruct (match tile_at (tiles g) (pos_x pos) (pos_y pos) with
            | Some tile_type => is_blocked (legend_get (legend g) tile_type)
            | None => false
            end); [discriminate|].
  destruct (Qle_bool (stamina g) 0) eqn:E0; [discriminate|].
  intros Hc. apply Qle_bool_false_iff in E0. apply Qle_bool_iff in Hc.
  repeat split; auto; lia.
Qed.

Lemma handle_input_step (keys : Keys) (dt M_clima : Q) (g : t) :
  let g' := handle_input keys dt M_clima g in
  let target := mkPosition (pos_x (player_pos g) + fst (direction keys))
                           (pos_y (player_pos g) + snd (direction keys)) in
  (paused g = true \/ game_over g = true \/ (stamina g <= 0)%Q -> g' = g) /\
  (g' = set_last_move_time (last_move_time g') g \/
   (g' = set_last_move_time 0 (set_stamina (stamina g') (set_player_pos target g)) /\
    Z.abs (pos_x target - pos_x (player_pos g))
    + Z.abs (pos_y target - pos_y (player_pos g)) = 1 /\
    MoveSpec.in_bounds g target /\ MoveSpec.target_blocked g target = false /\
    (stamina g' == stamina g - calculate_stamina_cost g)%Q /\
    (0 <= stamina g')%Q)) /\
  (stamina g' <= stamina g)%Q.
Proof.
  intros g' target. subst g'. unfold handle_input.
  destruct (paused g) eqn:Hp; cbn [orb].
  { split; [reflexivity|]. split; [left; destruct g; reflexivity | apply Qle_refl]. }
  destruct (game_over g) eqn:Ho.
  { split; [reflexivity|]. split; [left; destruct g; reflexivity | apply Qle_refl]. }
  destruct (Qle_bool (stamina g) 0) eqn:E0.
  { split; [reflexivity|]. split; [left; destruct g; reflexivity | apply Qle_refl]. }
  apply Qle_bool_false_iff in E0.
  split.
  { intros [H|[H|H]]; try discriminate. apply Qle_not_lt in H. contradiction. }
  cbv zeta.
  set (g1 := set_last_move_time (Qred (last_move_time g + dt)) g).
  assert (Hstill : set_last_move_time (last_move_time g1) g = g1)
    by (subst g1; destruct g; reflexivity).
  assert (Hs1 : stamina g1 = stamina g) by (subst g1; destruct g; reflexivity).
  assert (Hp1 : player_pos g1 = player_pos g) by (subst g1; destruct g; reflexivity).
  destruct (Qlt_bool (last_move_time g1) _).
  { split; [left; symmetry; exact Hstill | rewrite Hs1; apply Qle_refl]. }
  destruct ((fst (direction keys) =? 0) && (snd (direction keys) =? 0)) eqn:Ed.
  { split; [left; symmetry; exact Hstill | rewrite Hs1; apply Qle_refl]. }
  rewrite Hp1. fold target.
  assert (Hv1 : is_valid_move g1 target = is_valid_move g target)
    by (subst g1; destruct g; reflexivity).
  assert (Hc1 : calculate_stamina_cost g1 = calculate_stamina_cost g)
    by (subst g1; destruct g; reflexivity).
  rewrite Hv1.
  destruct (is_valid_move g target) eqn:Ev.
  2:{ split; [left; symmetry; exact Hstill | rewrite Hs1; apply Qle_refl]. }
  apply is_valid_move_true in Ev as (Hb & Hk & Hpos & Hcost).
  unfold move_player. rewrite Hs1, Hc1.
  replace (Qle_bool (stamina g) 0) with false
    by (symmetry; apply Qle_bool_false_iff, E0).
  replace (Qlt_bool (stamina g) (calculate_stamina_cost g)) with false
    by (symmetry; apply Qlt_bool_false_iff, Hcost).
  set (s' := Qred (Qmax 0 (stamina g - calculate_stamina_cost g))).
  assert (Hs' : stamina (set_last_move_time 0 (set_stamina s' (set_player_pos target g1)))
                = s') by (subst g1; destruct g; reflexivity).
  rewrite Hs'.
  assert (Hval : (s' == stamina g - calculate_stamina_cost g)%Q).
  { subst s'. rewrite Qred_correct. apply Q.max_r. lra. }
  pose proof (calculate_stamina_cost_min g) as Hmin.
  split; [right|rewrite Hval; lra].
  split; [subst g1; destruct g; reflexivity|].
  split.
  { destruct (direction_unit keys) as [H0|H1].
    - rewrite H0 in Ed. discriminate.
    - subst target. cbn [pos_x pos_y].
      replace (pos_x (player_pos g) + fst (direction keys) - pos_x (player_pos g))
        with (fst (direction keys)) by lia.
      replace (pos_y (player_pos g) + snd (direction keys) - pos_y (player_pos g))
        with (snd (direction keys)) by lia.
      exact H1. }
  split; [exact Hb|]. split; [exact Hk|]. split; [exact Hval|].
  rewrite Hval. lra.
Qed.

(** X14: [handle_input] changes nothing when the game is paused or over or
    the stamina is 0 or less.  Otherwise it either leaves everything but the
    time since the last move as it is, or it makes one step: the player goes
    to the neighbouring cell in the direction of the keys, which lies on the
    board and is not blocked, the stamina goes down by the cost of the step
    and stays at 0 or more, the time since the last move is set to 0, and
    nothing else changes.  The stamina never goes up. *)
Theorem handle_input_one_valid_step (keys : Keys) (dt M_clima : Q) (g : t) :
  let g' := handle_input keys dt M_clima g in
  let target := mkPosition (pos_x (player_pos g) + fst (direction keys))
                           (pos_y (player_pos g) + snd (direction keys)) in
  (paused g = true \/ game_over g = true \/ (stamina g <= 0)%Q -> g' = g) /\
  (g' = set_last_move_time (last_move_time g') g \/
   (g' = set_last_move_time 0 (set_stamina (stamina g') (set_player_pos target g)) /\
    Z.abs (pos_x target - pos_x (player_pos g))
    + Z.abs (pos_y target - pos_y (player_pos g)) = 1 /\
    MoveSpec.in_bounds g target /\ MoveSpec.target_blocked g target = false /\
    (stamina g' == stamina g - calculate_stamina_cost g)%Q /\
    (0 <= stamina g')%Q)) /\
  (stamina g' <= stamina g)%Q.
Proof. apply handle_input_step. Qed.

End MovementMore.
(** ** More on orders: time, delivery, interaction *)

Section OrderFacts.
Import CourierQuest.

(** X15: for an order that has been released, the time remaining is never
    negative; it is 0 or less exactly when the time since the order was
    created has reached its duration; it is at most the duration once the
    clock has passed the creation time, for a duration that is not negative;
    and it does not grow when the clock moves on.  The time remaining of an
    order that waits for its release is its whole duration. *)
Theorem time_remaining_runs_down (g g2 : t) (order : Order) :
  (status order = waiting_release ->
   get_order_time_remaining g order = (duration_minutes order * 60)%Q) /\
  (status order <> waiting_release ->
   (0 <= get_order_time_remaining g order)%Q /\
   (DeliverySpec.timed_out g order = true <->
    (duration_minutes order * 60 <= game_time g - created_at order)%Q) /\
   ((0 <= duration_minutes order)%Q -> (created_at order <= game_time g)%Q ->
    (get_order_time_remaining g order <= duration_minutes order * 60)%Q) /\
   ((game_time g <= game_time g2)%Q ->
    (get_order_time_remaining g2 order <= get_order_time_remaining g order)%Q)).
Proof.
  split.
  - intros Hs. unfold get_order_time_remaining. rewrite Hs. reflexivity.
  - intros Hs.
    assert (E : forall h : t,
              get_order_time_remaining h order
              = Qmax 0 (duration_minutes order * 60 - (game_time h - created_at order))).
    { intros h. unfold get_order_time_remaining.
      destruct (status order); try reflexivity. congruence. }
    unfold DeliverySpec.timed_out. rewrite !E.
    set (d := (duration_minutes order * 60)%Q).
    split; [apply Q.le_max_l|]. split; [|split].
    + rewrite Qle_bool_iff. split.
      * intros H. pose proof (Q.le_max_r 0 (d - (game_time g - created_at order))). lra.
      * intros H. apply Q.max_lub; lra.
    + intros Hd Hc. apply Q.max_lub; subst d; lra.
    + intros Hg. apply Q.max_le_compat_l. lra.
Qed.

Lemma list_remove_In (x : Order) (l : list Order) :
  In x l ->
  exists (l1 : list Order) (y : Order) (l2 : list Order),
    l = l1 ++ y :: l2 /\ Order_eqb y x = true /\
    Forall (fun z => Order_eqb z x = false) l1 /\
    list_remove x l = Some (l1 ++ l2).
Proof.
  induction l as [|z l IH]; cbn [In list_remove]; [tauto|].
  intros Hin. destruct (Order_eqb z x) eqn:E.
  - exists [], z, l. repeat split; auto.
  - destruct Hin as [-> | Hin]; [rewrite Order_eqb_refl in E; discriminate|].
    destruct (IH Hin) as (l1 & y & l2 & -> & Hy & Hf & Hr).
    exists (z :: l1), y, l2. rewrite Hr. repeat split; auto.
Qed.

Lemma Order_eqb_weight (a b : Order) : Order_eqb a b = true -> weight a = weight b.
Proof.
  unfold Order_eqb. rewrite !andb_true_iff.
  intros ((((((((((_ & _) & _) & _) & _) & Hw) & _) & _) & _) & _) & _).
  apply Z.eqb_eq, Hw.
Qed.

Lemma total_weight_app (l1 l2 : list Order) :
  total_weight (l1 ++ l2) = total_weight l1 + total_weight l2.
Proof.
  unfold total_weight. induction l1 as [|o l1 IH]; cbn [app fold_right]; lia.
Qed.

(** The payout at a reputation of 90 or more: a twentieth on top, rounded
    down. *)
Lemma py_int_bonus (p : Z) :
  0 <= p -> py_int (inject_Z p * (105 # 100))%Q = p + p / 20.
Proof.
  intros Hp. unfold py_int. cbn.
  rewrite Z.quot_div_nonneg by lia.
  Z.div_mod_to_equations. lia.
Qed.

(** The attributes that [deliver_order] leaves alone. *)
Lemma deliver_order_frame (g : t) (order : Order) :
  let g' := deliver_order order g in
  g' = set_completed_orders (completed_orders g')
         (set_inventory (inventory g')
            (set_money (money g')
               (set_last_delivery_was_clean (last_delivery_was_clean g')
                  (set_delivery_streak (delivery_streak g')
                     (set_reputation (reputation g')
                        (set_first_late_penalty_applied
                           (first_late_penalty_applied g') g)))))).
Proof.
  intros g'. subst g'. unfold deliver_order.
  destruct (delivery_rating _ _ _) as [rc clean].
  destruct g as [a0 a1 a2 a3 a4 a5 a6 a7 a8 a9 a10 a11 a12 a13 a14 a15 a16 a17 a18 a19
                 a20 a21 a22 a23 a24 a25 a26].
  cbn.
  destruct ((rc <? 0) && (85 <=? a13) && negb a25); cbn;
    destruct clean, a21; cbn;
    repeat match goal with |- context [if ?b then _ else _] => destruct b; cbn end;
    reflexivity.
Qed.

Lemma deliver_order_lists (g : t) (order : Order) :
  inventory (deliver_order order g)
  = default (inventory g) (list_remove order (inventory g)) /\
  completed_orders (deliver_order order g)
  = completed_orders g ++ [set_status delivered order].
Proof.
  unfold deliver_order.
  destruct (delivery_rating _ _ _) as [rc clean].
  destruct g as [a0 a1 a2 a3 a4 a5 a6 a7 a8 a9 a10 a11 a12 a13 a14 a15 a16 a17 a18 a19
                 a20 a21 a22 a23 a24 a25 a26].
  cbn.
  destruct ((rc <? 0) && (85 <=? a13) && negb a25); cbn;
    destruct clean, a21; cbn;
    repeat match goal with |- context [if ?b then _ else _] => destruct b; cbn end;
    split; reflexivity.
Qed.

(** X16: [deliver_order] of an order that is in the inventory takes out of
    the inventory the first order equal to it, appends the order with the
    status [delivered] to the completed orders, and, for a payout that is
    not negative, adds to the money either the payout or the payout and a
    twentieth of it, rounded down.  It changes the reputation, the streak,
    the clean flag and the mark of the first late delivery, and nothing
    else. *)
Theorem deliver_order_bookkeeping (g : t) (order : Order) :
  In order (inventory g) ->
  let g' := deliver_order order g in
  (exists (l1 : list Order) (y : Order) (l2 : list Order),
     inventory g = l1 ++ y :: l2 /\ Order_eqb y order = true /\
     Forall (fun z => Order_eqb z order = false) l1 /\
     inventory g' = l1 ++ l2) /\
  completed_orders g' = completed_orders g ++ [set_status delivered order] /\
  (0 <= payout order ->
   money g' = money g + payout order \/
   money g' = money g + payout order + payout order / 20) /\
  g' = set_completed_orders (completed_orders g')
         (set_inventory (inventory g')
            (set_money (money g')
               (set_last_delivery_was_clean (last_delivery_was_clean g')
                  (set_delivery_streak (delivery_streak g')
                     (set_reputation (reputation g')
                        (set_first_late_penalty_applied
                           (first_late_penalty_applied g') g)))))).
Proof.
  intros Hin g'. subst g'.
  destruct (deliver_order_lists g order) as [Hi Hc].
  destruct (list_remove_In order (inventory g) Hin) as (l1 & y & l2 & E & Hy & Hf & Hr).
  split; [|split; [exact Hc|split; [|apply deliver_order_frame]]].
  - exists l1, y, l2. rewrite Hi, Hr. repeat split; assumption.
  - intros Hp. rewrite deliver_order_money.
    destruct (90 <=? reputation (deliver_order order g)); [right | left; reflexivity].
    rewrite py_int_bonus by exact Hp. lia.
Qed.

(** The three things [interact_at_position] can do. *)
Lemma interact_cases (g : t) :
  let g' := interact_at_position g in
  g' = g \/
  (exists order : Order,
     In order (available_orders g) /\
     total_weight (inventory g) + weight order <= max_weight /\
     g' = set_available_orders
            (snd (OptimizedPriorityQueue.remove order (available_orders g)))
            (set_inventory
               (inventory g
                ++ [set_accepted_at (game_time g) (set_status picked_up order)]) g)) \/
  (exists order : Order, In order (inventory g) /\ g' = deliver_order order g).
Proof.
  intros g'. subst g'. unfold interact_at_position.
  destruct (find (can_pick_up_here g) (available_orders g)) as [order|] eqn:E1.
  - apply find_some in E1 as [Hin _].
    destruct (Qle_bool _ 0); [left; reflexivity|].
    destruct (Z.leb_spec (total_weight (inventory g) + weight order) max_weight);
      [|left; reflexivity].
    right. left. exists order. repeat split; assumption.
  - destruct (find (can_drop_here g) (inventory g)) as [order|] eqn:E2;
      [|left; reflexivity].
    apply find_some in E2 as [Hin _].
    destruct (Qle_bool _ 0); [left; reflexivity|].
    right. right. exists order. split; [exact Hin | reflexivity].
Qed.

(** X17: [interact_at_position] neither loses nor makes an order: the
    container, the inventory and the completed orders together hold as many
    orders afterwards as before.  When the carried weight is within
    [max_weight] and no carried order has a negative weight, the carried
    weight is within [max_weight] afterwards.  A container in priority order
    stays in priority order; the backlog, the player, the stamina and the
    clock are left as they are. *)
Theorem interact_keeps_orders_and_weight_limit (g : t) :
  let g' := interact_at_position g in
  (length (available_orders g') + length (inventory g') + length (completed_orders g')
   = length (available_orders g) + length (inventory g) + length (completed_orders g))%nat /\
  (total_weight (inventory g) <= max_weight ->
   Forall (fun o => 0 <= weight o) (inventory g) ->
   total_weight (inventory g') <= max_weight) /\
  (OptimizedPriorityQueue.sorted_desc (available_orders g) ->
   OptimizedPriorityQueue.sorted_desc (available_orders g')) /\
  (pending_orders g', player_pos g', stamina g', game_time g')
  = (pending_orders g, player_pos g, stamina g, game_time g).
Proof.
  intros g'. destruct (interact_cases g) as [H|[(order & Hin & Hw & H)|(order & Hin & H)]];
    fold g' in H; rewrite H; clear H g'.
  - repeat split; auto.
  - destruct (list_remove_In order _ Hin) as (l1 & y & l2 & E & Hy & Hf & Hr).
    unfold OptimizedPriorityQueue.remove. rewrite Hr. cbn [snd].
    replace (available_orders (set_available_orders (l1 ++ l2) _)) with (l1 ++ l2)
      by (destruct g; reflexivity).
    replace (inventory (set_available_orders (l1 ++ l2) (set_inventory _ g)))
      with (inventory g ++ [set_accepted_at (game_time g) (set_status picked_up order)])
      by (destruct g; reflexivity).
    replace (completed_orders (set_available_orders (l1 ++ l2) (set_inventory _ g)))
      with (completed_orders g) by (destruct g; reflexivity).
    split; [|split; [|split]].
    + rewrite E, !length_app. cbn [length]. lia.
    + intros _ _. rewrite total_weight_app. cbn. lia.
    + intros Hs. eapply list_remove_sorted; [exact Hr | exact Hs].
    + destruct g; reflexivity.
  - destruct (deliver_order_lists g order) as [Hi Hc].
    destruct (list_remove_In order _ Hin) as (l1 & y & l2 & E & Hy & Hf & Hr).
    rewrite Hr in Hi. change (inventory (deliver_order order g) = l1 ++ l2) in Hi.
    pose proof (deliver_order_frame g order) as Hfr. cbv zeta in Hfr.
    set (g' := deliver_order order g) in *.
    assert (Ha : available_orders g' = available_orders g)
      by (rewrite Hfr; destruct g; reflexivity).
    rewrite Hi, Hc, Ha.
    split; [|split; [|split]].
    + rewrite E, !length_app. cbn [length]. lia.
    + intros Hle Hnn. rewrite E in Hle, Hnn.
      rewrite total_weight_app in *. cbn [total_weight fold_right] in Hle.
      apply List.Forall_app in Hnn as [_ Hnn]. apply Forall_inv in Hnn.
      fold (total_weight l2) in Hle. lia.
    + intros Hs. exact Hs.
    + rewrite Hfr. destruct g; reflexivity.
Qed.

End OrderFacts.
(** ** Whole games *)

Section ReachFacts.
Import CourierQuest.

Variables range_on pos_on : Prop.
Variable g0 : t.

Lemma walkable_board (g g' : t) (x y : Z) :
  ReachSpec.board g = ReachSpec.board g' ->
  _is_position_walkable g x y = _is_position_walkable g' x y.
Proof.
  unfold ReachSpec.board. intros H. injection H as Hw Hh Ht Hl.
  unfold _is_position_walkable. rewrite Hw, Hh, Ht, Hl. reflexivity.
Qed.

Lemma good_state_current (pos : Position) (g : t) :
  ReachSpec.board g = ReachSpec.board g0 ->
  ReachSpec.good_pos pos_on g0 pos ->
  ReachSpec.good_stamina range_on (stamina g) ->
  ReachSpec.good_reputation range_on (reputation g) ->
  ReachSpec.good_state range_on pos_on g0 (state_with pos g).
Proof.
  intros Hb Hp Hs Hr. exact (conj Hb (conj Hp (conj Hs Hr))).
Qed.

Lemma good_diff_make (base state : GameState.t) :
  ReachSpec.good_state range_on pos_on g0 state ->
  ReachSpec.good_diff range_on pos_on g0 (MemoryEfficientHistory.make_diff base state).
Proof.
  intros (_ & Hp & Hs & Hr). unfold ReachSpec.good_diff, MemoryEfficientHistory.make_diff.
  cbn [MemoryEfficientHistory.d_player_pos MemoryEfficientHistory.d_stamina
       MemoryEfficientHistory.d_reputation].
  split; [|split].
  - intros xy. destruct (_ || _); [|discriminate].
    intros E. injection E as <-. exact Hp.
  - intros s. destruct (Qlt_bool _ _); [|discriminate].
    intros E. injection E as <-. exact Hs.
  - intros r. destruct (negb _); [|discriminate].
    intros E. injection E as <-. exact Hr.
Qed.

Lemma good_history_push (state : GameState.t) (h : MemoryEfficientHistory.t) :
  ReachSpec.good_history range_on pos_on g0 h ->
  ReachSpec.good_state range_on pos_on g0 state ->
  ReachSpec.good_history range_on pos_on g0 (MemoryEfficientHistory.push state h).
Proof.
  intros Hh Hs. pose proof Hh as [Hb Hd]. unfold MemoryEfficientHistory.push.
  destruct (MemoryEfficientHistory.base_state h) as [base|] eqn:E.
  - destruct (MemoryEfficientHistory.nonempty _); [|exact Hh].
    assert (Ha : Forall (ReachSpec.good_diff range_on pos_on g0)
                   (MemoryEfficientHistory.diffs h
                    ++ [MemoryEfficientHistory.make_diff base state])).
    { apply List.Forall_app. split; [exact Hd|].
      constructor; [apply good_diff_make, Hs | constructor]. }
    assert (Hb' : forall base0, Some base = Some base0 ->
                    ReachSpec.good_state range_on pos_on g0 base0) by exact Hb.
    destruct (_ <=? _).
    + split; cbn [MemoryEfficientHistory.base_state MemoryEfficientHistory.diffs];
        [exact Hb'|].
      destruct (MemoryEfficientHistory.diffs h ++ _) as [|d ds]; [constructor|].
      cbn [tl]. apply Forall_inv_tail in Ha. exact Ha.
    + split; cbn [MemoryEfficientHistory.base_state MemoryEfficientHistory.diffs];
        [exact Hb' | exact Ha].
  - split; cbn [MemoryEfficientHistory.base_state MemoryEfficientHistory.diffs];
      [|exact Hd].
    intros base Eb. injection Eb as <-. exact Hs.
Qed.

Lemma good_history_pop (h : MemoryEfficientHistory.t) :
  ReachSpec.good_history range_on pos_on g0 h ->
  ReachSpec.good_history range_on pos_on g0 (snd (MemoryEfficientHistory.pop h)) /\
  (forall state, fst (MemoryEfficientHistory.pop h) = Some state ->
                 ReachSpec.good_state range_on pos_on g0 state).
Proof.
  intros Hh. pose proof Hh as [Hb Hd]. unfold MemoryEfficientHistory.pop.
  destruct (rev (MemoryEfficientHistory.diffs h)) as [|diff before] eqn:E.
  - cbn [fst snd]. split; [exact Hh | discriminate].
  - assert (Ed : MemoryEfficientHistory.diffs h = rev before ++ [diff]).
    { rewrite <- (rev_involutive (MemoryEfficientHistory.diffs h)), E. reflexivity. }
    rewrite Ed in Hd. apply List.Forall_app in Hd as [Hd1 Hd2].
    apply Forall_inv in Hd2.
    destruct (MemoryEfficientHistory.base_state h) as [base|] eqn:Eb; cbn [fst snd].
    + assert (Hb' : forall base0, Some base = Some base0 ->
                      ReachSpec.good_state range_on pos_on g0 base0) by exact Hb.
      split.
      * split; cbn [MemoryEfficientHistory.base_state MemoryEfficientHistory.diffs];
          [exact Hb' | exact Hd1].
      * intros state Es. injection Es as <-.
        destruct (Hb' base eq_refl) as (Bb & Bp & Bs & Br).
        destruct Hd2 as (Dp & Ds & Dr).
        unfold ReachSpec.good_state, MemoryEfficientHistory.rebuild.
        cbn [GameState.player_pos GameState.stamina GameState.reputation].
        split; [exact Bb|]. split; [|split].
        -- destruct (MemoryEfficientHistory.d_player_pos diff) as [xy|] eqn:Ex.
           ++ exact (Dp xy eq_refl).
           ++ exact Bp.
        -- destruct (MemoryEfficientHistory.d_stamina diff) as [s|] eqn:Ex.
           ++ exact (Ds s eq_refl).
           ++ exact Bs.
        -- destruct (MemoryEfficientHistory.d_reputation diff) as [r|] eqn:Ex.
           ++ exact (Dr r eq_refl).
           ++ exact Br.
    + split; [|discriminate].
      split; cbn [MemoryEfficientHistory.base_state MemoryEfficientHistory.diffs];
        [discriminate | exact Hd1].
Qed.

Lemma load_game_history (slot : Z) (disk : RobustFileManager.Disk) (g : t) :
  history (load_game slot disk g) = history g.
Proof.
  unfold load_game, _load_game.
  destruct (RobustFileManager.load_game_with_validation slot disk); destruct g; reflexivity.
Qed.

Lemma good_event (event : Event) (w : t * RobustFileManager.Disk) :
  ReachSpec.good range_on pos_on g0 w ->
  ReachSpec.good range_on pos_on g0 (_handle_game_events event w).
Proof.
  destruct w as [g disk]. intros (Hb & Hp & Hs & Hr & Hh & Hd).
  cbn [fst snd] in *. unfold _handle_game_events.
  destruct event as [| | now now_iso | |].
  - (* pause *)
    unfold ReachSpec.good. cbn [fst snd].
    replace (ReachSpec.board (set_paused (negb (paused g)) g)) with (ReachSpec.board g)
      by (destruct g; reflexivity).
    replace (player_pos (set_paused (negb (paused g)) g)) with (player_pos g)
      by (destruct g; reflexivity).
    replace (stamina (set_paused (negb (paused g)) g)) with (stamina g)
      by (destruct g; reflexivity).
    replace (reputation (set_paused (negb (paused g)) g)) with (reputation g)
      by (destruct g; reflexivity).
    replace (history (set_paused (negb (paused g)) g)) with (history g)
      by (destruct g; reflexivity).
    exact (conj Hb (conj Hp (conj Hs (conj Hr (conj Hh Hd))))).
  - (* interaction *)
    unfold ReachSpec.good. cbn [fst snd].
    destruct (interact_cases g) as [H|[(order & Hin & Hw & H)|(order & Hin & H)]];
      rewrite H; clear H.
    + exact (conj Hb (conj Hp (conj Hs (conj Hr (conj Hh Hd))))).
    + set (g' := set_available_orders _ _).
      replace (ReachSpec.board g') with (ReachSpec.board g)
        by (subst g'; destruct g; reflexivity).
      replace (player_pos g') with (player_pos g) by (subst g'; destruct g; reflexivity).
      replace (stamina g') with (stamina g) by (subst g'; destruct g; reflexivity).
      replace (reputation g') with (reputation g) by (subst g'; destruct g; reflexivity).
      replace (history g') with (history g) by (subst g'; destruct g; reflexivity).
      exact (conj Hb (conj Hp (conj Hs (conj Hr (conj Hh Hd))))).
    + pose proof (deliver_order_frame g order) as Hfr. cbv zeta in Hfr.
      pose proof (deliver_order_reputation_range g order) as Hrr.
      set (g' := deliver_order order g) in *.
      replace (ReachSpec.board g') with (ReachSpec.board g)
        by (rewrite Hfr; destruct g; reflexivity).
      replace (player_pos g') with (player_pos g) by (rewrite Hfr; destruct g; reflexivity).
      replace (stamina g') with (stamina g) by (rewrite Hfr; destruct g; reflexivity).
      replace (history g') with (history g) by (rewrite Hfr; destruct g; reflexivity).
      exact (conj Hb (conj Hp (conj Hs (conj (fun _ => proj2 Hrr) (conj Hh Hd))))).
  - (* save *)
    unfold ReachSpec.good. cbn [fst snd].
    refine (conj Hb (conj Hp (conj Hs (conj Hr (conj Hh _))))).
    unfold save_game, RobustFileManager.save_game_with_validation.
    destruct (_ =? 0); cbn [snd]; [exact Hd|].
    intros slot st. unfold RobustFileManager.load_game_with_validation.
    destruct (decide (slot = 1)) as [->|Hne].
    + rewrite lookup_insert_eq. intros E. injection E as <-.
      apply good_state_current; assumption.
    + rewrite lookup_insert_ne by congruence. apply Hd.
  - (* load *)
    unfold ReachSpec.good. cbn [fst snd].
    destruct (RobustFileManager.load_game_with_validation 1 disk) as [st|] eqn:E.
    + destruct (Hd 1 st E) as (Sb & Sp & Ss & Sr).
      destruct (load_game_fields 1 disk st g E) as (F1 & F2 & F3 & F4 & F5 & F6 & F7 & F8).
      unfold ReachSpec.board. rewrite F1, F2, F3, F5, F6, F7, F8, load_game_history.
      exact (conj Sb (conj Sp (conj Ss (conj Sr (conj Hh Hd))))).
    + unfold load_game, _load_game. rewrite E. cbn [snd].
      exact (conj Hb (conj Hp (conj Hs (conj Hr (conj Hh Hd))))).
  - (* undo *)
    unfold ReachSpec.good. cbn [fst snd]. unfold undo_move.
    destruct (0 <? MemoryEfficientHistory.size (history g)); [|exact (conj Hb (conj Hp (conj Hs (conj Hr (conj Hh Hd)))))].
    destruct (good_history_pop (history g) Hh) as [Hh' Hst].
    destruct (MemoryEfficientHistory.pop (history g)) as [state h'].
    cbn [fst snd] in Hh', Hst.
    destruct state as [state|].
    + destruct (Hst state eq_refl) as (Sb & Sp & Ss & Sr).
      set (g' := set_delivery_streak _ _).
      replace (ReachSpec.board g') with (ReachSpec.board g)
        by (subst g'; destruct g; reflexivity).
      replace (player_pos g') with (GameState.player_pos state)
        by (subst g'; destruct g; reflexivity).
      replace (stamina g') with (GameState.stamina state)
        by (subst g'; destruct g; reflexivity).
      replace (reputation g') with (GameState.reputation state)
        by (subst g'; destruct g; reflexivity).
      replace (history g') with h' by (subst g'; destruct g; reflexivity).
      exact (conj Hb (conj Sp (conj Ss (conj Sr (conj Hh' Hd))))).
    + replace (ReachSpec.board (set_history h' g)) with (ReachSpec.board g)
        by (destruct g; reflexivity).
      replace (player_pos (set_history h' g)) with (player_pos g)
        by (destruct g; reflexivity).
      replace (stamina (set_history h' g)) with (stamina g) by (destruct g; reflexivity).
      replace (reputation (set_history h' g)) with (reputation g)
        by (destruct g; reflexivity).
      replace (history (set_history h' g)) with h' by (destruct g; reflexivity).
      exact (conj Hb (conj Hp (conj Hs (conj Hr (conj Hh' Hd))))).
Qed.

Lemma good_events (events : list Event) (w : t * RobustFileManager.Disk) :
  ReachSpec.good range_on pos_on g0 w ->
  ReachSpec.good range_on pos_on g0 (handle_events events w).
Proof.
  unfold handle_events. revert w.
  induction events as [|event events IH]; intros w Hw; cbn [fold_left]; [exact Hw|].
  apply IH. destruct (game_state (fst w)); try exact Hw. apply good_event, Hw.
Qed.

Lemma walkable_of_valid (g : t) (pos : Position) :
  MoveSpec.in_bounds g pos -> MoveSpec.target_blocked g pos = false ->
  _is_position_walkable g (pos_x pos) (pos_y pos) = true.
Proof.
  unfold MoveSpec.in_bounds, MoveSpec.target_blocked, _is_position_walkable.
  intros [Hx Hy] Hb.
  destruct (Z.leb_spec 0 (pos_x pos)), (Z.ltb_spec (pos_x pos) (city_width g)),
    (Z.leb_spec 0 (pos_y pos)), (Z.ltb_spec (pos_y pos) (city_height g)); try lia.
  cbn [andb negb].
  destruct (tile_at (tiles g) (pos_x pos) (pos_y pos)); [|reflexivity].
  rewrite Hb. reflexivity.
Qed.

Lemma good_input (keys : Keys) (dt M_clima : Q) (g : t) (disk : RobustFileManager.Disk) :
  ReachSpec.good range_on pos_on g0 (g, disk) ->
  ReachSpec.good range_on pos_on g0 (handle_input keys dt M_clima g, disk).
Proof.
  intros (Hb & Hp & Hs & Hr & Hh & Hd). cbn [fst snd] in *.
  destruct (handle_input_step keys dt M_clima g) as (_ & Hcase & Hle).
  set (g' := handle_input keys dt M_clima g) in *.
  unfold ReachSpec.good. cbn [fst snd].
  destruct Hcase as [H|(H & _ & Hin & Hbl & Hval & Hnn)].
  - replace (ReachSpec.board g') with (ReachSpec.board g)
      by (rewrite H; destruct g; reflexivity).
    replace (player_pos g') with (player_pos g) by (rewrite H; destruct g; reflexivity).
    replace (stamina g') with (stamina g) by (rewrite H; destruct g; reflexivity).
    replace (reputation g') with (reputation g) by (rewrite H; destruct g; reflexivity).
    replace (history g') with (history g) by (rewrite H; destruct g; reflexivity).
    exact (conj Hb (conj Hp (conj Hs (conj Hr (conj Hh Hd))))).
  - set (target := mkPosition _ _) in *.
    assert (Eb : ReachSpec.board g' = ReachSpec.board g)
      by (rewrite H; destruct g; reflexivity).
    assert (Ep : player_pos g' = target) by (rewrite H; destruct g; reflexivity).
    assert (Er : reputation g' = reputation g) by (rewrite H; destruct g; reflexivity).
    assert (Eh : history g' = history g) by (rewrite H; destruct g; reflexivity).
    rewrite Eb, Ep, Er, Eh.
    split; [exact Hb|]. split; [|split; [|split; [exact Hr|split; assumption]]].
    + intros _. rewrite <- (walkable_board g g0 _ _ Hb).
      apply walkable_of_valid; assumption.
    + intros Hon. specialize (Hs Hon). split; [exact Hnn|]. lra.
Qed.

Lemma update_reputation_le (dt : Q) (weather' : Weather) (g : t) :
  reputation (update dt weather' g) <= reputation g.
Proof.
  destruct (running_dec g) as [Hrun|Hn]; [|rewrite update_idle by exact Hn; lia].
  rewrite (update_steps dt weather' g Hrun).
  rewrite judge_shape. cbv zeta. rewrite recover_shape. cbv zeta.
  set (g1 := TickSpec.remember g).
  set (g2 := TickSpec.advance dt weather' g1).
  transitivity (reputation g2).
  { generalize (game_over (TickSpec.judge (TickSpec.recover dt g2)))
      (victory (TickSpec.judge (TickSpec.recover dt g2)))
      (stamina (TickSpec.recover dt g2)).
    intros. destruct g2; cbn. lia. }
  subst g2. unfold TickSpec.advance.
  rewrite check_expired_orders_reputation.
  set (n := Z.of_nat _).
  assert (reputation (_process_order_releases
            (set_weather_system weather' (set_game_time (Qred (game_time g1 + dt)) g1)))
          = reputation g).
  { rewrite process_order_releases_shape. cbv zeta.
    subst g1. rewrite remember_shape. cbv zeta. destruct g; reflexivity. }
  lia.
Qed.

Lemma good_update (dt : Q) (weather' : Weather) (g : t) (disk : RobustFileManager.Disk) :
  (range_on -> (0 <= dt)%Q) ->
  ReachSpec.good range_on pos_on g0 (g, disk) ->
  ReachSpec.good range_on pos_on g0 (update dt weather' g, disk).
Proof.
  intros Hdt Hg.
  destruct (running_dec g) as [Hrun|Hn]; [|rewrite update_idle by exact Hn; exact Hg].
  destruct Hg as (Hb & Hp & Hs & Hr & Hh & Hd). cbn [fst snd] in *.
  pose proof (update_shape dt weather' g Hrun) as H. cbv zeta in H.
  pose proof (update_reputation_le dt weather' g) as Hrep.
  assert (Ehist : history (update dt weather' g) = history (TickSpec.remember g)).
  { rewrite (update_steps dt weather' g Hrun).
    rewrite judge_shape. cbv zeta. rewrite recover_shape. cbv zeta.
    rewrite advance_shape. cbv zeta.
    generalize (TickSpec.remember g). intros g1.
    destruct g1; reflexivity. }
  set (g' := update dt weather' g) in *.
  unfold ReachSpec.good. cbn [fst snd].
  replace (ReachSpec.board g') with (ReachSpec.board g)
    by (rewrite H; destruct g; reflexivity).
  replace (player_pos g') with (player_pos g) by (rewrite H; destruct g; reflexivity).
  split; [exact Hb|]. split; [exact Hp|].
  split; [|split; [|split; [|exact Hd]]].
  - intros Hon. specialize (Hs Hon).
    destruct (update_stamina_rule dt weather' g Hrun (Hdt Hon)) as (_ & _ & Hle & Hup).
    fold g' in Hle, Hup. split; [lra | apply Hup; lra].
  - intros Hon. specialize (Hr Hon). lia.
  - rewrite Ehist. unfold TickSpec.remember.
    destruct (_ || _); [|exact Hh].
    replace (history (set_last_history_save (game_time g)
               (set_history (MemoryEfficientHistory.push (current_state g) (history g)) g)))
      with (MemoryEfficientHistory.push (current_state g) (history g))
      by (destruct g; reflexivity).
    apply good_history_push; [exact Hh|].
    apply good_state_current; assumption.
Qed.

Lemma good_frame (f : Frame) (w : t * RobustFileManager.Disk) :
  (range_on -> (0 <= frame_dt f)%Q) ->
  ReachSpec.good range_on pos_on g0 w ->
  ReachSpec.good range_on pos_on g0 (frame w f).
Proof.
  intros Hdt Hw. unfold frame.
  pose proof (good_events (events f) w Hw) as He.
  destruct (handle_events (events f) w) as [g disk].
  apply good_update.
  - intros Hon. specialize (Hdt Hon). apply Q.min_glb; [exact Hdt | discriminate].
  - destruct (game_state g); try exact He. apply good_input, He.
Qed.

Lemma good_run (fs : list Frame) (w : t * RobustFileManager.Disk) :
  (range_on -> Forall (fun f => (0 <= frame_dt f)%Q) fs) ->
  ReachSpec.good range_on pos_on g0 w ->
  ReachSpec.good range_on pos_on g0 (run w fs).
Proof.
  unfold run. revert w.
  induction fs as [|f fs IH]; intros w Hdt Hw; cbn [fold_left]; [exact Hw|].
  apply IH.
  - intros Hon. specialize (Hdt Hon). apply Forall_inv_tail in Hdt. exact Hdt.
  - apply good_frame; [|exact Hw].
    intros Hon. specialize (Hdt Hon). apply Forall_inv in Hdt. exact Hdt.
Qed.

End ReachFacts.

Section WholeGames.
Import CourierQuest.

Lemma new_game_fields (map_data : MapData) (orders_data : list Order) :
  let g := new_game map_data orders_data in
  stamina g = 100%Q /\ reputation g = 70 /\
  history g = MemoryEfficientHistory.init.
Proof. repeat split. Qed.

Lemma good_new_game (range_on pos_on : Prop) (map_data : MapData)
    (orders_data : list Order) :
  let g0 := new_game map_data orders_data in
  (pos_on -> _is_position_walkable g0 (pos_x (player_pos g0)) (pos_y (player_pos g0)) = true) ->
  ReachSpec.good range_on pos_on g0 (g0, ∅).
Proof.
  intros g0 Hp.
  destruct (new_game_fields map_data orders_data) as (Es & Er & Eh). fold g0 in Es, Er, Eh.
  unfold ReachSpec.good. cbn [fst snd]. rewrite Es, Er, Eh.
  split; [reflexivity|]. split; [exact Hp|].
  split; [intros _; lra|]. split; [intros _; lia|]. split.
  - split; [discriminate | constructor].
  - intros slot st. unfold RobustFileManager.load_game_with_validation.
    rewrite lookup_empty. discriminate.
Qed.

(** X18: in a game started with [new_game] on an empty save directory and
    driven by frames of the key presses SPACE, E, F5, F9 and Ctrl+Z, the
    direction keys and frame times that are not negative, the stamina is
    always between 0 and 100 and the reputation never passes 100, whatever
    is saved, loaded or undone on the way. *)
Theorem stamina_and_reputation_within_limits (map_data : MapData)
    (orders_data : list Order) (fs : list Frame) :
  Forall (fun f => (0 <= frame_dt f)%Q) fs ->
  let g := fst (run (new_game map_data orders_data, ∅) fs) in
  (0 <= stamina g <= 100)%Q /\ reputation g <= 100.
Proof.
  intros Hdt g.
  pose proof (good_run True False (new_game map_data orders_data) fs
                (new_game map_data orders_data, ∅) (fun _ => Hdt)
                (good_new_game True False map_data orders_data
                   (fun H : False => match H with end)))
    as (_ & _ & Hs & Hr & _).
  fold g in Hs, Hr. split; [apply Hs, I | apply Hr, I].
Qed.

(** X19: in a game started with [new_game] on a walkable cell, on an empty
    save directory, and driven by frames of the key presses SPACE, E, F5,
    F9 and Ctrl+Z and the direction keys, the board never changes and the
    player always stands on a walkable cell of it: inside the board and not
    on a blocked tile, also after a load or an undo. *)
Theorem player_stays_on_walkable_cells (map_data : MapData)
    (orders_data : list Order) (fs : list Frame) :
  let g0 := new_game map_data orders_data in
  _is_position_walkable g0 (pos_x (player_pos g0)) (pos_y (player_pos g0)) = true ->
  let g := fst (run (g0, ∅) fs) in
  _is_position_walkable g (pos_x (player_pos g)) (pos_y (player_pos g)) = true /\
  (city_width g, city_height g, tiles g, legend g)
  = (city_width g0, city_height g0, tiles g0, legend g0).
Proof.
  intros g0 Hstart g.
  pose proof (good_run False True g0 fs (g0, ∅)
                (fun H : False => match H with end)
                (good_new_game False True map_data orders_data (fun _ => Hstart)))
    as (Hb & Hp & _).
  fold g in Hb, Hp. split; [|exact Hb].
  rewrite (walkable_board g g0 _ _ Hb). apply Hp, I.
Qed.

End WholeGames.
(** ** Commands of the panels, undo, and the save directory *)

Section CommandFacts.
Import CourierQuest.

Lemma total_weight_Permutation (l l' : list Order) :
  Permutation l l' -> total_weight l = total_weight l'.
Proof.
  unfold total_weight.
  induction 1 as [|x l l' _ IH|x y l|l l' l'' _ IH1 _ IH2]; cbn [fold_right]; lia.
Qed.

(** X20: the three sorting commands change the order of a list and nothing
    else.  [_sort_inventory_by_priority] and [_sort_inventory_by_deadline]
    leave in the inventory the orders that were there, so the carried weight
    is the same, the first with the highest priority in front, the second
    with the least time remaining, as the engine computes it, in front.
    [_sort_orders_by_distance] leaves in the container the orders that were
    there, the one with the nearest pickup in front. *)
Theorem sort_commands_keep_orders (g : t) :
  let gp := _sort_inventory_by_priority g in
  let gt := _sort_inventory_by_deadline g in
  let gd := _sort_orders_by_distance g in
  (gp = set_inventory (inventory gp) g /\
   Permutation (inventory gp) (inventory g) /\
   total_weight (inventory gp) = total_weight (inventory g) /\
   OptimizedPriorityQueue.sorted_desc (inventory gp)) /\
  (gt = set_inventory (inventory gt) g /\
   Permutation (inventory gt) (inventory g) /\
   total_weight (inventory gt) = total_weight (inventory g) /\
   StronglySorted
     (fun a b => (get_order_time_remaining g a <= get_order_time_remaining g b)%Q)
     (inventory gt)) /\
  (gd = set_available_orders (available_orders gd) g /\
   Permutation (available_orders gd) (available_orders g) /\
   StronglySorted (SortSpec.by_distance (player_pos g)) (available_orders gd)).
Proof.
  intros gp gt gd.
  assert (Hp : inventory gp = SortingAlgorithms.quicksort_by_priority (inventory g)).
  { subst gp. unfold _sort_inventory_by_priority.
    destruct (inventory g) eqn:E; [rewrite E; reflexivity|].
    rewrite <- E. destruct g; reflexivity. }
  assert (Ht : inventory gt
               = SortingAlgorithms.mergesort_by_deadline (inventory g) (game_time g)).
  { subst gt. unfold _sort_inventory_by_deadline.
    destruct (inventory g) eqn:E; [rewrite E; reflexivity|].
    rewrite <- E. destruct g; reflexivity. }
  assert (Hd : available_orders gd
               = SortingAlgorithms.insertion_sort_by_distance (available_orders g)
                   (player_pos g)).
  { subst gd. unfold _sort_orders_by_distance.
    destruct (available_orders g) eqn:E; [rewrite E; reflexivity|].
    rewrite <- E. destruct g; reflexivity. }
  destruct (quicksort_fuel_spec (length (inventory g)) (inventory g) (Nat.le_refl _))
    as (P1 & S1 & _).
  destruct (mergesort_fuel_spec (game_time g) (length (inventory g)) (inventory g)
              (Nat.le_refl _)) as (P2 & S2 & _).
  destruct (insertion_sort_spec (available_orders g) (player_pos g)) as (P3 & S3 & _).
  split; [|split].
  - rewrite Hp. split; [|split; [exact P1|split; [apply total_weight_Permutation, P1|exact S1]]].
    subst gp. unfold _sort_inventory_by_priority.
    destruct (inventory g) eqn:E; destruct g; cbn in *; subst; reflexivity.
  - rewrite Ht. split; [|split; [exact P2|split; [apply total_weight_Permutation, P2|exact S2]]].
    subst gt. unfold _sort_inventory_by_deadline.
    destruct (inventory g) eqn:E; destruct g; cbn in *; subst; reflexivity.
  - rewrite Hd. split; [|split; [exact P3|exact S3]].
    subst gd. unfold _sort_orders_by_distance.
    destruct (available_orders g) eqn:E; destruct g; cbn in *; subst; reflexivity.
Qed.

Lemma py_index_Some {A} (l : list A) (i : Z) (n : nat) :
  py_index l i = Some n -> (n < length l)%nat.
Proof.
  unfold py_index.
  destruct (Z.leb_spec 0 i), (Z.ltb_spec i (Z.of_nat (length l))); cbn [andb].
  - intros E. injection E as <-. lia.
  - destruct (Z.ltb_spec i 0); cbn [andb]; [lia | discriminate].
  - destruct (Z.ltb_spec i 0), (Z.leb_spec (- Z.of_nat (length l)) i); cbn [andb];
      try discriminate.
    intros E. injection E as <-. lia.
  - destruct (Z.ltb_spec i 0), (Z.leb_spec (- Z.of_nat (length l)) i); cbn [andb];
      try discriminate; lia.
Qed.

Lemma py_index_defined {A} (l : list A) (i : Z) :
  - Z.of_nat (length l) <= i < Z.of_nat (length l) -> py_index l i <> None.
Proof.
  intros H. unfold py_index.
  destruct (Z.leb_spec 0 i), (Z.ltb_spec i (Z.of_nat (length l))); cbn [andb];
    try discriminate; try lia.
  destruct (Z.ltb_spec i 0), (Z.leb_spec (- Z.of_nat (length l)) i); cbn [andb];
    try discriminate; lia.
Qed.

Lemma lookup_In {A} (l : list A) (n : nat) (x : A) : l !! n = Some x -> In x l.
Proof.
  revert n. induction l as [|a l IH]; intros [|n] E; cbn in *; try discriminate.
  - injection E as ->. left. reflexivity.
  - right. eapply IH, E.
Qed.

Lemma same_priorities_sorted (l l' : list Order) :
  Forall2 (fun a b => priority b = priority a) l l' ->
  OptimizedPriorityQueue.sorted_desc l -> OptimizedPriorityQueue.sorted_desc l'.
Proof.
  unfold OptimizedPriorityQueue.sorted_desc.
  induction 1 as [|a b l l' Hab Hl IH]; intros Hs; [constructor|].
  apply StronglySorted_inv in Hs as [Hs Hf].
  constructor; [apply IH, Hs|].
  clear IH Hs. induction Hl as [|a' b' l l' Hab' Hl IH]; [constructor|].
  apply Forall_inv in Hf as Ha'. apply Forall_inv_tail in Hf.
  constructor; [|apply IH, Hf].
  unfold OptimizedPriorityQueue.by_priority in *. lia.
Qed.

Lemma Forall2_insert_one {A} (R : A -> A -> Prop) (l : list A) (n : nat) (x y : A) :
  (forall a, R a a) -> l !! n = Some x -> R x y -> Forall2 R l (<[n := y]> l).
Proof.
  intros Hrefl. revert n. induction l as [|a l IH]; intros [|n] Hl Hxy;
    cbn in *; try discriminate.
  - injection Hl as ->. constructor; [exact Hxy|].
    clear - Hrefl. induction l; constructor; auto.
  - constructor; [apply Hrefl | apply IH; assumption].
Qed.

(** X21: [accept_selected_order] raises no error for an index from
    [-len(items)] on.  It leaves every order in the container, at its
    place: at most the selected order changes, to the status [accepted] with
    the current game time as [accepted_at]; this happens only when the order
    has time left and its weight fits with the carried weight.  Nothing else
    in the game changes, so nothing is carried that was not, and a container
    in priority order stays in priority order.  [deliver_selected_order]
    either leaves the game as it is or delivers an order of the inventory
    whose dropoff is the cell of the player. *)
Theorem order_panel_commands (index : Z) (g : t) :
  (- Z.of_nat (length (available_orders g)) <= index ->
   accept_selected_order index g <> None) /\
  (forall g' : t,
     accept_selected_order index g = Some g' ->
     g' = set_available_orders (available_orders g') g /\
     Forall2 (fun a b =>
                b = a \/
                (b = set_accepted_at (game_time g) (set_status accepted a) /\
                 (0 < get_order_time_remaining g a)%Q /\
                 total_weight (inventory g) + weight a <= max_weight))
             (available_orders g) (available_orders g') /\
     (OptimizedPriorityQueue.sorted_desc (available_orders g) ->
      OptimizedPriorityQueue.sorted_desc (available_orders g'))) /\
  (forall (g' : t) (index' : Z),
     deliver_selected_order index g = Some (g', index') ->
     (g' = g /\ index' = index) \/
     (exists order : Order,
        In order (inventory g) /\
        pos_x (dropoff order) = pos_x (player_pos g) /\
        pos_y (dropoff order) = pos_y (player_pos g) /\
        g' = deliver_order order g)).
Proof.
  assert (Hsame : forall l : list Order,
            Forall2 (fun a b =>
                b = a \/
                (b = set_accepted_at (game_time g) (set_status accepted a) /\
                 (0 < get_order_time_remaining g a)%Q /\
                 total_weight (inventory g) + weight a <= max_weight)) l l).
  { induction l; constructor; auto. }
  split; [|split].
  - intros Hi. unfold accept_selected_order.
    destruct (available_orders g) as [|o0 l0] eqn:E; [discriminate|].
    rewrite <- E in *. clear E.
    destruct (Z.leb_spec (Z.of_nat (length (available_orders g))) index);
      [discriminate|].
    destruct (py_index (available_orders g) index) as [n|] eqn:En.
    + pose proof (py_index_Some _ _ _ En) as Hn.
      destruct (lookup_lt_is_Some_2 (available_orders g) n Hn) as [order Eo].
      rewrite Eo.
      destruct (Qle_bool _ 0); [discriminate|].
      destruct (_ <=? max_weight); discriminate.
    + exfalso. apply (py_index_defined (available_orders g) index); [lia | exact En].
  - intros g'. unfold accept_selected_order.
    destruct (available_orders g) as [|o0 l0] eqn:E.
    { intros Hsome. injection Hsome as <-. rewrite E.
      split; [destruct g; cbn in *; subst; reflexivity|]. split; [constructor|auto]. }
    rewrite <- E in *. clear E o0 l0.
    assert (Hid : Some g = Some g' ->
              g' = set_available_orders (available_orders g') g /\
              Forall2 (fun a b =>
                b = a \/
                (b = set_accepted_at (game_time g) (set_status accepted a) /\
                 (0 < get_order_time_remaining g a)%Q /\
                 total_weight (inventory g) + weight a <= max_weight))
                (available_orders g) (available_orders g') /\
              (OptimizedPriorityQueue.sorted_desc (available_orders g) ->
               OptimizedPriorityQueue.sorted_desc (available_orders g'))).
    { intros Hsome. injection Hsome as <-.
      split; [destruct g; reflexivity|]. split; [apply Hsame | auto]. }
    destruct (Z.leb_spec (Z.of_nat (length (available_orders g))) index); [exact Hid|].
    destruct (py_index (available_orders g) index) as [n|]; [|discriminate].
    destruct (available_orders g !! n) as [order|] eqn:Eo; [|discriminate].
    destruct (Qle_bool (get_order_time_remaining g order) 0) eqn:Et; [exact Hid|].
    apply Qle_bool_false_iff in Et.
    destruct (Z.leb_spec (total_weight (inventory g) + weight order) max_weight) as [Hw|Hw];
      [|exact Hid].
    intros Hsome. injection Hsome as <-.
    rewrite available_orders_set_available.
    split; [reflexivity|].
    assert (HF : Forall2 (fun a b =>
                b = a \/
                (b = set_accepted_at (game_time g) (set_status accepted a) /\
                 (0 < get_order_time_remaining g a)%Q /\
                 total_weight (inventory g) + weight a <= max_weight))
               (available_orders g)
               (<[n := set_accepted_at (game_time g) (set_status accepted order)]>
                  (available_orders g))).
    { apply (Forall2_insert_one _ _ n order); auto. }
    split; [exact HF|].
    apply same_priorities_sorted.
    eapply Forall2_impl; [exact HF|].
    cbn. intros a b [-> | (-> & _)]; reflexivity.
  - intros g' index'. unfold deliver_selected_order.
    destruct (inventory g) as [|o0 l0] eqn:E.
    { intros Hsome. injection Hsome as <- <-. left. split; reflexivity. }
    rewrite <- E in *. clear E o0 l0.
    destruct (Z.leb_spec (Z.of_nat (length (inventory g))) index).
    { intros Hsome. injection Hsome as <- <-. left. split; reflexivity. }
    destruct (py_index (inventory g) index) as [n|]; [|discriminate].
    destruct (inventory g !! n) as [order|] eqn:Eo; [|discriminate].
    destruct (Z.eqb_spec (pos_x (dropoff order)) (pos_x (player_pos g))) as [Hx|Hx];
      cbn [andb].
    2:{ intros Hsome. injection Hsome as <- <-. left. split; reflexivity. }
    destruct (Z.eqb_spec (pos_y (dropoff order)) (pos_y (player_pos g))) as [Hy|Hy].
    2:{ intros Hsome. injection Hsome as <- <-. left. split; reflexivity. }
    intros Hsome. injection Hsome as <- _. right. exists order.
    split; [|auto].
    eapply lookup_In, Eo.
Qed.

(** X22: [undo_move] on a history without a diff leaves the game as it is.
    On a history with diffs it takes exactly the last one out and leaves the
    base snapshot; it sets the position, the stamina, the reputation, the
    money and the streak, and changes nothing else: the clock, the
    inventory, the container, the backlog and the delivered orders stay as
    they are. *)
Theorem undo_move_restores_five (g : t) :
  let g' := undo_move g in
  (MemoryEfficientHistory.diffs (history g) = [] -> g' = g) /\
  (MemoryEfficientHistory.diffs (history g) <> [] ->
   MemoryEfficientHistory.diffs (history g)
   = MemoryEfficientHistory.diffs (history g')
     ++ [List.last (MemoryEfficientHistory.diffs (history g))
           (MemoryEfficientHistory.mkDiff None None None None)]) /\
  MemoryEfficientHistory.base_state (history g')
  = MemoryEfficientHistory.base_state (history g) /\
  g' = set_delivery_streak (delivery_streak g')
         (set_money (money g')
            (set_reputation (reputation g')
               (set_stamina (stamina g')
                  (set_player_pos (player_pos g')
                     (set_history (history g') g))))).
Proof.
  intros g'. subst g'. unfold undo_move, MemoryEfficientHistory.size.
  destruct (MemoryEfficientHistory.diffs (history g)) as [|d0 ds0] eqn:Ed.
  - change (0 <? Z.of_nat (length (@nil MemoryEfficientHistory.Diff))) with false.
    cbv iota. split; [reflexivity|]. split; [congruence|].
    split; [reflexivity|]. destruct g; reflexivity.
  - replace (0 <? Z.of_nat (length (d0 :: ds0))) with true
      by (symmetry; apply Z.ltb_lt; cbn [length]; lia).
    split; [discriminate|].
    unfold MemoryEfficientHistory.pop. rewrite Ed.
    destruct (rev (d0 :: ds0)) as [|diff before] eqn:Er.
    { apply (f_equal (@length _)) in Er. rewrite length_rev in Er. discriminate. }
    assert (E : d0 :: ds0 = rev before ++ [diff]).
    { rewrite <- (rev_involutive (d0 :: ds0)), Er. reflexivity. }
    rewrite E. rewrite last_last.
    destruct (MemoryEfficientHistory.base_state (history g)) as [base|] eqn:Eb.
    + split; [intros _; destruct g; reflexivity|].
      split; [destruct g; cbn in *; subst; reflexivity|].
      destruct g; reflexivity.
    + split; [intros _; destruct g; reflexivity|].
      split; [destruct g; cbn in *; subst; reflexivity|].
      destruct g; reflexivity.
Qed.

(** X23: [_load_game] returns [False] exactly when the slot has no file, or a
    file that cannot be read, or one that holds something other than a save,
    or a save of the old format; the game is then left as it is.  A load
    that succeeds does not touch the undo history, the pause, the
    end-of-game flags, the screen, the time since the last move, the clean
    flag, the mark of the first late delivery and the time of the last
    snapshot: a game that was over stays over. *)
Theorem load_game_failure_and_frame (slot : Z) (disk : RobustFileManager.Disk) (g : t) :
  let ok := fst (_load_game slot disk g) in
  let g' := snd (_load_game slot disk g) in
  (ok = false <->
   match disk !! slot with
   | Some (RobustFileManager.SaveData _ _ (RobustFileManager.Full _) _) => False
   | _ => True
   end) /\
  (ok = false -> g' = g) /\
  (history g', paused g', game_over g', victory g', game_state g')
  = (history g, paused g, game_over g, victory g, game_state g) /\
  (last_move_time g', last_delivery_was_clean g', first_late_penalty_applied g',
   last_history_save g')
  = (last_move_time g, last_delivery_was_clean g, first_late_penalty_applied g,
     last_history_save g).
Proof.
  intros ok g'. subst ok g'.
  unfold _load_game, RobustFileManager.load_game_with_validation.
  destruct (disk !! slot) as [[v ts [st|] md| |]|]; cbn [fst snd];
    try (split; [split; [intros _; exact I | reflexivity]|];
         split; [reflexivity|]; split; reflexivity).
  split; [split; [discriminate | contradiction]|].
  split; [discriminate|].
  split; destruct g; reflexivity.
Qed.

(** X24: [save_game] fails exactly when the goal of the game is 0, and then
    leaves the save directory as it is.  A save writes its own slot only:
    what loading another slot returns, and the information shown for it, are
    the same as before.  After a successful save the information of the slot
    holds the time stamp, the game time, the position of the player and the
    share of the goal that has been earned, in percent. *)
Theorem save_game_touches_one_slot (now : Q) (now_iso : string) (slot : Z) (g : t)
    (disk : RobustFileManager.Disk) :
  let ok := fst (save_game now now_iso slot g disk) in
  let disk' := snd (save_game now now_iso slot g disk) in
  (ok = false <-> goal g = 0) /\
  (ok = false -> disk' = disk) /\
  (forall slot' : Z,
     slot' <> slot ->
     RobustFileManager.load_game_with_validation slot' disk'
     = RobustFileManager.load_game_with_validation slot' disk /\
     RobustFileManager.get_save_info slot' disk'
     = RobustFileManager.get_save_info slot' disk) /\
  (ok = true ->
   exists info : RobustFileManager.Metadata,
     RobustFileManager.get_save_info slot disk' = Some info /\
     RobustFileManager.saved_at info = now_iso /\
     RobustFileManager.game_time info = game_time g /\
     RobustFileManager.player_position info
     = (pos_x (player_pos g), pos_y (player_pos g)) /\
     (RobustFileManager.completion_percentage info
      == inject_Z (money g) / inject_Z (goal g) * 100)%Q).
Proof.
  intros ok disk'. subst ok disk'.
  unfold save_game, RobustFileManager.save_game_with_validation.
  replace (GameState.goal (state_with (player_pos g) g)) with (goal g) by reflexivity.
  destruct (Z.eqb_spec (goal g) 0) as [H0|H0]; cbn [fst snd].
  - split; [tauto|]. split; [reflexivity|]. split; [auto | discriminate].
  - split; [split; [discriminate | contradiction]|].
    split; [discriminate|]. split.
    + intros slot' Hne.
      unfold RobustFileManager.load_game_with_validation, RobustFileManager.get_save_info.
      rewrite lookup_insert_ne by congruence. split; reflexivity.
    + intros _. unfold RobustFileManager.get_save_info. rewrite lookup_insert_eq.
      eexists. split; [reflexivity|]. cbn. repeat split; reflexivity.
Qed.

End CommandFacts.
(** ** The score table *)

Section ScoreFacts.
Import CourierQuest.
Import RobustFileManager.

Lemma insert_by_score_Permutation (x : ScoreEntry) (sorted : list ScoreEntry) :
  Permutation (insert_by_score x sorted) (x :: sorted).
Proof.
  induction sorted as [|first rest IH]; cbn [insert_by_score]; [reflexivity|].
  destruct (score_key first <=? score_key x); [reflexivity|].
  rewrite IH. apply perm_swap.
Qed.

Lemma insert_by_score_sorted (x : ScoreEntry) (sorted : list ScoreEntry) :
  StronglySorted ScoreSpec.by_score sorted ->
  StronglySorted ScoreSpec.by_score (insert_by_score x sorted).
Proof.
  induction 1 as [|first rest Hs IH Hf]; cbn [insert_by_score].
  - repeat constructor.
  - destruct (Z.leb_spec (score_key first) (score_key x)) as [Hle|Hgt].
    + constructor; [constructor; assumption|].
      constructor; [exact Hle|].
      rewrite List.Forall_forall in *. intros y Hy. specialize (Hf y Hy).
      unfold ScoreSpec.by_score in *. lia.
    + constructor; [exact IH|].
      rewrite List.Forall_forall in *. intros y Hy.
      apply (Permutation_in _ (insert_by_score_Permutation _ _)) in Hy.
      destruct Hy as [<- | Hy]; [|apply Hf, Hy].
      unfold ScoreSpec.by_score. lia.
Qed.

Lemma insert_by_score_same_key (k : Z) (x : ScoreEntry) (sorted : list ScoreEntry) :
  List.filter (fun y => score_key y =? k) (insert_by_score x sorted)
  = List.filter (fun y => score_key y =? k) (x :: sorted).
Proof.
  induction sorted as [|first rest IH]; cbn [insert_by_score]; [reflexivity|].
  destruct (Z.leb_spec (score_key first) (score_key x)) as [Hle|Hgt]; [reflexivity|].
  cbn [List.filter] in *. rewrite IH.
  destruct (Z.eqb_spec (score_key x) k), (Z.eqb_spec (score_key first) k);
    try reflexivity. lia.
Qed.

Lemma sort_by_score_spec (scores : list ScoreEntry) :
  Permutation (sort_by_score scores) scores /\
  StronglySorted ScoreSpec.by_score (sort_by_score scores) /\
  (forall k : Z,
     List.filter (fun y => score_key y =? k) (sort_by_score scores)
     = List.filter (fun y => score_key y =? k) scores).
Proof.
  unfold sort_by_score.
  induction scores as [|x scores (IHp & IHs & IHk)]; cbn [fold_right].
  - repeat split; constructor.
  - split; [|split].
    + rewrite insert_by_score_Permutation, IHp. reflexivity.
    + apply insert_by_score_sorted, IHs.
    + intros k. rewrite insert_by_score_same_key. cbn [List.filter].
      rewrite IHk. reflexivity.
Qed.

Lemma insert_front (x : ScoreEntry) (l : list ScoreEntry) :
  Forall (fun y => score_key y <= score_key x) l -> insert_by_score x l = x :: l.
Proof.
  intros H. destruct l as [|first rest]; [reflexivity|]. cbn [insert_by_score].
  apply Forall_inv in H. destruct (Z.leb_spec (score_key first) (score_key x)); [reflexivity|lia].
Qed.

(** Where a new entry lands among sorted ones: behind every entry whose
    score is at least its own. *)
Lemma place_new (new : ScoreEntry) (old : list ScoreEntry) :
  StronglySorted ScoreSpec.by_score old ->
  fold_right insert_by_score [new] old
  = ScoreSpec.not_below (score_key new) old
    ++ new :: List.filter (fun x => score_key x <? score_key new) old /\
  ScoreSpec.not_below (score_key new) old
  ++ List.filter (fun x => score_key x <? score_key new) old = old.
Proof.
  unfold ScoreSpec.not_below.
  induction 1 as [|x rest Hs [IH1 IH2] Hf]; cbn [fold_right List.filter];
    [split; reflexivity|].
  rewrite IH1. rewrite List.Forall_forall in Hf. unfold ScoreSpec.by_score in Hf.
  destruct (Z.leb_spec (score_key new) (score_key x)) as [Hle|Hgt].
  - destruct (Z.ltb_spec (score_key x) (score_key new)); [lia|].
    split; [|cbn [app]; rewrite IH2; reflexivity].
    apply insert_front. apply List.Forall_forall. intros y Hy.
    apply in_app_or in Hy as [Hy|[<- | Hy]].
    + apply filter_In in Hy as [Hy _]. apply Hf, Hy.
    + exact Hle.
    + apply filter_In in Hy as [Hy _]. apply Hf, Hy.
  - destruct (Z.ltb_spec (score_key x) (score_key new)); [|lia].
    assert (En : List.filter (fun y => score_key new <=? score_key y) rest = []).
    { apply filter_none. apply List.Forall_forall. intros y Hy.
      specialize (Hf y Hy). apply Z.leb_gt. lia. }
    assert (Ea : List.filter (fun y => score_key y <? score_key new) rest = rest).
    { apply filter_all. apply List.Forall_forall. intros y Hy.
      specialize (Hf y Hy). apply Z.ltb_lt. lia. }
    rewrite En, Ea. cbn [app insert_by_score].
    destruct (Z.leb_spec (score_key new) (score_key x)); [lia|].
    split; [|reflexivity]. f_equal.
    apply insert_front. apply List.Forall_forall. intros y Hy. apply Hf, Hy.
Qed.

Lemma load_scores_sorted (file : ScoresFile) :
  StronglySorted ScoreSpec.by_score (fst (load_scores file)).
Proof.
  destruct file; cbn [load_scores fst]; try constructor.
  apply sort_by_score_spec.
Qed.

(** X25: [load_scores] never fails.  For a file that is missing, or whose
    text is not JSON ([json.JSONDecodeError]), it returns the empty list
    and leaves an empty table in the file; for a file whose reading raises
    any other error, for JSON that is no list, and for a list that cannot be
    ordered, it returns the empty list and leaves the file as it is.  For a
    table it returns the entries of the file with the highest score first,
    entries of equal score in the order of the file, and leaves the file as
    it is. *)
Theorem load_scores_tolerates_bad_files (file : ScoresFile) :
  let scores := fst (load_scores file) in
  let file' := snd (load_scores file) in
  StronglySorted ScoreSpec.by_score scores /\
  match file with
  | Missing | NotJson => scores = [] /\ file' = ScoreList []
  | Undecodable | NotAList | Unsortable => scores = [] /\ file' = file
  | ScoreList stored =>
      Permutation scores stored /\
      (forall k : Z,
         List.filter (fun y => score_key y =? k) scores
         = List.filter (fun y => score_key y =? k) stored) /\
      file' = file
  end.
Proof.
  intros scores file'. split; [apply load_scores_sorted|].
  subst scores file'. destruct file as [| | | | |stored]; cbn [load_scores fst snd];
    try (split; reflexivity).
  destruct (sort_by_score_spec stored) as (Hp & _ & Hk).
  split; [exact Hp|]. split; [exact Hk | reflexivity].
Qed.

(** X26: when the final score can be computed, [save_score] leaves in the
    file a table of ten entries at most, highest score first.  The new
    entry goes behind every entry of the table read whose score is not lower
    than its own: with ten such entries or more, the table is the first ten
    entries read and the new entry is not in it, so a score that ties with
    the tenth place does not enter; with fewer, the new entry stands right
    behind them, with the score, the money, the reputation and the victory
    flag of the game. *)
Theorem save_score_keeps_best_ten (now_iso : string) (g : t) (file : ScoresFile)
    (score : Z) :
  _calculate_final_score g = Some score ->
  let old := fst (load_scores file) in
  let better := length (ScoreSpec.not_below score old) in
  exists table : list ScoreEntry,
    save_score now_iso g file = ScoreList table /\
    (length table <= 10)%nat /\
    StronglySorted ScoreSpec.by_score table /\
    ((10 <= better)%nat -> table = firstn 10 old) /\
    ((better < 10)%nat ->
     firstn better table = ScoreSpec.not_below score old /\
     exists entry : ScoreEntry,
       nth_error table better = Some entry /\
       se_score entry = Some score /\
       se_money entry = money g /\
       se_reputation entry = reputation g /\
       se_completed_orders entry = Z.of_nat (length (completed_orders g)) /\
       se_victory entry = victory g).
Proof.
  intros Hscore old better. unfold save_score.
  destruct (load_scores file) as [scores file'] eqn:El.
  subst better old. cbn [fst].
  assert (Hs : StronglySorted ScoreSpec.by_score scores).
  { pose proof (load_scores_sorted file) as H. rewrite El in H. exact H. }
  rewrite Hscore.
  set (new := mkScoreEntry (Some score) _ _ _ _ _ _ _ _ _ _).
  assert (Hk : score_key new = score) by reflexivity.
  unfold sort_by_score. rewrite fold_right_app. cbn [fold_right].
  change (insert_by_score new []) with [new].
  destruct (place_new new scores Hs) as [Hplace Hsplit].
  rewrite Hplace, Hk in *.
  set (A := ScoreSpec.not_below score scores) in *.
  set (B := List.filter (fun x => score_key x <? score) scores) in *.
  assert (Hsorted : StronglySorted ScoreSpec.by_score (A ++ new :: B)).
  { rewrite <- Hsplit in Hs. apply StronglySorted_app_iff in Hs as (SA & SB & HAB).
    apply StronglySorted_app_iff. split; [exact SA|]. split.
    - constructor; [exact SB|]. apply List.Forall_forall. intros y Hy.
      subst B. apply filter_In in Hy as [_ Hy]. apply Z.ltb_lt in Hy.
      unfold ScoreSpec.by_score. rewrite Hk. lia.
    - intros a b Ha [<- | Hb]; [|apply HAB; assumption].
      subst A. unfold ScoreSpec.not_below in Ha. apply filter_In in Ha as [_ Ha].
      apply Z.leb_le in Ha. unfold ScoreSpec.by_score. rewrite Hk. exact Ha. }
  exists (firstn 10 (A ++ new :: B)).
  split; [reflexivity|]. split; [apply firstn_le_length|]. split; [|split].
  - rewrite <- (firstn_skipn 10 (A ++ new :: B)) in Hsorted.
    apply StronglySorted_app_iff in Hsorted. tauto.
  - intros Hb.
    rewrite firstn_app. replace (10 - length A)%nat with 0%nat by lia.
    cbn [firstn]. rewrite app_nil_r.
    transitivity (firstn 10 (A ++ B)); [|rewrite Hsplit; reflexivity].
    rewrite firstn_app.
    replace (10 - length A)%nat with 0%nat by lia.
    cbn [firstn]. rewrite app_nil_r. reflexivity.
  - intros Hb. split.
    + rewrite firstn_firstn. replace (Nat.min (length A) 10) with (length A) by lia.
      rewrite firstn_app, Nat.sub_diag, firstn_all. cbn [firstn].
      apply app_nil_r.
    + exists new. split; [|repeat split].
      rewrite nth_error_firstn.
      destruct (Nat.ltb_spec (length A) 10); [|lia].
      rewrite nth_error_app2 by lia. rewrite Nat.sub_diag. reflexivity.
Qed.

End ScoreFacts.
Section FinalScore.
Import CourierQuest.

Lemma py_int_sum (m a b c : Z) (bonus : bool) :
  0 <= m -> 0 <= a -> 0 <= b -> 0 <= c ->
  py_int (inject_Z m * (if bonus then 105 # 100 else 1)
          + inject_Z a + inject_Z b + inject_Z c)%Q
  = m + (if bonus then m / 20 else 0) + a + b + c.
Proof.
  intros Hm Ha Hb Hc. unfold py_int. destruct bonus; cbn.
  - rewrite Z.quot_div_nonneg by lia. Z.div_mod_to_equations. lia.
  - rewrite Z.quot_div_nonneg by lia. Z.div_mod_to_equations. lia.
Qed.

Lemma time_bonus_range (limit time : Q) :
  (0 <= time)%Q -> (time < limit)%Q ->
  0 <= py_int (500 * ((limit - time) / limit))%Q <= 500.
Proof.
  intros H0 Hlt.
  assert (Hl : (0 < limit)%Q) by lra.
  assert (Hx : (0 <= (limit - time) / limit <= 1)%Q).
  { split.
    - apply Qle_shift_div_l; [exact Hl | lra].
    - apply Qle_shift_div_r; [exact Hl | lra]. }
  set (x := ((limit - time) / limit)%Q) in *.
  rewrite py_int_floor by lra.
  assert (H1 : Qfloor (inject_Z 0) <= Qfloor (500 * x))
    by (apply Qfloor_resp_le; change (inject_Z 0) with 0%Q; lra).
  assert (H2 : Qfloor (500 * x) <= Qfloor (inject_Z 500))
    by (apply Qfloor_resp_le; change (inject_Z 500) with 500%Q; lra).
  rewrite Qfloor_Z in H1, H2. lia.
Qed.

(** X27: for a game time and money that are not negative,
    [_calculate_final_score] returns the money, a twentieth of it on top
    (rounded down) when the reputation is 90 or more, the time bonus, 10 for
    each completed order and 5 for each point of reputation above 70.  The
    time bonus is between 0 and 500, and it is 0 unless the game was won
    before 80% of the time limit.  The computation can only fail with a
    game time below 0. *)
Theorem final_score_formula (g : t) :
  (_calculate_final_score g = None -> (game_time g < 0)%Q) /\
  ((0 <= game_time g)%Q -> 0 <= money g ->
   exists time_bonus : Z,
     0 <= time_bonus <= 500 /\
     (victory g = false \/ (max_game_time g * (8 # 10) <= game_time g)%Q ->
      time_bonus = 0) /\
     _calculate_final_score g
     = Some (money g + (if 90 <=? reputation g then money g / 20 else 0)
             + time_bonus
             + Z.of_nat (length (completed_orders g)) * 10
             + Z.max 0 ((reputation g - 70) * 5))).
Proof.
  unfold _calculate_final_score.
  set (limit := (max_game_time g * (8 # 10))%Q).
  split.
  - destruct (victory g); cbn [andb]; [|discriminate].
    destruct (Qlt_bool (game_time g) limit) eqn:El; [|discriminate].
    destruct (Qeq_bool limit 0) eqn:E0; [|discriminate].
    intros _. apply Qlt_bool_iff in El. apply Qeq_bool_iff in E0. lra.
  - intros Ht Hm.
    assert (Hbonus : exists time_bonus : Z,
              0 <= time_bonus <= 500 /\
              (victory g = false \/ (limit <= game_time g)%Q -> time_bonus = 0) /\
              (if victory g && Qlt_bool (game_time g) limit
               then if Qeq_bool limit 0 then None
                    else Some (py_int (500 * ((limit - game_time g) / limit))%Q)
               else Some 0) = Some time_bonus).
    { destruct (victory g); cbn [andb].
      - destruct (Qlt_bool (game_time g) limit) eqn:El.
        + apply Qlt_bool_iff in El.
          destruct (Qeq_bool limit 0) eqn:E0.
          { apply Qeq_bool_iff in E0. lra. }
          exists (py_int (500 * ((limit - game_time g) / limit))%Q).
          split; [exact (time_bonus_range limit (game_time g) Ht El)|].
          split; [|reflexivity].
          intros [H|H]; [discriminate|]. lra.
        + exists 0. repeat split; auto; lia.
      - exists 0. repeat split; auto; lia. }
    destruct Hbonus as (tb & Hr & Hz & ->).
    exists tb. split; [exact Hr|]. split; [exact Hz|].
    f_equal.
    pose proof (py_int_sum (money g) tb (Z.of_nat (length (completed_orders g)) * 10)
                  (Z.max 0 ((reputation g - 70) * 5)) (90 <=? reputation g)) as Hsum.
    assert (Hdiv : 0 <= money g / 20) by (apply Z.div_pos; lia).
    destruct (90 <=? reputation g); rewrite Hsum; lia.
Qed.

End FinalScore.
(** ** The weather process *)

Section WeatherFacts.
Import EnhancedWeatherSystem.

(** X28: every row of [TRANSITION_MATRIX] is a probability distribution: its
    weights are positive and add up to 1, and no condition is listed twice.
    Every condition can follow itself, and a storm can only follow rain or a
    storm. *)
Theorem transition_matrix_rows (c : Condition) :
  let row := TRANSITION_MATRIX c in
  (fold_right Qplus 0 (map snd row) == 1)%Q /\
  Forall (fun p => (0 < snd p)%Q) row /\
  List.NoDup (map fst row) /\
  In c (map fst row) /\
  (In Storm (map fst row) -> c = Rain \/ c = Storm).
Proof.
  destruct c; cbn; (split; [reflexivity|]);
    (split; [repeat first [apply List.Forall_nil
                          | apply List.Forall_cons; [reflexivity|]]|]);
    (split; [repeat first
               [apply List.NoDup_nil
               | apply List.NoDup_cons;
                 [intros H; cbn in H;
                  repeat (destruct H as [H|H]; [discriminate H|]); exact H|]]|]);
    (split; [tauto|]);
    intros H; repeat (destruct H as [H|H]; [first [discriminate H | tauto]|]);
    contradiction.
Qed.

Lemma speed_table_range (c : Condition) :
  (75 # 100 <= SPEED_MULTIPLIERS c <= 1)%Q.
Proof. destruct c; cbn; split; discriminate. Qed.

Lemma penalty_table_range (c : Condition) :
  (0 <= STAMINA_PENALTIES c <= 3 # 10)%Q.
Proof. destruct c; cbn; split; discriminate. Qed.

Lemma between (a b s lo hi : Q) :
  (lo <= a <= hi)%Q -> (lo <= b <= hi)%Q -> (0 <= s <= 1)%Q ->
  (lo <= a + (b - a) * s <= hi)%Q.
Proof. intros Ha Hb Hs. split; nra. Qed.

(** X29: with an easing curve between 0 and 1 and intensities in the range
    of the draws, the speed multiplier of the weather is between 0.615 and
    0.92 at every moment, also during a transition, and the stamina penalty
    between 0 and 0.27; outside a transition the multiplier is the table
    entry of the condition times [1 - 0.2 * intensity]. *)
Theorem weather_effect_bounds (ease : Q -> Q) (now : Q) (w : t) :
  WeatherSpec.bounded ease -> WeatherSpec.well_formed w ->
  (615 # 1000 <= get_speed_multiplier ease now w <= 92 # 100)%Q /\
  (0 <= get_stamina_penalty ease now w <= 27 # 100)%Q /\
  (transitioning w = false ->
   get_speed_multiplier ease now w
   = (SPEED_MULTIPLIERS (current_condition w) * (1 - current_intensity w * (2 # 10)))%Q).
Proof.
  intros He (Hi & _ & _ & _). unfold WeatherSpec.in_range in Hi.
  unfold get_speed_multiplier, get_stamina_penalty.
  assert (Hb : (75 # 100 <=
                (if transitioning w
                 then SPEED_MULTIPLIERS (previous_condition w)
                      + (SPEED_MULTIPLIERS (target_condition w)
                         - SPEED_MULTIPLIERS (previous_condition w))
                        * ease (progress_at now w)
                 else SPEED_MULTIPLIERS (current_condition w)) <= 1)%Q).
  { destruct (transitioning w); [|apply speed_table_range].
    apply between; [apply speed_table_range | apply speed_table_range | apply He]. }
  assert (Hp : (0 <=
                (if transitioning w
                 then STAMINA_PENALTIES (previous_condition w)
                      + (STAMINA_PENALTIES (target_condition w)
                         - STAMINA_PENALTIES (previous_condition w))
                        * ease (progress_at now w)
                 else STAMINA_PENALTIES (current_condition w)) <= 3 # 10)%Q).
  { destruct (transitioning w); [|apply penalty_table_range].
    apply between; [apply penalty_table_range | apply penalty_table_range | apply He]. }
  cbv zeta.
  set (b := if transitioning w then _ else SPEED_MULTIPLIERS _) in *.
  set (p := if transitioning w then _ else STAMINA_PENALTIES _) in *.
  set (i := current_intensity w) in *.
  split; [split; nra|]. split; [split; nra|].
  intros Hs. subst b. rewrite Hs. reflexivity.
Qed.

(** X30: [update] keeps the intensities in the range of the draws and the
    memory at five conditions at most.  A transition whose progress has
    reached 1 ends in that call: the condition and the intensity become
    those of the target.  While the progress is below 1 the condition and
    the target stay as they are and no other change begins.  Outside a
    transition the condition and the intensity stay as they are, and a
    change begins exactly when the time in the current condition, with
    [dt] added, has reached the burst duration: the time is then set to 0,
    the current condition is remembered as the previous one, and the drawn
    condition, intensity and burst duration are taken. *)
Theorem weather_update_transition (ease : Q -> Q) (dt now : Q) (d : Draw) (w : t) :
  WeatherSpec.bounded ease -> WeatherSpec.well_formed w ->
  WeatherSpec.in_range (new_intensity d) ->
  let w' := update ease dt now d w in
  WeatherSpec.well_formed w' /\
  (transitioning w = true -> (1 <= progress_at now w)%Q ->
   current_condition w' = target_condition w /\
   current_intensity w' = target_intensity w) /\
  (transitioning w = true -> (progress_at now w < 1)%Q ->
   transitioning w' = true /\
   current_condition w' = current_condition w /\
   target_condition w' = target_condition w /\
   (time_in_current w' == time_in_current w + dt)%Q) /\
  (transitioning w = false ->
   current_condition w' = current_condition w /\
   current_intensity w' = current_intensity w /\
   (transitioning w' = true <->
    (inject_Z (burst_duration w) <= time_in_current w + dt)%Q) /\
   (transitioning w' = true ->
    time_in_current w' = 0%Q /\
    previous_condition w' = current_condition w /\
    target_condition w' = new_condition d /\
    target_intensity w' = new_intensity d /\
    burst_duration w' = new_burst d)).
Proof.
  intros He (Hc & Hp & Ht & Hm) Hd w'. subst w'.
  destruct w as [cc ci tic bd wm tr tst td pc pi tc ti].
  cbn [current_intensity previous_intensity target_intensity weather_memory] in *.
  unfold update, progress_at.
  cbn [current_condition current_intensity time_in_current burst_duration
       weather_memory transitioning transition_start_time transition_duration
       previous_condition previous_intensity target_condition target_intensity].
  set (pr := Qmin 1 ((now - tst) / td)).
  assert (Hmem : (length (memory_append (new_condition d) wm) <= 5)%nat).
  { unfold memory_append. destruct (Nat.leb_spec 5 (length wm)).
    - rewrite length_app. destruct wm; cbn [tl length] in *; lia.
    - rewrite length_app. cbn [length]. lia. }
  assert (Hmix : WeatherSpec.in_range (pi + (ti - pi) * ease pr)).
  { unfold WeatherSpec.in_range in *. apply between; [exact Hp | exact Ht | apply He]. }
  destruct tr.
  - destruct (Qle_bool 1 pr) eqn:E1.
    + cbn [transitioning negb andb time_in_current burst_duration].
      rewrite andb_true_r.
      destruct (Qle_bool (inject_Z bd) (Qred (tic + dt))) eqn:Eb.
      * unfold _initiate_weather_change. cbn.
        split; [repeat split; first [apply Ht | apply Hd | exact Hmem]|].
        split; [intros _ _; split; reflexivity|].
        split; [|discriminate].
        intros _ Hlt. apply Qle_bool_iff in E1. apply Qlt_not_le in Hlt. contradiction.
      * cbn.
        split; [repeat split; first [apply Ht | apply Hp | exact Hm]|].
        split; [intros _ _; split; reflexivity|].
        split; [|discriminate].
        intros _ Hlt. apply Qle_bool_iff in E1. apply Qlt_not_le in Hlt. contradiction.
    + cbn [transitioning negb andb]. rewrite andb_false_r. cbn.
      split; [repeat split; first [apply Hmix | apply Hp | apply Ht | exact Hm]|].
      split.
      { intros _ Hge. apply Qle_bool_false_iff in E1. apply Qlt_not_le in E1.
        contradiction. }
      split; [|discriminate].
      intros _ _. repeat split. apply Qred_correct.
  - cbn [transitioning negb andb time_in_current burst_duration].
    rewrite andb_true_r.
    destruct (Qle_bool (inject_Z bd) (Qred (tic + dt))) eqn:Eb.
    + apply Qle_bool_iff in Eb. rewrite Qred_correct in Eb.
      unfold _initiate_weather_change. cbn.
      split; [repeat split; first [apply Hc | apply Hd | exact Hmem]|].
      split; [discriminate|]. split; [discriminate|].
      intros _. repeat split; auto.
    + apply Qle_bool_false_iff in Eb. rewrite Qred_correct in Eb. cbn.
      split; [repeat split; first [apply Hc | apply Hp | apply Ht | exact Hm]|].
      split; [discriminate|]. split; [discriminate|].
      intros _. split; [reflexivity|]. split; [reflexivity|]. split.
      * split; [discriminate|]. intros H. apply Qlt_not_le in Eb. contradiction.
      * discriminate.
Qed.

End WeatherFacts.

(** ** The statements above at concrete inputs *)

Section MoreWitnesses.
Import CourierQuest.

Lemma enqueue_behind_equal_priority_witness :
  OptimizedPriorityQueue.enqueue Scenario.late_order
    [Scenario.unclaimed "A1" (1 # 4) 0; Scenario.parcel "P1"]
  = [Scenario.unclaimed "A1" (1 # 4) 0; Scenario.parcel "P1"; Scenario.late_order].
Proof.
  rewrite enqueue_behind_equal_priority; [reflexivity|].
  repeat constructor. unfold OptimizedPriorityQueue.by_priority. cbn. lia.
Defined.

Lemma enqueue_remove_roundtrip_witness :
  OptimizedPriorityQueue.remove Scenario.late_order
    (OptimizedPriorityQueue.enqueue Scenario.late_order
       [Scenario.unclaimed "A1" (1 # 4) 0; Scenario.parcel "P1"])
  = (true, [Scenario.unclaimed "A1" (1 # 4) 0; Scenario.parcel "P1"]).
Proof.
  apply (enqueue_remove_roundtrip Scenario.late_order
           [Scenario.unclaimed "A1" (1 # 4) 0; Scenario.parcel "P1"]).
  repeat constructor.
Defined.

Lemma fix_order_positions_valid_witness :
  _validate_order_positions (fst Scenario.start)
    (_fix_order_positions (fst Scenario.start)
       (Scenario.order_of "FAR" (mkPosition 40 40) (mkPosition (-1) 3) 2 0 0)) = true.
Proof.
  apply (proj1 (fix_order_positions_valid (fst Scenario.start)
                  (Scenario.order_of "FAR" (mkPosition 40 40) (mkPosition (-1) 3) 2 0 0))).
  exists 0, 0. vm_compute. reflexivity.
Defined.

Lemma initialize_game_data_backlog_witness :
  Forall (fun order => _validate_order_positions (fst Scenario.start) order = true)
    (map (StartSpec.validated (fst Scenario.start)) [Scenario.late_order]).
Proof.
  apply (proj1 (proj2 (proj2 (initialize_game_data_backlog Scenario.fallback_map
                                [Scenario.late_order] init)))).
  exists 0, 0. vm_compute. reflexivity.
Defined.

Lemma check_expired_orders_effect_witness :
  map id (available_orders Scenario.one_expired) = ["A1"; "P1"; "P2"]%string /\
  map id (available_orders (_check_expired_orders Scenario.one_expired))
  = ["P1"; "P2"]%string /\
  reputation (_check_expired_orders Scenario.one_expired)
  = reputation Scenario.one_expired - 6 /\
  OptimizedPriorityQueue.sorted_desc
    (available_orders (_check_expired_orders Scenario.one_expired)).
Proof.
  pose proof (check_expired_orders_effect Scenario.one_expired) as H.
  cbv zeta in H. destruct H as (H1 & H2 & _ & H4).
  split; [vm_compute; reflexivity|].
  split; [rewrite H2; vm_compute; reflexivity|].
  split; [rewrite H1; vm_compute; reflexivity|].
  apply H4.
  assert (E : map priority (available_orders Scenario.one_expired) = [2; 0; 0])
    by (vm_compute; reflexivity).
  revert E. generalize (available_orders Scenario.one_expired). intros l E.
  destruct l as [|a [|b [|c [|d l]]]]; try discriminate E.
  injection E as Ea Eb Ec.
  repeat constructor; unfold OptimizedPriorityQueue.by_priority; lia.
Defined.

Lemma process_order_releases_keeps_order_witness :
  OptimizedPriorityQueue.sorted_desc
    (available_orders (_process_order_releases Scenario.backlog)).
Proof.
  apply (proj1 (proj2 (proj2 (process_order_releases_keeps_order Scenario.backlog)))).
  constructor.
Defined.

Lemma update_keeps_player_and_money_witness :
  (game_time (update (1 # 32) (mkWeather Clear (5 # 10) 0) (fst Scenario.start))
   == game_time (fst Scenario.start) + (1 # 32))%Q.
Proof.
  apply (proj1 (proj2 (update_keeps_player_and_money (1 # 32)
                         (mkWeather Clear (5 # 10) 0) (fst Scenario.start)))).
  repeat split.
Defined.

Lemma update_recovers_stamina_witness :
  (stamina (fst Scenario.rested)
   <= stamina (update (1 # 32) (mkWeather Clear (5 # 10) 0) (fst Scenario.rested)))%Q.
Proof.
  assert (Hr : TickSpec.running (fst Scenario.rested)) by (vm_compute; repeat split).
  assert (Hdt : (0 <= 1 # 32)%Q) by discriminate.
  pose proof (update_recovers_stamina (1 # 32) (mkWeather Clear (5 # 10) 0)
                (fst Scenario.rested) Hr Hdt) as H.
  cbv zeta in H. exact (proj1 (proj2 (proj2 H))).
Defined.

Lemma update_ends_game_witness :
  game_over (update (1 # 32) (mkWeather Clear (5 # 10) 0)
               (fst Scenario.before_last_expiry)) = true.
Proof.
  assert (Hr : TickSpec.running (fst Scenario.before_last_expiry))
    by (vm_compute; repeat split).
  apply (proj1 (update_ends_game (1 # 32) (mkWeather Clear (5 # 10) 0)
                  (fst Scenario.before_last_expiry) Hr)).
  left. vm_compute. reflexivity.
Defined.

Lemma handle_input_one_valid_step_witness :
  handle_input Scenario.press_right (1 # 32) (9 # 10) (fst Scenario.exhausted)
  = fst Scenario.exhausted.
Proof.
  apply (proj1 (handle_input_one_valid_step Scenario.press_right (1 # 32) (9 # 10)
                  (fst Scenario.exhausted))).
  right. right. vm_compute. discriminate.
Defined.

Lemma time_remaining_runs_down_witness :
  (0 <= get_order_time_remaining Scenario.scoring (Scenario.prompt "S1"))%Q.
Proof.
  assert (Hs : status (Scenario.prompt "S1") <> waiting_release) by discriminate.
  exact (proj1 (proj2 (time_remaining_runs_down Scenario.scoring Scenario.scoring
                         (Scenario.prompt "S1")) Hs)).
Defined.

Lemma deliver_order_bookkeeping_witness :
  completed_orders (deliver_order (Scenario.prompt "S1") Scenario.scoring)
  = [set_status delivered (Scenario.prompt "S1")].
Proof.
  apply (deliver_order_bookkeeping Scenario.scoring (Scenario.prompt "S1")).
  left. reflexivity.
Defined.

Lemma interact_keeps_orders_and_weight_limit_witness :
  total_weight (inventory (interact_at_position Scenario.scoring)) <= max_weight.
Proof.
  apply (proj1 (proj2 (interact_keeps_orders_and_weight_limit Scenario.scoring))).
  - vm_compute. discriminate.
  - repeat constructor; vm_compute; discriminate.
Defined.

Lemma stamina_and_reputation_within_limits_witness :
  (0 <= stamina (fst (run Scenario.start (Scenario.frames 1 (Scenario.step Scenario.press_right))))
   <= 100)%Q /\
  reputation (fst (run Scenario.start (Scenario.frames 1 (Scenario.step Scenario.press_right))))
  <= 100.
Proof.
  apply (stamina_and_reputation_within_limits Scenario.fallback_map [Scenario.late_order]
           (Scenario.frames 1 (Scenario.step Scenario.press_right))).
  repeat constructor; discriminate.
Defined.

Lemma player_stays_on_walkable_cells_witness :
  _is_position_walkable
    (fst (run Scenario.start (Scenario.frames 1 (Scenario.step Scenario.press_right))))
    (pos_x (player_pos
       (fst (run Scenario.start (Scenario.frames 1 (Scenario.step Scenario.press_right))))))
    (pos_y (player_pos
       (fst (run Scenario.start (Scenario.frames 1 (Scenario.step Scenario.press_right))))))
  = true.
Proof.
  apply (player_stays_on_walkable_cells Scenario.fallback_map [Scenario.late_order]
           (Scenario.frames 1 (Scenario.step Scenario.press_right))).
  vm_compute. reflexivity.
Defined.

Lemma order_panel_commands_witness :
  accept_selected_order (-1) (_process_order_releases Scenario.backlog) <> None.
Proof.
  apply (proj1 (order_panel_commands (-1) (_process_order_releases Scenario.backlog))).
  vm_compute. discriminate.
Defined.

Lemma undo_move_restores_five_witness :
  length (MemoryEfficientHistory.diffs (history (fst Scenario.resumed))) = 1%nat /\
  MemoryEfficientHistory.diffs (history (undo_move (fst Scenario.resumed))) = [] /\
  MemoryEfficientHistory.base_state (history (undo_move (fst Scenario.resumed)))
  = MemoryEfficientHistory.base_state (history (fst Scenario.resumed)) /\
  game_time (undo_move (fst Scenario.resumed)) = game_time (fst Scenario.resumed).
Proof.
  pose proof (undo_move_restores_five (fst Scenario.resumed)) as H.
  cbv zeta in H. destruct H as (_ & H2 & H3 & H4).
  assert (El : length (MemoryEfficientHistory.diffs (history (fst Scenario.resumed)))
               = 1%nat) by (vm_compute; reflexivity).
  assert (Hne : MemoryEfficientHistory.diffs (history (fst Scenario.resumed)) <> []).
  { intros E. rewrite E in El. clear - El. discriminate El. }
  specialize (H2 Hne).
  split; [exact El|].
  split.
  { apply (f_equal (@length _)) in H2. rewrite El, length_app in H2.
    clear - H2. revert H2.
    generalize (MemoryEfficientHistory.diffs (history (undo_move (fst Scenario.resumed)))).
    intros l H2. destruct l; [reflexivity | cbn [length] in H2; lia]. }
  split; [exact H3|].
  clear - H4. revert H4.
  generalize (undo_move (fst Scenario.resumed)), (fst Scenario.resumed).
  intros g' g H4. rewrite H4. destruct g. reflexivity.
Defined.

Lemma load_game_failure_and_frame_witness :
  snd (_load_game 1 ∅ (fst Scenario.start)) = fst Scenario.start.
Proof.
  apply (proj1 (proj2 (load_game_failure_and_frame 1 ∅ (fst Scenario.start)))).
  reflexivity.
Defined.

Lemma save_game_touches_one_slot_witness :
  RobustFileManager.load_game_with_validation 2
    (snd (save_game 0 "2023-11-14T22:13:20" 1 (fst Scenario.start) Scenario.saved_disk))
  = RobustFileManager.load_game_with_validation 2 Scenario.saved_disk.
Proof.
  apply (proj1 (proj2 (proj2 (save_game_touches_one_slot 0 "2023-11-14T22:13:20" 1
                                (fst Scenario.start) Scenario.saved_disk)))).
  discriminate.
Defined.

Lemma save_score_keeps_best_ten_witness :
  exists table : list RobustFileManager.ScoreEntry,
    save_score "2023-11-14T22:13:20" Scenario.scoring RobustFileManager.Missing
    = RobustFileManager.ScoreList table /\
    (length table <= 10)%nat.
Proof.
  destruct (save_score_keeps_best_ten "2023-11-14T22:13:20" Scenario.scoring
              RobustFileManager.Missing 0) as (table & E & L & _).
  - vm_compute. reflexivity.
  - exists table. split; assumption.
Defined.

Lemma final_score_formula_witness :
  exists time_bonus : Z,
    _calculate_final_score Scenario.scoring
    = Some (0 + 0 + time_bonus + 0 + 0).
Proof.
  destruct (proj2 (final_score_formula Scenario.scoring)) as (tb & _ & _ & E).
  - vm_compute. discriminate.
  - vm_compute. discriminate.
  - exists tb. exact E.
Defined.

Lemma weather_effect_bounds_witness :
  (615 # 1000
   <= EnhancedWeatherSystem.get_speed_multiplier (fun p => Qmax 0 (Qmin 1 p)) 0
        EnhancedWeatherSystem.init
   <= 92 # 100)%Q.
Proof.
  apply (weather_effect_bounds (fun p => Qmax 0 (Qmin 1 p)) 0 EnhancedWeatherSystem.init).
  - intros p. split; [apply Q.le_max_l|].
    apply Q.max_lub; [discriminate | apply Q.le_min_l].
  - repeat split; try discriminate. cbn. lia.
Defined.

Lemma weather_update_transition_witness :
  WeatherSpec.well_formed
    (EnhancedWeatherSystem.update (fun p => Qmax 0 (Qmin 1 p)) 30 0
       (EnhancedWeatherSystem.mkDraw Rain (6 # 10) 28 0)
       EnhancedWeatherSystem.init).
Proof.
  apply (weather_update_transition (fun p => Qmax 0 (Qmin 1 p)) 30 0
           (EnhancedWeatherSystem.mkDraw Rain (6 # 10) 28 0)
           EnhancedWeatherSystem.init).
  - intros p. split; [apply Q.le_max_l|].
    apply Q.max_lub; [discriminate | apply Q.le_min_l].
  - repeat split; try discriminate. cbn. lia.
  - split; discriminate.
Defined.

End MoreWitnesses.
